(** * RowNodeCache: block registry, eviction, virtual row count, range walk

    A shallow embedding of
    [community-modules/core/src/ts/modules/rowNodeCache/rowNodeCache.ts]
    and the properties of its natural-language specification.

    JavaScript numbers that hold row counts, block numbers and time stamps
    are modelled as [Z]; the places where the source can meet [NaN],
    [null] or [undefined] are written out.  A JavaScript number holds an
    integer exactly, and adds and multiplies exactly, on the safe integers
    ([isSafeInteger]); the properties that rest on exact arithmetic or on
    the decimal name of a number say so.  The registry object
    [blocks : { [blockNumber: string]: T }] is a [gmap Z Block]; the
    property names of its keys and the way back through [parseInt] are
    modelled apart ([objectKeys], [parseInt10]).  Calls to
    the collaborators (block loader, bean destruction, event dispatch,
    logger) are recorded in an effect trace that every operation returns
    next to the new cache state. *)

From Stdlib Require Import ZArith Lia Ascii String.
From stdpp Require Import gmap list sorting pretty.

Local Open Scope Z_scope.

(** ** Collaborators *)

(** A row node is an object; only its identity matters here. *)
Definition RowNode := nat.

(** What a getter typed [number] can hand back at run time. *)
Inductive JsValue :=
| JsNum (z : Z)
| JsNull
| JsUndefined.

(** A JavaScript number after arithmetic: [None] is [NaN]. *)
Definition JsNumber := option Z.

(** [v - 1]: [null] converts to [0], [undefined] to [NaN]. *)
Definition js_minus_one (v : JsValue) : JsNumber :=
  match v with
  | JsNum z => Some (z - 1)
  | JsNull => Some (-1)
  | JsUndefined => None
  end.

(** [v == null] *)
Definition js_is_nullish (v : JsValue) : bool :=
  match v with
  | JsNum _ => false
  | JsNull | JsUndefined => true
  end.

(** [a < b] on numbers; a comparison with [NaN] is false. *)
Definition js_lt (a b : JsNumber) : bool :=
  match a, b with
  | Some x, Some y => x <? y
  | _, _ => false
  end.

(** [a > b] with [a] a getter value that is known not to be nullish where
    it is used; written out for all three cases as JavaScript converts. *)
Definition js_gt_value (a : JsValue) (b : Z) : bool :=
  match a with
  | JsNum x => b <? x
  | JsNull => b <? 0
  | JsUndefined => false
  end.

(** [a % b === 0]: the remainder takes the sign of the dividend ([Z.rem]),
    and [a % 0] is [NaN], which is not [=== 0]. *)
Definition js_rem_is_zero (a b : Z) : bool :=
  if b =? 0 then false else Z.rem a b =? 0.

Inductive BlockState :=
| STATE_DIRTY
| STATE_LOADING
| STATE_LOADED
| STATE_FAILED.

Definition BlockState_eqb (a b : BlockState) : bool :=
  match a, b with
  | STATE_DIRTY, STATE_DIRTY
  | STATE_LOADING, STATE_LOADING
  | STATE_LOADED, STATE_LOADED
  | STATE_FAILED, STATE_FAILED => true
  | _, _ => false
  end.

(** The block interface [IRowNodeBlock] as the cache consumes it.  [objId]
    is the identity of the object (what [===] compares);
    [forEachNodeShallow rowCount] is the sequence of rows the block hands
    to the callback of its shallow iteration. *)
Record Block := {
  objId : nat;
  getBlockNumber : Z;
  getState : BlockState;
  getLastAccessed : Z;
  isAnyNodeOpen : Z -> bool;
  getDisplayIndexStart : JsValue;
  getDisplayIndexEnd : JsValue;
  forEachNodeShallow : Z -> list RowNode
}.

Record RowRenderer := {
  getFirstVirtualRenderedRow : Z;
  getLastVirtualRenderedRow : Z
}.

(** The fields of [RowNodeCacheParams] the cache itself reads.
    [maxBlocksInCache] is optional in the source. *)
Record RowNodeCacheParams := {
  initialRowCount : Z;
  blockSize : Z;
  overflowSize : Z;
  maxBlocksInCache : option Z
}.

(** Calls that leave the cache. Blocks are named by their [objId]. *)
Inductive Effect :=
| LoaderLoadComplete
| LoaderCheckBlockToLoad
| LoaderAddBlock (b : nat)
| LoaderRemoveBlock (b : nat)
| DestroyBean (b : nat)
| AddLoadCompleteListener (b : nat)
| LoggerLog
| DispatchCacheUpdated.

(** ** The cache *)

Record RowNodeCache := {
  virtualRowCount : Z;
  maxRowFound : bool;
  rowRenderer : RowRenderer;
  cacheParams : RowNodeCacheParams;
  active : bool;
  blocks : gmap Z Block;
  blockCount : Z
}.

Definition MAX_EMPTY_BLOCKS_TO_KEEP : Z := 2.

Definition with_virtualRowCount (v : Z) (c : RowNodeCache) : RowNodeCache :=
  {| virtualRowCount := v; maxRowFound := maxRowFound c;
     rowRenderer := rowRenderer c; cacheParams := cacheParams c;
     active := active c; blocks := blocks c; blockCount := blockCount c |}.

Definition with_maxRowFound (m : bool) (c : RowNodeCache) : RowNodeCache :=
  {| virtualRowCount := virtualRowCount c; maxRowFound := m;
     rowRenderer := rowRenderer c; cacheParams := cacheParams c;
     active := active c; blocks := blocks c; blockCount := blockCount c |}.

Definition with_active (a : bool) (c : RowNodeCache) : RowNodeCache :=
  {| virtualRowCount := virtualRowCount c; maxRowFound := maxRowFound c;
     rowRenderer := rowRenderer c; cacheParams := cacheParams c;
     active := a; blocks := blocks c; blockCount := blockCount c |}.

Definition with_blocks (m : gmap Z Block) (c : RowNodeCache) : RowNodeCache :=
  {| virtualRowCount := virtualRowCount c; maxRowFound := maxRowFound c;
     rowRenderer := rowRenderer c; cacheParams := cacheParams c;
     active := active c; blocks := m; blockCount := blockCount c |}.

Definition with_blockCount (n : Z) (c : RowNodeCache) : RowNodeCache :=
  {| virtualRowCount := virtualRowCount c; maxRowFound := maxRowFound c;
     rowRenderer := rowRenderer c; cacheParams := cacheParams c;
     active := active c; blocks := blocks c; blockCount := n |}.

(** *** Operations as state transformers with an effect trace *)

Definition Action := RowNodeCache -> RowNodeCache * list Effect.

Definition skip : Action := fun c => (c, []).
Definition emit (e : Effect) : Action := fun c => (c, [e]).
Definition modify (f : RowNodeCache -> RowNodeCache) : Action :=
  fun c => (f c, []).
Definition andThen (a b : Action) : Action :=
  fun c => ((b (a c).1).1, (a c).2 ++ (b (a c).1).2).

Notation "a ;; b" := (andThen a b) (at level 100, right associativity).

(** [list.forEach(x => f(x))] *)
Fixpoint forEach {A} (l : list A) (f : A -> Action) : Action :=
  match l with
  | [] => skip
  | x :: l' => f x ;; forEach l' f
  end.

(** [list.forEach((x, index) => f(x, index))], counting from [i]. *)
Fixpoint forEachFrom {A} (i : Z) (l : list A) (f : A -> Z -> Action) : Action :=
  match l with
  | [] => skip
  | x :: l' => f x i ;; forEachFrom (i + 1) l' f
  end.

(** The constructor, and [init] (the cache is not active before it). *)
Definition newRowNodeCache (p : RowNodeCacheParams) (r : RowRenderer) : RowNodeCache :=
  {| virtualRowCount := initialRowCount p; maxRowFound := false;
     rowRenderer := r; cacheParams := p; active := false;
     blocks := ∅; blockCount := 0 |}.

Definition init : Action := modify (with_active true).

Definition hack_setVirtualRowCount (v : Z) : Action :=
  modify (with_virtualRowCount v).

(** *** Ordered traversal of the registry *)

(** [Object.keys(this.blocks).map(parseInt).sort((a, b) => a - b)] *)
Definition getBlockIdsSorted (c : RowNodeCache) : list Z :=
  merge_sort Z.le (map_to_list (blocks c)).*1.

(** [forEachBlockId]: the block is looked up when its id is reached, so a
    callback that deletes entries is seen by the later lookups;
    [this.blocks[id]] of a deleted entry is [undefined] ([None]). *)
Definition forEachBlockId (ids : list Z) (callback : option Block -> Z -> Action) : Action :=
  forEach ids (fun id c => callback (blocks c !! id) id c).

Definition forEachBlockInOrder (callback : option Block -> Z -> Action) : Action :=
  fun c => forEachBlockId (getBlockIdsSorted c) callback c.

Definition forEachBlockInReverseOrder (callback : option Block -> Z -> Action) : Action :=
  fun c => forEachBlockId (reverse (getBlockIdsSorted c)) callback c.

(** The visit sequence of [forEachBlockInOrder] for a callback that leaves
    the registry alone (it only fills local variables): every id is a key
    of the unchanged registry, so every lookup finds its block. *)
Definition blocksInOrder (c : RowNodeCache) : list (Z * Block) :=
  omap (fun id => (fun b => (id, b)) <$> blocks c !! id) (getBlockIdsSorted c).

Definition getBlock (c : RowNodeCache) (blockId : Z) : option Block :=
  blocks c !! blockId.

(** *** Registry updates *)

Definition checkBlockToLoad : Action := emit LoaderCheckBlockToLoad.

Definition setBlock (id : Z) (block : Block) : Action :=
  modify (fun c => with_blocks (<[id := block]> (blocks c)) c) ;;
  modify (fun c => with_blockCount (blockCount c + 1) c) ;;
  emit (LoaderAddBlock (objId block)).

Definition destroyBlock (block : Block) : Action :=
  modify (fun c => with_blocks (delete (getBlockNumber block) (blocks c)) c) ;;
  emit (DestroyBean (objId block)) ;;
  modify (fun c => with_blockCount (blockCount c - 1) c) ;;
  emit (LoaderRemoveBlock (objId block)).

Definition removeBlockFromCache (blockToRemove : option Block) : Action :=
  match blockToRemove with
  | None => skip
  | Some b => destroyBlock b
  end.

(** *** Eviction *)

Definition isBlockCurrentlyDisplayed (c : RowNodeCache) (block : Block) : bool :=
  let firstViewportRow := getFirstVirtualRenderedRow (rowRenderer c) in
  let lastViewportRow := getLastVirtualRenderedRow (rowRenderer c) in
  let firstRowIndex := getDisplayIndexStart block in
  let lastRowIndex := js_minus_one (getDisplayIndexEnd block) in
  (* [lastRowIndex] is a number or [NaN], never [== null] *)
  let parentClosed := js_is_nullish firstRowIndex || false in
  if parentClosed then false
  else
    let blockBeforeViewport := js_gt_value firstRowIndex lastViewportRow in
    let blockAfterViewport := js_lt lastRowIndex (Some firstViewportRow) in
    negb blockBeforeViewport && negb blockAfterViewport.

(** [blocksForPurging.sort((a, b) => b.getLastAccessed() - a.getLastAccessed())]
    as a stable sort: [x], which stood before the blocks of [l], goes in
    front of the first [y] that the comparator does not put before it. *)
Fixpoint insertByLastAccessed (x : Block) (l : list Block) : list Block :=
  match l with
  | [] => [x]
  | y :: l' =>
      if getLastAccessed y - getLastAccessed x <=? 0
      then x :: y :: l'
      else y :: insertByLastAccessed x l'
  end.

Definition sortByLastAccessed (l : list Block) : list Block :=
  foldr insertByLastAccessed [] l.

Definition purgeBecauseCacheFull (p : RowNodeCacheParams) (index : Z) : bool :=
  match maxBlocksInCache p with
  | Some n => if 0 <? n then n - 1 <=? index else false
  | None => false
  end.

Definition purgeBecauseBlockEmpty (block : Block) (index : Z) : bool :=
  BlockState_eqb (getState block) STATE_DIRTY
  && (MAX_EMPTY_BLOCKS_TO_KEEP - 1 <=? index).

(** The body of the second [forEach] of [purgeBlocksIfNeeded]. *)
Definition purgeStep (block : Block) (index : Z) : Action :=
  fun c =>
    if purgeBecauseBlockEmpty block index
       || purgeBecauseCacheFull (cacheParams c) index
    then
      if isAnyNodeOpen block (virtualRowCount c) then skip c
      else if isBlockCurrentlyDisplayed c block then skip c
      else removeBlockFromCache (Some block) c
    else skip c.

(** The candidates: every registered block but the one just created. *)
Definition blocksForPurging (blockToExclude : Block) (c : RowNodeCache) : list Block :=
  filter (fun b => objId b ≠ objId blockToExclude) (blocksInOrder c).*2.

Definition purgeBlocksIfNeeded (blockToExclude : Block) : Action :=
  fun c =>
    forEachFrom 0 (sortByLastAccessed (blocksForPurging blockToExclude c))
      purgeStep c.

Definition postCreateBlock (newBlock : Block) : Action :=
  emit (AddLoadCompleteListener (objId newBlock)) ;;
  setBlock (getBlockNumber newBlock) newBlock ;;
  purgeBlocksIfNeeded newBlock ;;
  checkBlockToLoad.

(** *** Virtual row count *)

(** The [else if (!this.maxRowFound)] branch of [checkVirtualRowCount]. *)
Definition growVirtualRowCount (block : Block) (c : RowNodeCache) : RowNodeCache :=
  if negb (maxRowFound c) then
    let lastRowIndex := (getBlockNumber block + 1) * blockSize (cacheParams c) in
    let lastRowIndexPlusOverflow := lastRowIndex + overflowSize (cacheParams c) in
    if virtualRowCount c <? lastRowIndexPlusOverflow
    then with_virtualRowCount lastRowIndexPlusOverflow c
    else c
  else c.

(** [lastRow] is [None] when [typeof lastRow === 'number'] fails. *)
Definition checkVirtualRowCount (block : Block) (lastRow : option Z) : Action :=
  modify (fun c =>
    match lastRow with
    | Some l =>
        if 0 <=? l
        then with_maxRowFound true (with_virtualRowCount l c)
        else growVirtualRowCount block c
    | None => growVirtualRowCount block c
    end).

Definition blocksToDestroy (c : RowNodeCache) : list Block :=
  (filter (fun ib => virtualRowCount c <= ib.1 * blockSize (cacheParams c))
          (blocksInOrder c)).*2.

Definition destroyAllBlocksPastVirtualRowCount : Action :=
  fun c => forEach (blocksToDestroy c) destroyBlock c.

Definition onCacheUpdated : Action :=
  fun c =>
    if active c
    then (destroyAllBlocksPastVirtualRowCount ;; emit DispatchCacheUpdated) c
    else skip c.

(** Modelled from the spec: [exists] of [utils/generic] is not among the
    sources; the flag argument is tri-state, and [None] is the unset
    argument, which leaves [maxRowFound] as it is. *)
Definition setVirtualRowCount (rowCount : Z) (maxRowFound' : option bool) : Action :=
  modify (with_virtualRowCount rowCount) ;;
  modify (fun c =>
    match maxRowFound' with
    | Some m => with_maxRowFound m c
    | None => c
    end) ;;
  modify (fun c =>
    if negb (maxRowFound c) then
      if js_rem_is_zero (virtualRowCount c) (blockSize (cacheParams c))
      then with_virtualRowCount (virtualRowCount c + 1) c
      else c
    else c) ;;
  onCacheUpdated.

Definition purgeCache : Action :=
  forEachBlockInOrder (fun block _ => removeBlockFromCache block) ;;
  modify (with_maxRowFound false) ;;
  modify (fun c =>
    if virtualRowCount c =? 0
    then with_virtualRowCount (initialRowCount (cacheParams c)) c
    else c) ;;
  onCacheUpdated.

(** The load-complete event of a block. *)
Record LoadCompleteEvent := {
  page : Block;
  lastRow : option Z;
  success : bool
}.

Definition onPageLoaded (event : LoadCompleteEvent) : Action :=
  emit LoaderLoadComplete ;;
  checkBlockToLoad ;;
  fun c =>
    if negb (active c) then skip c
    else
      (emit LoggerLog ;;
       if success event
       then (checkVirtualRowCount (page event) (lastRow event) ;; onCacheUpdated)
       else skip) c.

(** *** Range selection *)

(** Modelled from the spec: [missing] of [utils/generic] is not among the
    sources; an anchor that is absent ([null] or [undefined]) is [None],
    and the walk starts inside the range exactly when the first anchor is
    absent. *)
Definition missing {A} (value : option A) : bool :=
  match value with
  | None => true
  | Some _ => false
  end.

Record RangeWalk := {
  result : list RowNode;
  lastBlockId : Z;
  inActiveRange : bool;
  foundGapInSelection : bool
}.

(** [rowNode === anchor]; an anchor that is [null] or [undefined] ([None])
    is no row. *)
Definition isAnchor (rowNode : RowNode) (anchor : option RowNode) : bool :=
  match anchor with
  | Some a => Nat.eqb rowNode a
  | None => false
  end.

(** The callback handed to [forEachNodeShallow]. *)
Definition visitRow (firstInRange lastInRange : option RowNode)
    (w : RangeWalk) (rowNode : RowNode) : RangeWalk :=
  let hitFirstOrLast := isAnchor rowNode firstInRange || isAnchor rowNode lastInRange in
  let result' :=
    if inActiveRange w || hitFirstOrLast then result w ++ [rowNode] else result w in
  {| result := result';
     lastBlockId := lastBlockId w;
     inActiveRange := if hitFirstOrLast then negb (inActiveRange w) else inActiveRange w;
     foundGapInSelection := foundGapInSelection w |}.

(** The callback handed to [forEachBlockInOrder]. *)
Definition visitBlock (firstInRange lastInRange : option RowNode) (rowCount : Z)
    (w : RangeWalk) (ib : Z * Block) : RangeWalk :=
  if foundGapInSelection w then w
  else if inActiveRange w && negb (lastBlockId w + 1 =? ib.1) then
    {| result := result w; lastBlockId := lastBlockId w;
       inActiveRange := inActiveRange w; foundGapInSelection := true |}
  else
    foldl (visitRow firstInRange lastInRange)
      {| result := result w; lastBlockId := ib.1;
         inActiveRange := inActiveRange w;
         foundGapInSelection := foundGapInSelection w |}
      (forEachNodeShallow ib.2 rowCount).

Definition rangeWalkStart (firstInRange : option RowNode) : RangeWalk :=
  {| result := []; lastBlockId := -1;
     inActiveRange := if missing firstInRange then true else false;
     foundGapInSelection := false |}.

Definition getRowNodesInRange (c : RowNodeCache)
    (firstInRange lastInRange : option RowNode) : list RowNode :=
  let w := foldl (visitBlock firstInRange lastInRange (virtualRowCount c))
             (rangeWalkStart firstInRange) (blocksInOrder c) in
  let invalidRange := foundGapInSelection w || inActiveRange w in
  if invalidRange then [] else result w.

(** *** Sequences of operations *)

Inductive CacheOp :=
| OpSetVirtualRowCount (rowCount : Z) (maxRowFound' : option bool)
| OpPageLoaded (event : LoadCompleteEvent)
| OpPostCreateBlock (newBlock : Block)
| OpPurgeCache.

Definition runOp (op : CacheOp) : Action :=
  match op with
  | OpSetVirtualRowCount n m => setVirtualRowCount n m
  | OpPageLoaded ev => onPageLoaded ev
  | OpPostCreateBlock b => postCreateBlock b
  | OpPurgeCache => purgeCache
  end.

Definition runOps (ops : list CacheOp) : Action := forEach ops runOp.

(** Registry operations on their own, for the block count. *)
Inductive RegistryOp :=
| OpSetBlock (id : Z) (block : Block)
| OpDestroyBlock (block : Block).

Definition runRegistryOp (op : RegistryOp) : Action :=
  match op with
  | OpSetBlock id b => setBlock id b
  | OpDestroyBlock b => destroyBlock b
  end.

(** ** Predicates of the specification *)

(** The fields that only the count-setting code writes. *)
Definition sameSettings (c c' : RowNodeCache) : Prop :=
  virtualRowCount c' = virtualRowCount c
  /\ maxRowFound c' = maxRowFound c
  /\ active c' = active c
  /\ cacheParams c' = cacheParams c
  /\ rowRenderer c' = rowRenderer c.

(** The boundary-avoidance property of the provisional count:
    [virtualRowCount % blockSize !== 0] while [maxRowFound] is false. *)
Definition boundaryAvoided (c : RowNodeCache) : Prop :=
  maxRowFound c = false ->
  js_rem_is_zero (virtualRowCount c) (blockSize (cacheParams c)) = false.

(** Operations other than [purgeCache]. *)
Definition notPurge (op : CacheOp) : Prop :=
  match op with
  | OpPurgeCache => False
  | _ => True
  end.

(** [Number.isSafeInteger]: the integers that a JavaScript number holds
    exactly.  On them [+ 1] is exact; at [2 ^ 53] and above
    [virtualRowCount++] can leave the count as it is. *)
Definition isSafeInteger (z : Z) : Prop := Z.abs z < 2 ^ 53.

(** The counts that an operation computes are safe integers, so that the
    source computes them exactly: the count handed to
    [setVirtualRowCount], which [virtualRowCount++] may increment, and for
    a load completion the block number and the candidate end
    [(blockNumber + 1) * blockSize + overflowSize] with its product. *)
Definition countsSafe (p : RowNodeCacheParams) (op : CacheOp) : Prop :=
  match op with
  | OpSetVirtualRowCount rowCount _ => isSafeInteger rowCount
  | OpPageLoaded ev =>
      isSafeInteger (getBlockNumber (page ev))
      /\ isSafeInteger ((getBlockNumber (page ev) + 1) * blockSize p)
      /\ isSafeInteger ((getBlockNumber (page ev) + 1) * blockSize p
                        + overflowSize p)
  | _ => True
  end.

(** Every block is registered under its own number, as [postCreateBlock]
    registers it ([setBlock(newBlock.getBlockNumber(), newBlock)]). *)
Definition registryKeyed (c : RowNodeCache) : Prop :=
  forall id b, blocks c !! id = Some b -> getBlockNumber b = id.

(** A registry operation that meets the registry as its callers do: a
    block is inserted under a number that is free, and a block that is
    destroyed is registered under its number. *)
Definition registryOpFits (op : RegistryOp) (c : RowNodeCache) : Prop :=
  match op with
  | OpSetBlock id _ => blocks c !! id = None
  | OpDestroyBlock b => is_Some (blocks c !! getBlockNumber b)
  end.

Fixpoint registryOpsFit (ops : list RegistryOp) (c : RowNodeCache) : Prop :=
  match ops with
  | [] => True
  | op :: ops' =>
      registryOpFits op c /\ registryOpsFit ops' (runRegistryOp op c).1
  end.

(** What a cache-updated pass owes the blocks of the cache [c] it started
    from, given its outcome [r]: those that start at or past the new count
    are destroyed and gone from the registry, the others are still there. *)
Definition pastCountDestroyed (c : RowNodeCache)
    (r : RowNodeCache * list Effect) : Prop :=
  forall id b,
    blocks c !! id = Some b ->
    (virtualRowCount r.1 <= id * blockSize (cacheParams c) ->
       blocks r.1 !! id = None /\ DestroyBean (objId b) ∈ r.2)
    /\ (id * blockSize (cacheParams c) < virtualRowCount r.1 ->
          blocks r.1 !! id = Some b).

(** The display-index range [[start, end)] of the block meets the rows
    [[first, last]] that the renderer reports as visible. *)
Definition overlapsViewport (c : RowNodeCache) (block : Block) : Prop :=
  exists s e,
    getDisplayIndexStart block = JsNum s
    /\ getDisplayIndexEnd block = JsNum e
    /\ s <= getLastVirtualRenderedRow (rowRenderer c)
    /\ getFirstVirtualRenderedRow (rowRenderer c) < e.

(** The rows of the registered blocks in the order of the ascending walk. *)
Definition rowsOf (rowCount : Z) (l : list (Z * Block)) : list RowNode :=
  l ≫= (fun ib => forEachNodeShallow ib.2 rowCount).

Definition rowsInOrder (c : RowNodeCache) : list RowNode :=
  rowsOf (virtualRowCount c) (blocksInOrder c).

(** The blocks that the second loop of [purgeBlocksIfNeeded] removes from
    the candidates [l] (counted from position [i]) when no candidate is
    held back by the open-node or the viewport guard. *)
Fixpoint purgedFrom (p : RowNodeCacheParams) (i : Z) (l : list Block) : list Block :=
  match l with
  | [] => []
  | x :: l' =>
      (if purgeBecauseBlockEmpty x i || purgeBecauseCacheFull p i
       then [x] else [])
      ++ purgedFrom p (i + 1) l'
  end.

(** The block handed to [postCreateBlock] is a new object: no block
    registered under another number is that object. *)
Definition newBlockIsNew (c : RowNodeCache) (newBlock : Block) : Prop :=
  forall id b,
    blocks c !! id = Some b -> id <> getBlockNumber newBlock ->
    objId b <> objId newBlock.

(** No candidate of the pass is exempt from eviction. *)
Definition noneExempt (c : RowNodeCache) (candidates : list Block) : Prop :=
  forall x, x ∈ candidates ->
    isAnyNodeOpen x (virtualRowCount c) = false
    /\ isBlockCurrentlyDisplayed c x = false.

(** A walk state with another gap counter. *)
Definition withLastBlockId (id : Z) (w : RangeWalk) : RangeWalk :=
  {| result := result w; lastBlockId := id;
     inActiveRange := inActiveRange w;
     foundGapInSelection := foundGapInSelection w |}.

(** Rows that are neither anchor. *)
Definition quiet (firstInRange lastInRange : option RowNode)
    (rows : list RowNode) : Prop :=
  forall r, r ∈ rows ->
    isAnchor r firstInRange || isAnchor r lastInRange = false.

(** Block numbers that go up by one from [i]. *)
Fixpoint consecutiveFrom (i : Z) (ids : list Z) : Prop :=
  match ids with
  | [] => True
  | id :: ids' => id = i /\ consecutiveFrom (i + 1) ids'
  end.

(** The gap counter after the blocks [l], from [d]: the number of the
    last block. *)
Definition lastIdOr (d : Z) (l : list (Z * Block)) : Z :=
  default d (last l.*1).

(** ** Concrete caches *)

(** A block of ten rows per block whose display indexes are its row
    indexes, with no open node. *)
Definition exampleBlock (oid : nat) (number : Z) (st : BlockState)
    (accessed : Z) (rows : list RowNode) : Block :=
  {| objId := oid; getBlockNumber := number; getState := st;
     getLastAccessed := accessed; isAnyNodeOpen := fun _ => false;
     getDisplayIndexStart := JsNum (number * 10);
     getDisplayIndexEnd := JsNum (number * 10 + 10);
     forEachNodeShallow := fun _ => rows |}.

Definition block0 : Block := exampleBlock 100 0 STATE_LOADED 5 [1; 2; 3]%nat.
Definition block1 : Block := exampleBlock 101 1 STATE_LOADED 6 [4; 5; 6]%nat.
Definition block2 : Block := exampleBlock 102 2 STATE_LOADED 7 [7; 8]%nat.
Definition block3 : Block := exampleBlock 103 3 STATE_LOADED 8 [9]%nat.
Definition dirtyBlock1 : Block := exampleBlock 104 1 STATE_DIRTY 3 [].
Definition otherBlock0 : Block := exampleBlock 105 0 STATE_DIRTY 9 [].

Definition exampleParams : RowNodeCacheParams :=
  {| initialRowCount := 1; blockSize := 10; overflowSize := 1;
     maxBlocksInCache := Some 3 |}.

Definition wideOverflowParams : RowNodeCacheParams :=
  {| initialRowCount := 1; blockSize := 10; overflowSize := 10;
     maxBlocksInCache := Some 3 |}.

Definition oneBlockParams : RowNodeCacheParams :=
  {| initialRowCount := 1; blockSize := 10; overflowSize := 1;
     maxBlocksInCache := Some 1 |}.

(** The renderer shows rows far below the example blocks, or the top. *)
Definition farRenderer : RowRenderer :=
  {| getFirstVirtualRenderedRow := 1000; getLastVirtualRenderedRow := 1020 |}.

Definition topRenderer : RowRenderer :=
  {| getFirstVirtualRenderedRow := 0; getLastVirtualRenderedRow := 5 |}.

Definition inactiveCache : RowNodeCache :=
  newRowNodeCache exampleParams farRenderer.

Definition emptyCache : RowNodeCache := (init inactiveCache).1.

Definition threeBlocks : RowNodeCache :=
  (runOps [OpPostCreateBlock block0; OpPostCreateBlock block1;
           OpPostCreateBlock block2] emptyCache).1.

Definition twoLaterBlocks : RowNodeCache :=
  (runOps [OpPostCreateBlock block1; OpPostCreateBlock block2] emptyCache).1.

Definition oneDirtyBlock : RowNodeCache :=
  (runOps [OpPostCreateBlock block0; OpPostCreateBlock dirtyBlock1]
     emptyCache).1.

Definition shownBlock : RowNodeCache :=
  (runOps [OpPostCreateBlock block0]
     (init (newRowNodeCache oneBlockParams topRenderer)).1).1.

Definition loadOfBlock0 (lastRow' : option Z) : LoadCompleteEvent :=
  {| page := block0; lastRow := lastRow'; success := true |}.

(** ** Further operations and predicates *)

(** [destroyAllBlocks], the [@PreDestroy] hook: [destroyBlock] reads
    [block.getBlockNumber()], which throws a [TypeError] when the lookup
    [this.blocks[id]] has turned [undefined]; [None] is that exception. *)
Fixpoint destroyEachBlockId (ids : list Z) (c : RowNodeCache)
    : option (RowNodeCache * list Effect) :=
  match ids with
  | [] => Some (c, [])
  | id :: ids' =>
      match blocks c !! id with
      | None => None
      | Some block =>
          match destroyEachBlockId ids' (destroyBlock block c).1 with
          | None => None
          | Some r => Some (r.1, (destroyBlock block c).2 ++ r.2)
          end
      end
  end.

Definition destroyAllBlocks (c : RowNodeCache)
    : option (RowNodeCache * list Effect) :=
  destroyEachBlockId (getBlockIdsSorted c) c.

(** A callback of a traversal that leaves the cache as it is. *)
Definition readOnly (callback : option Block -> Z -> Action) : Prop :=
  forall block id c, (callback block id c).1 = c.

(** The effects of an operation, weighed and summed. *)
Definition sumEffects (weight : Effect -> Z) (t : list Effect) : Z :=
  foldr (fun e acc => weight e + acc) 0 t.

(** What an effect does to the number of blocks the loader holds. *)
Definition loaderDelta (e : Effect) : Z :=
  match e with
  | LoaderAddBlock _ => 1
  | LoaderRemoveBlock _ => -1
  | _ => 0
  end.

Definition cacheUpdatedEvents (t : list Effect) : Z :=
  sumEffects (fun e => match e with DispatchCacheUpdated => 1 | _ => 0 end) t.

(** [blockCount] is the number of keys of [blocks]. *)
Definition countsKeys (c : RowNodeCache) : Prop :=
  blockCount c = Z.of_nat (size (blocks c)).

(** A block is created under a number that is free, as the row models do
    ([getBlock] first, [createBlock] when it is missing). *)
Definition cacheOpFits (op : CacheOp) (c : RowNodeCache) : Prop :=
  match op with
  | OpPostCreateBlock b => blocks c !! getBlockNumber b = None
  | _ => True
  end.

Fixpoint cacheOpsFit (ops : list CacheOp) (c : RowNodeCache) : Prop :=
  match ops with
  | [] => True
  | op :: ops' => cacheOpFits op c /\ cacheOpsFit ops' (runOp op c).1
  end.

(** Operations that bring no authoritative last row and no explicit
    count: block creations and load completions whose [lastRow] is absent
    or negative. *)
Definition heuristicOnly (op : CacheOp) : Prop :=
  match op with
  | OpPostCreateBlock _ => True
  | OpPageLoaded ev =>
      match lastRow ev with
      | Some l => l < 0
      | None => True
      end
  | _ => False
  end.

(** No cap on the number of blocks is in force: [maxBlocksInCache] is
    not set or is not positive. *)
Definition noBlockCap (p : RowNodeCacheParams) : Prop :=
  match maxBlocksInCache p with
  | Some n => n <= 0
  | None => True
  end.

(** An operation whose change of [blockCount] is what it told the loader. *)
Definition balanced (a : Action) : Prop :=
  forall c, blockCount (a c).1 = blockCount c + sumEffects loaderDelta (a c).2.

(** The three assignments of [setVirtualRowCount], before its
    cache-updated pass. *)
Definition assignVirtualRowCount (rowCount : Z) (maxRowFound' : option bool)
    (c : RowNodeCache) : RowNodeCache :=
  let c1 := with_virtualRowCount rowCount c in
  let c2 := match maxRowFound' with
            | Some m => with_maxRowFound m c1
            | None => c1
            end in
  if negb (maxRowFound c2) then
    if js_rem_is_zero (virtualRowCount c2) (blockSize (cacheParams c2))
    then with_virtualRowCount (virtualRowCount c2 + 1) c2
    else c2
  else c2.

(** The counts that the load completions among [ops] propose:
    [(blockNumber + 1) * blockSize + overflowSize] for every successful
    one. *)
Definition candidateEnds (p : RowNodeCacheParams) (ops : list CacheOp) : list Z :=
  omap (fun op =>
          match op with
          | OpPageLoaded ev =>
              if success ev
              then Some ((getBlockNumber (page ev) + 1) * blockSize p
                         + overflowSize p)
              else None
          | _ => None
          end) ops.

(** What the registry can hold after an operation at most: the blocks it
    held, and the new block after a creation. *)
Definition registryBound (op : CacheOp) (c : RowNodeCache) : gmap Z Block :=
  match op with
  | OpPostCreateBlock b => <[getBlockNumber b := b]> (blocks c)
  | _ => blocks c
  end.

(** More concrete caches. *)
Definition uncappedParams : RowNodeCacheParams :=
  {| initialRowCount := 1; blockSize := 10; overflowSize := 1;
     maxBlocksInCache := None |}.

Definition uncappedCache : RowNodeCache :=
  (runOps [OpPostCreateBlock block0; OpPostCreateBlock dirtyBlock1]
     (init (newRowNodeCache uncappedParams farRenderer)).1).1.

(** A callback that registers a listener on the block it is handed. *)
Definition listenCallback : option Block -> Z -> Action :=
  fun block _ =>
    match block with
    | Some b => emit (AddLoadCompleteListener (objId b))
    | None => skip
    end.

(** *** Block numbers as property names

    [this.blocks[id] = block] names the property by [ToString(id)], and
    [getBlockIdsSorted] reads the block numbers back from the names with
    [parseInt(idStr, 10)].  A string is the sequence of its code units,
    here the code units below 256. *)

(** [ToString] of a safe integer: its decimal digits, after a minus sign
    when it is negative.  Beyond the safe integers the source prints the
    shortest digits that round to the number, and from [1e21] on an
    exponent form; neither is modelled ([None]). *)
Definition js_number_to_string (z : Z) : option string :=
  if Z.abs z <? 2 ^ 53 then Some (pretty z) else None.

(** The value of a decimal digit: the code units [0x30] to [0x39]. *)
Definition digitValue (a : ascii) : option Z :=
  let unit := Z.of_N (N_of_ascii a) in
  if (48 <=? unit) && (unit <=? 57) then Some (unit - 48) else None.

(** [StrWhiteSpaceChar] among the code units below 256: TAB, LF, VT, FF,
    CR, SP and NBSP. *)
Definition isStrWhiteSpaceChar (a : ascii) : bool :=
  match N_of_ascii a with
  | 9 | 10 | 11 | 12 | 13 | 32 | 160 => true
  | _ => false
  end%N.

Fixpoint trimStart (s : string) : string :=
  match s with
  | String a s' => if isStrWhiteSpaceChar a then trimStart s' else s
  | EmptyString => s
  end.

(** The value of the longest prefix of decimal digits, read from the left;
    [acc] is the value of the digits read so far, [None] before the first
    digit. *)
Fixpoint digitsPrefix (s : string) (acc : option Z) : option Z :=
  match s with
  | String a s' =>
      match digitValue a with
      | Some d => digitsPrefix s' (Some (10 * default 0 acc + d))
      | None => acc
      end
  | EmptyString => acc
  end.

(** [parseInt(s, 10)]: leading white space is skipped, a sign is read, and
    the digits up to the first other character are the value; without a
    digit the result is [NaN] ([None]).  The value is the one of the
    digits, which is the number the source returns when it is a safe
    integer. *)
Definition parseInt10 (s : string) : option Z :=
  match trimStart s with
  | String "-" s' => Z.opp <$> digitsPrefix s' None
  | String "+" s' => digitsPrefix s' None
  | s' => digitsPrefix s' None
  end.

(** [Object.keys(this.blocks)] when the object lists the properties of the
    block numbers in the order [order]: [ToString] of each, as
    [this.blocks[id] = block] in [setBlock] named the property. *)
Definition objectKeys (order : list Z) : option (list string) :=
  mapM js_number_to_string order.

(** [keys.map(idStr => parseInt(idStr, 10)).sort((a, b) => a - b)], the
    body of [getBlockIdsSorted] on a listing [keys] of the property names;
    [None] when a name parses to [NaN], on which the comparator gives no
    order. *)
Definition blockIdsOfKeys (keys : list string) : option (list Z) :=
  merge_sort Z.le <$> mapM parseInt10 keys.

(** Every registered block number is a safe integer. *)
Definition safeBlockNumbers (c : RowNodeCache) : Prop :=
  map_Forall (fun id _ => isSafeInteger id) (blocks c).

Definition loadOfBlock1 : LoadCompleteEvent :=
  {| page := block1; lastRow := None; success := true |}.

(** ** Properties *)

(** *** What an operation leaves alone *)

(** Run the sequencing of an operation down to its steps. *)
Ltac step_actions := unfold andThen, modify, emit; cbn [fst snd].

Create HintDb cache_frame.

Lemma sameSettings_refl c : sameSettings c c.
Proof. by repeat split. Qed.

Lemma sameSettings_trans c1 c2 c3 :
  sameSettings c1 c2 -> sameSettings c2 c3 -> sameSettings c1 c3.
Proof.
  intros (?&?&?&?&?) (?&?&?&?&?). repeat split; congruence.
Qed.

Lemma destroyBlock_sameSettings b c : sameSettings c (destroyBlock b c).1.
Proof. by repeat split. Qed.

Lemma setBlock_sameSettings id b c : sameSettings c (setBlock id b c).1.
Proof. by repeat split. Qed.

#[local] Hint Resolve sameSettings_refl destroyBlock_sameSettings
  setBlock_sameSettings : cache_frame.

Lemma forEach_sameSettings {A} (l : list A) (f : A -> Action) :
  (forall x c, sameSettings c (f x c).1) ->
  forall c, sameSettings c (forEach l f c).1.
Proof.
  intros Hf. induction l as [|x l IH]; intros c; simpl.
  - apply sameSettings_refl.
  - eapply sameSettings_trans; [apply Hf | apply IH].
Qed.

Lemma forEachFrom_sameSettings {A} (l : list A) (f : A -> Z -> Action) :
  (forall x i c, sameSettings c (f x i c).1) ->
  forall i c, sameSettings c (forEachFrom i l f c).1.
Proof.
  intros Hf. induction l as [|x l IH]; intros i c; simpl.
  - apply sameSettings_refl.
  - eapply sameSettings_trans; [apply Hf | apply IH].
Qed.

Lemma purgeStep_sameSettings b i c : sameSettings c (purgeStep b i c).1.
Proof.
  unfold purgeStep, removeBlockFromCache, skip.
  repeat case_match; auto with cache_frame.
Qed.

Lemma purgeBlocksIfNeeded_sameSettings b c :
  sameSettings c (purgeBlocksIfNeeded b c).1.
Proof. apply forEachFrom_sameSettings, purgeStep_sameSettings. Qed.

Lemma postCreateBlock_sameSettings b c : sameSettings c (postCreateBlock b c).1.
Proof.
  unfold postCreateBlock; simpl.
  eapply sameSettings_trans; [|apply purgeBlocksIfNeeded_sameSettings].
  by repeat split.
Qed.

Lemma destroyAllBlocksPastVirtualRowCount_sameSettings c :
  sameSettings c (destroyAllBlocksPastVirtualRowCount c).1.
Proof. apply forEach_sameSettings, destroyBlock_sameSettings. Qed.

Lemma onCacheUpdated_sameSettings c : sameSettings c (onCacheUpdated c).1.
Proof.
  unfold onCacheUpdated. destruct (active c); simpl.
  - apply destroyAllBlocksPastVirtualRowCount_sameSettings.
  - apply sameSettings_refl.
Qed.

Lemma onCacheUpdated_inactive c : active c = false -> onCacheUpdated c = (c, []).
Proof. unfold onCacheUpdated. by intros ->. Qed.

Lemma onPageLoaded_active_success ev c :
  active c = true -> success ev = true ->
  (onPageLoaded ev c).1
  = (onCacheUpdated (checkVirtualRowCount (page ev) (lastRow ev) c).1).1.
Proof.
  intros Ha Hs. unfold onPageLoaded, checkBlockToLoad. step_actions. by rewrite Ha, Hs.
Qed.

Lemma onPageLoaded_active_failure ev c :
  active c = true -> success ev = false -> (onPageLoaded ev c).1 = c.
Proof.
  intros Ha Hs. unfold onPageLoaded, checkBlockToLoad. step_actions. by rewrite Ha, Hs.
Qed.

Lemma onPageLoaded_inactive ev c :
  active c = false ->
  onPageLoaded ev c = (c, [LoaderLoadComplete; LoaderCheckBlockToLoad]).
Proof.
  intros Ha. unfold onPageLoaded, checkBlockToLoad. step_actions. by rewrite Ha.
Qed.

(** *** Virtual row count *)

Lemma growVirtualRowCount_max block c :
  maxRowFound c = false ->
  virtualRowCount (growVirtualRowCount block c)
  = Z.max (virtualRowCount c)
      ((getBlockNumber block + 1) * blockSize (cacheParams c)
       + overflowSize (cacheParams c))
  /\ maxRowFound (growVirtualRowCount block c) = false.
Proof.
  intros Hm. unfold growVirtualRowCount. rewrite Hm. simpl.
  destruct (Z.ltb_spec (virtualRowCount c)
              ((getBlockNumber block + 1) * blockSize (cacheParams c)
               + overflowSize (cacheParams c))); simpl; split; auto; lia.
Qed.

Lemma growVirtualRowCount_found block c :
  maxRowFound c = true -> growVirtualRowCount block c = c.
Proof. intros Hm. unfold growVirtualRowCount. by rewrite Hm. Qed.

Lemma checkVirtualRowCount_no_lastRow block lastRow c :
  (lastRow = None \/ exists l, lastRow = Some l /\ l < 0) ->
  (checkVirtualRowCount block lastRow c).1 = growVirtualRowCount block c.
Proof.
  intros [-> | (l & -> & Hl)]; simpl; [done|].
  destruct (Z.leb_spec 0 l); [lia | done].
Qed.

Lemma onPageLoaded_success_count block lr c :
  active c = true ->
  virtualRowCount
    (onPageLoaded {| page := block; lastRow := lr; success := true |} c).1
  = virtualRowCount (checkVirtualRowCount block lr c).1.
Proof.
  intros Hact. rewrite onPageLoaded_active_success by done.
  cbn [page lastRow].
  by destruct (onCacheUpdated_sameSettings
                 (checkVirtualRowCount block lr c).1) as (-> & _).
Qed.

(** C3: a load completion without an authoritative last row (absent or
    negative) sets [virtualRowCount], while [maxRowFound] is false, to the
    maximum of its old value and
    [(blockNumber + 1) * blockSize + overflowSize], so it never decreases;
    once [maxRowFound] is true the cache is left as it is.  The count that
    [onPageLoaded] leaves for a successful load on an active cache is the
    one [checkVirtualRowCount] computed. *)
Theorem checkVirtualRowCount_heuristic_growth block lastRow c :
  (lastRow = None \/ exists l, lastRow = Some l /\ l < 0) ->
  let c' := (checkVirtualRowCount block lastRow c).1 in
  let candidateEnd :=
    (getBlockNumber block + 1) * blockSize (cacheParams c)
    + overflowSize (cacheParams c) in
  (maxRowFound c = false ->
     virtualRowCount c' = Z.max (virtualRowCount c) candidateEnd
     /\ virtualRowCount c <= virtualRowCount c'
     /\ maxRowFound c' = false)
  /\ (maxRowFound c = true -> c' = c)
  /\ (active c = true ->
      virtualRowCount
        (onPageLoaded {| page := block; lastRow := lastRow; success := true |} c).1
      = virtualRowCount c').
Proof.
  intros Hlast c' candidateEnd. subst c'.
  rewrite (checkVirtualRowCount_no_lastRow _ _ _ Hlast).
  split; [|split].
  - intros Hm. destruct (growVirtualRowCount_max block c Hm) as [-> ->].
    repeat split; lia.
  - apply growVirtualRowCount_found.
  - intros Hact. rewrite onPageLoaded_success_count by done.
    by rewrite (checkVirtualRowCount_no_lastRow _ _ _ Hlast).
Qed.

(** C10: [purgeCache] always leaves [maxRowFound] false; it leaves
    [virtualRowCount] as it was when that is not zero and sets it to
    [initialRowCount] when it is exactly zero, with no adjustment of the
    resulting count. *)
Theorem purgeCache_resets_maxRowFound_only c :
  maxRowFound (purgeCache c).1 = false
  /\ virtualRowCount (purgeCache c).1
     = (if virtualRowCount c =? 0
        then initialRowCount (cacheParams c)
        else virtualRowCount c).
Proof.
  unfold purgeCache. simpl.
  set (c1 := (forEachBlockInOrder
                (fun block _ => removeBlockFromCache block) c).1).
  assert (Hs : sameSettings c c1).
  { apply forEach_sameSettings. intros id c0.
    destruct (blocks c0 !! id); simpl;
      [apply destroyBlock_sameSettings | apply sameSettings_refl]. }
  destruct Hs as (Hv & _ & _ & Hp & _).
  match goal with
  | |- context [onCacheUpdated ?x] =>
      destruct (onCacheUpdated_sameSettings x) as (-> & -> & _)
  end.
  rewrite Hv, Hp. by destruct (virtualRowCount c =? 0).
Qed.

(** *** The inactive cache *)

Lemma forEach_destroyBlock_trace (l : list Block) c :
  Forall (fun e => e <> LoaderLoadComplete) (forEach l destroyBlock c).2.
Proof.
  revert c. induction l as [|b l IH]; intros c; simpl; [constructor|].
  repeat (constructor; [done|]). apply IH.
Qed.

Lemma onCacheUpdated_trace c :
  Forall (fun e => e <> LoaderLoadComplete) (onCacheUpdated c).2.
Proof.
  unfold onCacheUpdated. destruct (active c); simpl; [|constructor].
  apply Forall_app; split; [apply forEach_destroyBlock_trace|].
  by repeat constructor.
Qed.

(** C6: on an inactive cache a cache-updated pass does nothing (the cache
    is unchanged, nothing is destroyed and no event is dispatched), and a
    load-completion notification leaves the cache as it is while the
    loader's [loadComplete] is still called; for every cache, active or
    not, [onPageLoaded] calls [loadComplete] first and exactly once. *)
Theorem inactive_cache_ignores_notifications ev c :
  active c = false ->
  onCacheUpdated c = (c, [])
  /\ (onPageLoaded ev c).1 = c
  /\ (onPageLoaded ev c).2 = [LoaderLoadComplete; LoaderCheckBlockToLoad]
  /\ (forall c0, exists rest,
        (onPageLoaded ev c0).2 = LoaderLoadComplete :: rest
        /\ Forall (fun e => e <> LoaderLoadComplete) rest).
Proof.
  intros Ha. split; [by apply onCacheUpdated_inactive|].
  rewrite (onPageLoaded_inactive ev c Ha). split; [done|]. split; [done|].
  intros c0. eexists. split.
  - unfold onPageLoaded, checkBlockToLoad, andThen, emit. cbn [fst snd].
    reflexivity.
  - constructor; [done|]. destruct (active c0); simpl; [|constructor].
    constructor; [done|]. destruct (success ev); simpl; [|constructor].
    apply onCacheUpdated_trace.
Qed.

(** *** Boundary avoidance *)

Lemma rem_succ_nonzero x b : 2 <= b -> Z.rem x b = 0 -> Z.rem (x + 1) b <> 0.
Proof.
  intros Hb Hx Hx1.
  apply Z.rem_divide in Hx; [|lia]. apply Z.rem_divide in Hx1; [|lia].
  destruct Hx as [k Hk], Hx1 as [k' Hk'].
  assert (H1 : 1 = (k' - k) * b) by lia.
  destruct (Z.le_gt_cases (k' - k) 0); nia.
Qed.

Lemma rem_block_end_nonzero n b o :
  b <> 0 -> Z.rem o b <> 0 -> Z.rem (n * b + o) b <> 0.
Proof.
  intros Hb Ho H. apply Ho.
  apply Z.rem_divide in H; [|done]. apply Z.rem_divide; [done|].
  destruct H as [k Hk]. exists (k - n). lia.
Qed.

Lemma boundaryAvoided_sameSettings c c' :
  sameSettings c c' -> boundaryAvoided c -> boundaryAvoided c'.
Proof.
  intros (Hv & Hm & _ & Hp & _) H. unfold boundaryAvoided.
  rewrite Hv, Hm, Hp. exact H.
Qed.

Lemma setVirtualRowCount_boundaryAvoided rowCount m c :
  2 <= blockSize (cacheParams c) ->
  boundaryAvoided (setVirtualRowCount rowCount m c).1.
Proof.
  intros Hb. unfold setVirtualRowCount, andThen, modify. cbn [fst snd].
  eapply boundaryAvoided_sameSettings; [apply onCacheUpdated_sameSettings|].
  unfold boundaryAvoided.
  set (c1 := match m with
             | Some m0 => with_maxRowFound m0 (with_virtualRowCount rowCount c)
             | None => with_virtualRowCount rowCount c
             end).
  assert (Hp : cacheParams c1 = cacheParams c) by (subst c1; by destruct m).
  destruct (maxRowFound c1) eqn:Hm1; simpl; [by rewrite Hm1|].
  destruct (js_rem_is_zero (virtualRowCount c1) (blockSize (cacheParams c1)))
    eqn:Hz; [|done].
  intros _. simpl. unfold js_rem_is_zero in *. rewrite Hp in *.
  destruct (Z.eqb_spec (blockSize (cacheParams c)) 0); [lia|].
  apply Z.eqb_eq in Hz. apply Z.eqb_neq. by apply rem_succ_nonzero.
Qed.

Lemma growVirtualRowCount_boundaryAvoided block c :
  blockSize (cacheParams c) <> 0 ->
  Z.rem (overflowSize (cacheParams c)) (blockSize (cacheParams c)) <> 0 ->
  boundaryAvoided c -> boundaryAvoided (growVirtualRowCount block c).
Proof.
  intros Hb Ho H. unfold growVirtualRowCount.
  destruct (maxRowFound c) eqn:Hm; simpl; [done|].
  case_match; [|done].
  intros _. simpl. unfold js_rem_is_zero.
  destruct (Z.eqb_spec (blockSize (cacheParams c)) 0); [done|].
  apply Z.eqb_neq. by apply rem_block_end_nonzero.
Qed.

Lemma checkVirtualRowCount_boundaryAvoided block lastRow c :
  blockSize (cacheParams c) <> 0 ->
  Z.rem (overflowSize (cacheParams c)) (blockSize (cacheParams c)) <> 0 ->
  boundaryAvoided c -> boundaryAvoided (checkVirtualRowCount block lastRow c).1.
Proof.
  intros Hb Ho H. unfold checkVirtualRowCount, modify. cbn [fst].
  destruct lastRow as [l|]; [destruct (0 <=? l)|];
    auto using growVirtualRowCount_boundaryAvoided.
  by intros ?.
Qed.

Lemma checkVirtualRowCount_cacheParams block lastRow c :
  cacheParams (checkVirtualRowCount block lastRow c).1 = cacheParams c.
Proof.
  unfold checkVirtualRowCount, modify, growVirtualRowCount. cbn [fst].
  by repeat case_match.
Qed.

Lemma setVirtualRowCount_cacheParams rowCount m c :
  cacheParams (setVirtualRowCount rowCount m c).1 = cacheParams c.
Proof.
  unfold setVirtualRowCount, andThen, modify. cbn [fst snd].
  match goal with
  | |- context [onCacheUpdated ?x] =>
      destruct (onCacheUpdated_sameSettings x) as (_ & _ & _ & -> & _)
  end.
  by repeat case_match.
Qed.

Lemma onPageLoaded_cases ev c :
  (onPageLoaded ev c).1 = c
  \/ (onPageLoaded ev c).1
     = (onCacheUpdated (checkVirtualRowCount (page ev) (lastRow ev) c).1).1.
Proof.
  destruct (active c) eqn:Ha; [|left; by rewrite onPageLoaded_inactive].
  destruct (success ev) eqn:Hs.
  - right. by apply onPageLoaded_active_success.
  - left. by apply onPageLoaded_active_failure.
Qed.

Lemma runOp_notPurge_boundaryAvoided op c :
  notPurge op ->
  2 <= blockSize (cacheParams c) ->
  Z.rem (overflowSize (cacheParams c)) (blockSize (cacheParams c)) <> 0 ->
  boundaryAvoided c ->
  boundaryAvoided (runOp op c).1 /\ cacheParams (runOp op c).1 = cacheParams c.
Proof.
  intros Hop Hb Ho H. destruct op as [n m|ev|b|]; cbn [runOp notPurge] in *;
    [| | |done].
  - split; [by apply setVirtualRowCount_boundaryAvoided
           |apply setVirtualRowCount_cacheParams].
  - destruct (onPageLoaded_cases ev c) as [-> | ->]; [done|].
    pose proof (onCacheUpdated_sameSettings
                  (checkVirtualRowCount (page ev) (lastRow ev) c).1) as Hs.
    split.
    + eapply boundaryAvoided_sameSettings; [exact Hs|].
      apply checkVirtualRowCount_boundaryAvoided; [lia|done|done].
    + destruct Hs as (_ & _ & _ & -> & _).
      apply checkVirtualRowCount_cacheParams.
  - pose proof (postCreateBlock_sameSettings b c) as Hs.
    split; [|by destruct Hs as (_ & _ & _ & -> & _)].
    eapply boundaryAvoided_sameSettings; [exact Hs|done].
Qed.

(** C1 (amended): with a block size of at least 2, [setVirtualRowCount]
    called with a count that is a safe integer (below [2 ^ 53] in
    magnitude, where [virtualRowCount++] is exact) leaves a count that is
    no exact multiple of [blockSize] while [maxRowFound] is false,
    whatever the cache was before; and when in addition [overflowSize] is
    no multiple of [blockSize], every sequence of [setVirtualRowCount],
    load completions and block creations whose counts are safe integers
    keeps that property.  Neither the heuristic growth nor [purgeCache]
    adjusts the count. *)
Theorem boundary_avoided_by_setVirtualRowCount c :
  2 <= blockSize (cacheParams c) ->
  (forall rowCount m,
      isSafeInteger rowCount ->
      boundaryAvoided (setVirtualRowCount rowCount m c).1)
  /\ (Z.rem (overflowSize (cacheParams c)) (blockSize (cacheParams c)) <> 0 ->
      forall ops,
        Forall notPurge ops ->
        Forall (countsSafe (cacheParams c)) ops ->
        boundaryAvoided c ->
        boundaryAvoided (runOps ops c).1).
Proof.
  intros Hb. split.
  - intros rowCount m _. by apply setVirtualRowCount_boundaryAvoided.
  - intros Ho ops Hops _. revert c Hb Ho.
    induction Hops as [|op ops Hop Hrest IH]; intros c Hb Ho H; [done|].
    destruct (runOp_notPurge_boundaryAvoided op c Hop Hb Ho H) as [H1 Hp].
    unfold runOps. simpl. apply IH; rewrite ?Hp; done.
Qed.

(** *** The registry in ascending order *)

Lemma getBlockIdsSorted_Permutation c :
  getBlockIdsSorted c ≡ₚ (map_to_list (blocks c)).*1.
Proof. apply merge_sort_Permutation. Qed.

Lemma elem_of_getBlockIdsSorted c id :
  id ∈ getBlockIdsSorted c <-> is_Some (blocks c !! id).
Proof.
  rewrite getBlockIdsSorted_Permutation, list_elem_of_fmap. split.
  - intros ([k b] & -> & H). apply elem_of_map_to_list in H. by exists b.
  - intros [b H]. exists (id, b). split; [done|]. by apply elem_of_map_to_list.
Qed.

Lemma NoDup_getBlockIdsSorted c : NoDup (getBlockIdsSorted c).
Proof.
  rewrite getBlockIdsSorted_Permutation. apply NoDup_fst_map_to_list.
Qed.

Lemma StronglySorted_getBlockIdsSorted c :
  StronglySorted Z.le (getBlockIdsSorted c).
Proof. apply (StronglySorted_merge_sort Z.le). Qed.

Lemma omap_lookup_fst (m : gmap Z Block) (ids : list Z) :
  (forall id, id ∈ ids -> is_Some (m !! id)) ->
  (omap (fun id => (fun b => (id, b)) <$> m !! id) ids).*1 = ids.
Proof.
  induction ids as [|id ids IH]; intros H; [done|].
  destruct (H id) as [b Hb]; [left|].
  simpl. rewrite Hb. simpl. f_equal. apply IH.
  intros id' Hid'. apply H. by right.
Qed.

Lemma blocksInOrder_fst c : (blocksInOrder c).*1 = getBlockIdsSorted c.
Proof.
  apply omap_lookup_fst. intros id. apply elem_of_getBlockIdsSorted.
Qed.

Lemma elem_of_blocksInOrder c id b :
  (id, b) ∈ blocksInOrder c <-> blocks c !! id = Some b.
Proof.
  unfold blocksInOrder. rewrite list_elem_of_omap. split.
  - intros (id' & _ & H). destruct (blocks c !! id') eqn:E; simpl in H; [|done].
    by inversion H; subst.
  - intros H. exists id. split; [|by rewrite H].
    apply elem_of_getBlockIdsSorted. by exists b.
Qed.

Lemma length_blocksInOrder c : length (blocksInOrder c) = size (blocks c).
Proof.
  rewrite <- (length_fmap fst), blocksInOrder_fst.
  rewrite getBlockIdsSorted_Permutation, length_fmap.
  apply length_map_to_list.
Qed.

(** *** Block count *)

Lemma setBlock_blocks id b c :
  blocks (setBlock id b c).1 = <[id := b]> (blocks c).
Proof. done. Qed.

Lemma setBlock_blockCount id b c :
  blockCount (setBlock id b c).1 = blockCount c + 1.
Proof. done. Qed.

Lemma destroyBlock_blocks b c :
  blocks (destroyBlock b c).1 = delete (getBlockNumber b) (blocks c).
Proof. done. Qed.

Lemma destroyBlock_blockCount b c :
  blockCount (destroyBlock b c).1 = blockCount c - 1.
Proof. done. Qed.

Lemma runRegistryOp_fits op c :
  registryOpFits op c ->
  blockCount (runRegistryOp op c).1 - Z.of_nat (size (blocks (runRegistryOp op c).1))
  = blockCount c - Z.of_nat (size (blocks c)).
Proof.
  destruct op as [id b|b]; cbn [runRegistryOp registryOpFits].
  - intros Hnone. rewrite setBlock_blocks, setBlock_blockCount.
    rewrite map_size_insert_None by done. lia.
  - intros Hsome. rewrite destroyBlock_blocks, destroyBlock_blockCount.
    rewrite (map_size_delete_Some _ _ Hsome).
    pose proof (map_size_ne_0_lookup_2 _ _ Hsome). lia.
Qed.

(** C7 (amended): when every [setBlock] uses a block number that is not
    registered and every [destroyBlock] a block whose number is
    registered, [blockCount] equals the number of keys of [blocks] after
    every sequence of insertions and removals from the empty cache; a
    [setBlock] under a number that is already present replaces the entry
    and still increments [blockCount], which then exceeds the number of
    keys by one more. *)
Theorem blockCount_counts_keys_of_fitting_ops p r ops :
  registryOpsFit ops (newRowNodeCache p r) ->
  blockCount (forEach ops runRegistryOp (newRowNodeCache p r)).1
  = Z.of_nat (size (blocks (forEach ops runRegistryOp (newRowNodeCache p r)).1))
  /\ (forall c id b,
        is_Some (blocks c !! id) ->
        blockCount (setBlock id b c).1 - Z.of_nat (size (blocks (setBlock id b c).1))
        = blockCount c - Z.of_nat (size (blocks c)) + 1).
Proof.
  intros Hfit. split.
  - assert (Hgen : forall c,
               registryOpsFit ops c ->
               blockCount (forEach ops runRegistryOp c).1
               - Z.of_nat (size (blocks (forEach ops runRegistryOp c).1))
               = blockCount c - Z.of_nat (size (blocks c))).
    { clear Hfit. induction ops as [|op ops IH]; intros c Hc; [done|].
      destruct Hc as [Hop Hrest]. cbn [forEach]. unfold andThen. cbn [fst].
      rewrite (IH _ Hrest). by apply runRegistryOp_fits. }
    specialize (Hgen _ Hfit). cbn [newRowNodeCache blockCount blocks] in Hgen.
    rewrite map_size_empty in Hgen. lia.
  - intros c id b Hsome. rewrite setBlock_blocks, setBlock_blockCount.
    rewrite (map_size_insert_Some _ _ _ Hsome). lia.
Qed.

(** *** Blocks past the virtual row count *)

Lemma forEach_destroyBlock_blocks (l : list Block) c k :
  blocks (forEach l destroyBlock c).1 !! k
  = if decide (k ∈ getBlockNumber <$> l) then None else blocks c !! k.
Proof.
  revert c. induction l as [|b l IH]; intros c.
  - cbn [forEach]. unfold skip. cbn [fst]. rewrite fmap_nil.
    rewrite decide_False; [done | apply not_elem_of_nil].
  - cbn [forEach]. unfold andThen at 1. cbn [fst]. rewrite IH.
    rewrite destroyBlock_blocks, fmap_cons.
    destruct (decide (k ∈ getBlockNumber <$> l)) as [Hin|Hnin].
    + rewrite decide_True; [done | by right].
    + destruct (decide (k = getBlockNumber b)) as [->|Hne].
      * rewrite decide_True by left. apply lookup_delete_eq.
      * rewrite decide_False.
        -- by apply lookup_delete_ne.
        -- intros H. apply elem_of_cons in H as [?|?]; done.
Qed.

Lemma forEach_destroyBlock_destroys (l : list Block) c b :
  b ∈ l -> DestroyBean (objId b) ∈ (forEach l destroyBlock c).2.
Proof.
  revert c. induction l as [|x l IH]; intros c Hb.
  - by apply elem_of_nil in Hb.
  - cbn [forEach]. unfold andThen at 1. cbn [snd].
    apply elem_of_app. apply elem_of_cons in Hb as [->|Hb].
    + left. simpl. by left.
    + right. by apply IH.
Qed.

Lemma elem_of_blocksToDestroy c b :
  b ∈ blocksToDestroy c
  <-> exists id, blocks c !! id = Some b
                 /\ virtualRowCount c <= id * blockSize (cacheParams c).
Proof.
  unfold blocksToDestroy. rewrite list_elem_of_fmap. split.
  - intros ([id b'] & -> & H). apply list_elem_of_filter in H as [Hp Hin].
    exists id. split; [by apply elem_of_blocksInOrder | done].
  - intros (id & Hb & Hp). exists (id, b). split; [done|].
    apply list_elem_of_filter. split; [done | by apply elem_of_blocksInOrder].
Qed.

Lemma onCacheUpdated_pastCountDestroyed c :
  registryKeyed c -> active c = true ->
  pastCountDestroyed c (onCacheUpdated c).
Proof.
  intros Hkeyed Ha id b Hb. unfold onCacheUpdated. rewrite Ha.
  unfold andThen, emit. cbn [fst snd].
  unfold destroyAllBlocksPastVirtualRowCount.
  pose proof (destroyAllBlocksPastVirtualRowCount_sameSettings c) as (Hv & _).
  unfold destroyAllBlocksPastVirtualRowCount in Hv. rewrite Hv.
  rewrite forEach_destroyBlock_blocks. split.
  - intros Hpast.
    assert (Hin : b ∈ blocksToDestroy c).
    { apply elem_of_blocksToDestroy. by exists id. }
    split.
    + rewrite decide_True; [done|].
      apply list_elem_of_fmap. exists b. split; [|done].
      symmetry. by apply Hkeyed.
    + apply elem_of_app. left. by apply forEach_destroyBlock_destroys.
  - intros Hbelow. rewrite decide_False; [done|].
    intros H. apply list_elem_of_fmap in H as (b' & Hnum & Hin).
    apply elem_of_blocksToDestroy in Hin as (id' & Hb' & Hpast).
    apply Hkeyed in Hb'. lia.
Qed.

Lemma setVirtualRowCount_as_onCacheUpdated rowCount m c :
  exists c2,
    blocks c2 = blocks c /\ active c2 = active c
    /\ cacheParams c2 = cacheParams c
    /\ (setVirtualRowCount rowCount m c).1 = (onCacheUpdated c2).1
    /\ (setVirtualRowCount rowCount m c).2 = (onCacheUpdated c2).2.
Proof.
  unfold setVirtualRowCount, andThen, modify. cbn [fst snd app].
  match goal with
  | |- context [(onCacheUpdated ?x).1 = _] => exists x
  end.
  repeat split; by repeat case_match.
Qed.

Lemma pastCountDestroyed_transfer c c2 r :
  blocks c2 = blocks c -> cacheParams c2 = cacheParams c ->
  pastCountDestroyed c2 r -> pastCountDestroyed c r.
Proof.
  intros Hb Hp H id b Hid. rewrite <- Hb in Hid. rewrite <- Hp. by apply H.
Qed.

Lemma pastCountDestroyed_more_effects c r pre :
  pastCountDestroyed c r -> pastCountDestroyed c (r.1, pre ++ r.2).
Proof.
  intros H id b Hid. destruct (H id b Hid) as [H1 H2]. cbn [fst snd].
  split; [|done]. intros Hpast. destruct (H1 Hpast). split; [done|].
  apply elem_of_app. by right.
Qed.

(** C8: on an active cache whose blocks are registered under their own
    numbers, [setVirtualRowCount] and a successful load completion with an
    authoritative last row both end in a cache-updated pass after which
    every block whose start row [id * blockSize] is at or past the new
    [virtualRowCount] has been destroyed and is gone from the registry,
    and every block whose start row is below it is still registered. *)
Theorem count_change_destroys_blocks_past_count c :
  registryKeyed c -> active c = true ->
  (forall rowCount m, pastCountDestroyed c (setVirtualRowCount rowCount m c))
  /\ (forall ev l,
        success ev = true -> lastRow ev = Some l -> 0 <= l ->
        virtualRowCount (onPageLoaded ev c).1 = l
        /\ pastCountDestroyed c (onPageLoaded ev c)).
Proof.
  intros Hkeyed Ha. split.
  - intros rowCount m.
    destruct (setVirtualRowCount_as_onCacheUpdated rowCount m c)
      as (c2 & Hb & Ha2 & Hp & E1 & E2).
    assert (H2 : pastCountDestroyed c2 (onCacheUpdated c2)).
    { apply onCacheUpdated_pastCountDestroyed; [|congruence].
      intros id b. rewrite Hb. apply Hkeyed. }
    apply (pastCountDestroyed_transfer c c2); [done..|].
    intros id b Hid. rewrite E1, E2. by apply H2.
  - intros ev l Hs Hl Hl0.
    set (c2 := (checkVirtualRowCount (page ev) (lastRow ev) c).1).
    assert (Hc2 : c2 = with_maxRowFound true (with_virtualRowCount l c)).
    { subst c2. unfold checkVirtualRowCount, modify. cbn [fst]. rewrite Hl.
      destruct (Z.leb_spec 0 l); [done | lia]. }
    assert (E1 : (onPageLoaded ev c).1 = (onCacheUpdated c2).1)
      by by apply onPageLoaded_active_success.
    assert (E2 : (onPageLoaded ev c).2
                 = [LoaderLoadComplete; LoaderCheckBlockToLoad; LoggerLog]
                   ++ (onCacheUpdated c2).2).
    { unfold onPageLoaded, checkBlockToLoad, andThen, emit. cbn [fst snd].
      rewrite Ha, Hs. reflexivity. }
    split.
    + rewrite E1. destruct (onCacheUpdated_sameSettings c2) as (-> & _).
      by rewrite Hc2.
    + assert (H2 : pastCountDestroyed c2 (onCacheUpdated c2)).
      { apply onCacheUpdated_pastCountDestroyed; rewrite Hc2; done. }
      apply (pastCountDestroyed_transfer c c2); [by rewrite Hc2..|].
      intros id b Hid. rewrite E1, E2.
      by apply (pastCountDestroyed_more_effects c2 (onCacheUpdated c2)
                  [LoaderLoadComplete; LoaderCheckBlockToLoad; LoggerLog]
                  H2 id b).
Qed.

(** *** Range selection from the top *)

Lemma foldl_visitRow_frame first last w rows :
  lastBlockId (foldl (visitRow first last) w rows) = lastBlockId w
  /\ foundGapInSelection (foldl (visitRow first last) w rows)
     = foundGapInSelection w.
Proof.
  revert w. induction rows as [|r rows IH]; intros w; [done|].
  simpl. destruct (IH (visitRow first last w r)) as [-> ->]. done.
Qed.

Lemma visitBlock_gap_stays first last rowCount w ib :
  foundGapInSelection w = true -> visitBlock first last rowCount w ib = w.
Proof. intros H. unfold visitBlock. by rewrite H. Qed.

Lemma foldl_visitBlock_gap_stays first last rowCount w l :
  foundGapInSelection w = true ->
  foldl (visitBlock first last rowCount) w l = w.
Proof.
  revert w. induction l as [|ib l IH]; intros w H; [done|].
  simpl. rewrite visitBlock_gap_stays by done. by apply IH.
Qed.

Lemma getRowNodesInRange_gap c first last :
  foundGapInSelection
    (foldl (visitBlock first last (virtualRowCount c))
       (rangeWalkStart first) (blocksInOrder c)) = true ->
  getRowNodesInRange c first last = [].
Proof. intros H. unfold getRowNodesInRange. by rewrite H. Qed.

Lemma getBlockIdsSorted_head c m :
  is_Some (blocks c !! m) ->
  (forall k, is_Some (blocks c !! k) -> m <= k) ->
  exists rest, getBlockIdsSorted c = m :: rest.
Proof.
  intros Hm Hmin.
  pose proof (StronglySorted_getBlockIdsSorted c) as Hsorted.
  apply elem_of_getBlockIdsSorted in Hm as Hin.
  destruct (getBlockIdsSorted c) as [|h rest] eqn:E.
  - by apply elem_of_nil in Hin.
  - exists rest. f_equal.
    assert (Hh : m <= h).
    { apply Hmin, elem_of_getBlockIdsSorted. rewrite E. left. }
    apply elem_of_cons in Hin as [->|Hin]; [done|].
    apply StronglySorted_inv in Hsorted as [_ Hall].
    rewrite Forall_forall in Hall. specialize (Hall m Hin). lia.
Qed.

(** C9: with [firstInRange] absent the walk starts inside the active
    range with the gap counter at [-1], so whenever the smallest
    registered block number is not [0] the result is empty, whatever
    [lastInRange] is and however contiguous the registered blocks are. *)
Theorem getRowNodesInRange_from_top_needs_block_zero c lastInRange m :
  is_Some (blocks c !! m) ->
  (forall k, is_Some (blocks c !! k) -> m <= k) ->
  m <> 0 ->
  getRowNodesInRange c None lastInRange = [].
Proof.
  intros Hm Hmin Hne.
  destruct (getBlockIdsSorted_head c m Hm Hmin) as [rest E].
  destruct Hm as [b Hb].
  apply getRowNodesInRange_gap.
  unfold blocksInOrder. rewrite E. cbn [omap list_omap]. rewrite Hb.
  cbn [fmap option_fmap option_map foldl].
  assert (Hv : visitBlock None lastInRange (virtualRowCount c)
                 (rangeWalkStart None) (m, b)
               = {| result := []; lastBlockId := -1; inActiveRange := true;
                    foundGapInSelection := true |}).
  { unfold visitBlock, rangeWalkStart. cbn.
    destruct (Z.eqb_spec (-1 + 1) m); [lia | done]. }
  rewrite Hv. by rewrite foldl_visitBlock_gap_stays.
Qed.

(** *** Eviction guards *)

Lemma overlapsViewport_displayed c b :
  overlapsViewport c b -> isBlockCurrentlyDisplayed c b = true.
Proof.
  intros (s & e & Hs & He & Hlast & Hfirst).
  unfold isBlockCurrentlyDisplayed. rewrite Hs, He. cbn.
  apply andb_true_iff. split; apply negb_true_iff; apply Z.ltb_ge; lia.
Qed.

Lemma isBlockCurrentlyDisplayed_rowRenderer c c' b :
  rowRenderer c' = rowRenderer c ->
  isBlockCurrentlyDisplayed c' b = isBlockCurrentlyDisplayed c b.
Proof. intros H. unfold isBlockCurrentlyDisplayed. by rewrite H. Qed.

Lemma purgeStep_cases x i c :
  (purgeStep x i c = skip c)
  \/ (purgeStep x i c = destroyBlock x c
      /\ (purgeBecauseBlockEmpty x i
          || purgeBecauseCacheFull (cacheParams c) i) = true
      /\ isAnyNodeOpen x (virtualRowCount c) = false
      /\ isBlockCurrentlyDisplayed c x = false).
Proof.
  unfold purgeStep, removeBlockFromCache.
  destruct (purgeBecauseBlockEmpty x i
            || purgeBecauseCacheFull (cacheParams c) i); [|by left].
  destruct (isAnyNodeOpen x (virtualRowCount c)); [by left|].
  destruct (isBlockCurrentlyDisplayed c x); [by left | by right].
Qed.

Lemma forEachFrom_purgeStep_keeps (l : list Block) i c k :
  (forall x, x ∈ l -> getBlockNumber x = k ->
     isAnyNodeOpen x (virtualRowCount c) = true
     \/ isBlockCurrentlyDisplayed c x = true) ->
  blocks (forEachFrom i l purgeStep c).1 !! k = blocks c !! k.
Proof.
  revert i c. induction l as [|x l IH]; intros i c Hguard; [done|].
  cbn [forEachFrom]. unfold andThen at 1. cbn [fst].
  assert (Hl : forall c', sameSettings c c' ->
             blocks (forEachFrom (i + 1) l purgeStep c').1 !! k
             = blocks c' !! k).
  { intros c' (Hv & _ & _ & _ & Hr). apply IH. intros y Hy Hk.
    rewrite Hv, (isBlockCurrentlyDisplayed_rowRenderer c c') by done.
    apply Hguard; [by right | done]. }
  rewrite Hl by apply purgeStep_sameSettings.
  destruct (purgeStep_cases x i c) as [-> | (-> & _ & Hopen & Hshown)];
    [done|].
  rewrite destroyBlock_blocks. apply lookup_delete_ne. intros Hk.
  destruct (Hguard x) as [H|H]; [by left | done | congruence..].
Qed.

Lemma elem_of_blocksForPurging blockToExclude c x :
  x ∈ blocksForPurging blockToExclude c
  <-> objId x <> objId blockToExclude
      /\ exists id, blocks c !! id = Some x.
Proof.
  unfold blocksForPurging. rewrite list_elem_of_filter, list_elem_of_fmap.
  split.
  - intros (Hne & [id x'] & -> & Hin). split; [done|].
    exists id. by apply elem_of_blocksInOrder.
  - intros (Hne & id & Hx). split; [done|]. exists (id, x).
    split; [done | by apply elem_of_blocksInOrder].
Qed.

Lemma insertByLastAccessed_Permutation x l :
  insertByLastAccessed x l ≡ₚ x :: l.
Proof.
  induction l as [|y l IH]; [done|]. simpl.
  destruct (getLastAccessed y - getLastAccessed x <=? 0); [done|].
  rewrite IH. apply perm_swap.
Qed.

Lemma sortByLastAccessed_Permutation l : sortByLastAccessed l ≡ₚ l.
Proof.
  induction l as [|x l IH]; [done|]. unfold sortByLastAccessed in *. simpl.
  by rewrite insertByLastAccessed_Permutation, IH.
Qed.

Lemma setBlock_registryKeyed newBlock c :
  registryKeyed c ->
  registryKeyed (setBlock (getBlockNumber newBlock) newBlock c).1.
Proof.
  intros Hk id b. rewrite setBlock_blocks.
  destruct (decide (id = getBlockNumber newBlock)) as [->|Hne].
  - rewrite lookup_insert_eq. by intros [= <-].
  - rewrite lookup_insert_ne by done. apply Hk.
Qed.

Lemma purgeBlocksIfNeeded_keeps blockToExclude c id b :
  registryKeyed c ->
  blocks c !! id = Some b ->
  isAnyNodeOpen b (virtualRowCount c) = true
  \/ isBlockCurrentlyDisplayed c b = true ->
  blocks (purgeBlocksIfNeeded blockToExclude c).1 !! id = Some b.
Proof.
  intros Hkeyed Hb Hguard. unfold purgeBlocksIfNeeded.
  rewrite forEachFrom_purgeStep_keeps; [done|].
  intros x Hx Hnum. rewrite sortByLastAccessed_Permutation in Hx.
  apply elem_of_blocksForPurging in Hx as (_ & id' & Hx').
  assert (id' = id) as -> by (apply Hkeyed in Hx'; congruence).
  by assert (x = b) as -> by congruence.
Qed.

(** C2: the eviction pass that follows the insertion of a block into a
    registry whose blocks are registered under their own numbers never
    removes a block that reports an open node for the current
    [virtualRowCount] or whose display-index range meets the visible rows,
    whatever [maxBlocksInCache], the recency order, the load states and
    the excluded block are; so [postCreateBlock] keeps every such block. *)
Theorem eviction_spares_open_and_displayed_blocks c newBlock id b :
  registryKeyed c ->
  let c1 := (setBlock (getBlockNumber newBlock) newBlock c).1 in
  blocks c1 !! id = Some b ->
  isAnyNodeOpen b (virtualRowCount c1) = true \/ overlapsViewport c1 b ->
  (forall blockToExclude,
     blocks (purgeBlocksIfNeeded blockToExclude c1).1 !! id = Some b)
  /\ blocks (postCreateBlock newBlock c).1 !! id = Some b.
Proof.
  intros Hkeyed c1 Hb Hguard.
  assert (Hkeyed1 : registryKeyed c1) by by apply setBlock_registryKeyed.
  assert (Hguard' : isAnyNodeOpen b (virtualRowCount c1) = true
                    \/ isBlockCurrentlyDisplayed c1 b = true).
  { destruct Hguard as [H|H]; [by left|].
    right. by apply overlapsViewport_displayed. }
  split.
  - intros blockToExclude. by apply purgeBlocksIfNeeded_keeps.
  - assert (E : (postCreateBlock newBlock c).1
                = (purgeBlocksIfNeeded newBlock c1).1) by done.
    rewrite E. by apply purgeBlocksIfNeeded_keeps.
Qed.

(** *** Eviction under a block cap *)

Lemma insertByLastAccessed_sorted x l :
  StronglySorted (fun a b => getLastAccessed b <= getLastAccessed a) l ->
  StronglySorted (fun a b => getLastAccessed b <= getLastAccessed a)
    (insertByLastAccessed x l).
Proof.
  induction 1 as [|y l Hl IH Hall]; simpl.
  - by repeat constructor.
  - destruct (Z.leb_spec (getLastAccessed y - getLastAccessed x) 0).
    + constructor; [by constructor|]. constructor; [lia|].
      eapply Forall_impl; [exact Hall|]. simpl. intros; lia.
    + constructor; [done|].
      rewrite insertByLastAccessed_Permutation. constructor; [lia | done].
Qed.

Lemma sortByLastAccessed_sorted l :
  StronglySorted (fun a b => getLastAccessed b <= getLastAccessed a)
    (sortByLastAccessed l).
Proof.
  induction l as [|x l IH]; [constructor|].
  by apply insertByLastAccessed_sorted.
Qed.

Lemma noneExempt_sameSettings c c' l :
  sameSettings c c' -> noneExempt c l -> noneExempt c' l.
Proof.
  intros (Hv & _ & _ & _ & Hr) H x Hx.
  rewrite Hv, (isBlockCurrentlyDisplayed_rowRenderer c c') by done.
  by apply H.
Qed.

Lemma forEachFrom_purgeStep_noneExempt (l : list Block) i c :
  noneExempt c l ->
  (forEachFrom i l purgeStep c).1
  = (forEach (purgedFrom (cacheParams c) i l) destroyBlock c).1.
Proof.
  revert i c. induction l as [|x l IH]; intros i c Hnone; [done|].
  cbn [forEachFrom purgedFrom]. unfold andThen at 1. cbn [fst].
  destruct (Hnone x) as [Hopen Hshown]; [left|].
  assert (Hrest : forall c', sameSettings c c' -> noneExempt c' l).
  { intros c' Hs. apply (noneExempt_sameSettings c); [done|].
    intros y Hy. apply Hnone. by right. }
  destruct (purgeBecauseBlockEmpty x i
            || purgeBecauseCacheFull (cacheParams c) i) eqn:E.
  - assert (Hstep : purgeStep x i c = destroyBlock x c).
    { unfold purgeStep. by rewrite E, Hopen, Hshown. }
    rewrite Hstep. cbn [app forEach]. unfold andThen at 1. cbn [fst].
    by rewrite IH by apply Hrest, destroyBlock_sameSettings.
  - assert (Hstep : purgeStep x i c = skip c).
    { unfold purgeStep. by rewrite E. }
    rewrite Hstep. cbn [app]. unfold skip at 1. cbn [fst].
    by rewrite IH by apply Hrest, sameSettings_refl.
Qed.

Lemma elem_of_purgedFrom p i (l : list Block) x :
  x ∈ purgedFrom p i l
  <-> exists n : nat,
        l !! n = Some x
        /\ (purgeBecauseBlockEmpty x (i + Z.of_nat n)
            || purgeBecauseCacheFull p (i + Z.of_nat n)) = true.
Proof.
  revert i. induction l as [|y l IH]; intros i.
  - simpl. split; [by intros ?%elem_of_nil | by intros (n & ? & _)].
  - cbn [purgedFrom]. rewrite elem_of_app, IH. split.
    + intros [Hhd | (n & Hn & Hc)].
      * exists 0%nat.
        destruct (purgeBecauseBlockEmpty y i || purgeBecauseCacheFull p i)
          eqn:E; [|by apply elem_of_nil in Hhd].
        apply list_elem_of_singleton in Hhd as ->.
        split; [done|]. by rewrite Z.add_0_r.
      * exists (S n). split; [done|].
        by replace (i + Z.of_nat (S n)) with (i + 1 + Z.of_nat n) by lia.
    + intros ([|n] & Hn & Hc).
      * left. simpl in Hn. injection Hn as ->.
        rewrite Z.add_0_r in Hc. rewrite Hc. by left.
      * right. exists n. split; [done|].
        by replace (i + 1 + Z.of_nat n) with (i + Z.of_nat (S n)) by lia.
Qed.

Lemma blocksInOrder_numbers c :
  registryKeyed c ->
  getBlockNumber <$> (blocksInOrder c).*2 = getBlockIdsSorted c.
Proof.
  intros Hkeyed. rewrite <- blocksInOrder_fst.
  assert (H : forall ib, ib ∈ blocksInOrder c -> getBlockNumber ib.2 = ib.1).
  { intros [id b] Hin. by apply Hkeyed, elem_of_blocksInOrder. }
  induction (blocksInOrder c) as [|ib l IH]; [done|].
  cbn. f_equal; [apply H; left | apply IH; intros; apply H; by right].
Qed.

Lemma NoDup_blocksForPurging_numbers blockToExclude c :
  registryKeyed c ->
  NoDup (getBlockNumber <$> blocksForPurging blockToExclude c).
Proof.
  intros Hkeyed.
  assert (Hnd : NoDup (getBlockNumber <$> (blocksInOrder c).*2)).
  { rewrite blocksInOrder_numbers by done. apply NoDup_getBlockIdsSorted. }
  apply NoDup_fmap_2_strong.
  - intros x y Hx Hy Heq.
    apply elem_of_blocksForPurging in Hx as (_ & idx & Hx).
    apply elem_of_blocksForPurging in Hy as (_ & idy & Hy).
    pose proof (Hkeyed _ _ Hx). pose proof (Hkeyed _ _ Hy). congruence.
  - apply NoDup_filter. by apply NoDup_fmap_1 in Hnd.
Qed.

Lemma size_list_to_set_le (l : list Z) :
  (size (list_to_set l : gset Z) <= length l)%nat.
Proof.
  induction l as [|x l IH]; [done|].
  cbn [list_to_set foldr length]. rewrite size_union_alt, size_singleton.
  assert (Hsub : list_to_set l ∖ {[x]} ⊆ (list_to_set l : gset Z))
    by by apply subseteq_difference_l.
  apply subseteq_size in Hsub. lia.
Qed.

Lemma purgeBecauseCacheFull_cap p N i :
  maxBlocksInCache p = Some N -> 0 < N ->
  purgeBecauseCacheFull p i = (N - 1 <=? i).
Proof.
  intros HN Hpos. unfold purgeBecauseCacheFull. rewrite HN.
  by destruct (Z.ltb_spec 0 N); [|lia].
Qed.

Section block_cap.
Variables (c : RowNodeCache) (newBlock : Block) (N : Z).
Hypothesis Hkeyed : registryKeyed c.
Hypothesis Hnew : newBlockIsNew c newBlock.
Hypothesis Hcap : maxBlocksInCache (cacheParams c) = Some N.
Hypothesis Hpos : 0 < N.

Let c1 := (setBlock (getBlockNumber newBlock) newBlock c).1.
Let candidates := sortByLastAccessed (blocksForPurging newBlock c1).
Let c2 := (postCreateBlock newBlock c).1.

Hypothesis Hnone : noneExempt c1 candidates.

Local Lemma c1_keyed : registryKeyed c1.
Proof. by apply setBlock_registryKeyed. Qed.

Local Lemma c2_lookup k :
  blocks c2 !! k
  = if decide (k ∈ getBlockNumber
                     <$> purgedFrom (cacheParams c) 0 candidates)
    then None else blocks c1 !! k.
Proof.
  assert (E : c2 = (forEachFrom 0 candidates purgeStep c1).1) by done.
  rewrite E, forEachFrom_purgeStep_noneExempt by done.
  apply forEach_destroyBlock_blocks.
Qed.

Local Lemma candidate_registered x :
  x ∈ candidates ->
  blocks c1 !! getBlockNumber x = Some x /\ objId x <> objId newBlock.
Proof.
  intros Hx. unfold candidates in Hx.
  rewrite sortByLastAccessed_Permutation in Hx.
  apply elem_of_blocksForPurging in Hx as (Hne & id & Hx).
  split; [|done]. by rewrite (c1_keyed _ _ Hx).
Qed.

Local Lemma candidates_numbers_NoDup : NoDup (getBlockNumber <$> candidates).
Proof.
  unfold candidates. rewrite sortByLastAccessed_Permutation.
  apply NoDup_blocksForPurging_numbers, c1_keyed.
Qed.

Local Lemma candidate_purged n x :
  candidates !! n = Some x ->
  getBlockNumber x ∈ getBlockNumber
                       <$> purgedFrom (cacheParams c) 0 candidates
  <-> ((N - 1 <=? Z.of_nat n)
       || purgeBecauseBlockEmpty x (Z.of_nat n)) = true.
Proof.
  intros Hn. rewrite list_elem_of_fmap. split.
  - intros (y & Hnum & Hy).
    apply elem_of_purgedFrom in Hy as (n' & Hn' & Hc).
    assert (n' = n) as ->.
    { eapply NoDup_lookup; [apply candidates_numbers_NoDup|..];
        rewrite list_lookup_fmap; [by rewrite Hn' | rewrite Hn];
        simpl; by rewrite Hnum. }
    assert (y = x) as -> by congruence.
    rewrite (purgeBecauseCacheFull_cap _ N) in Hc by done.
    by rewrite orb_comm.
  - intros Hc. exists x. split; [done|].
    apply elem_of_purgedFrom. exists n. split; [done|].
    rewrite (purgeBecauseCacheFull_cap _ N) by done.
    by rewrite orb_comm.
Qed.

Lemma block_cap_newBlock_kept :
  blocks c2 !! getBlockNumber newBlock = Some newBlock.
Proof.
  rewrite c2_lookup. rewrite decide_False.
  - unfold c1. rewrite setBlock_blocks. apply lookup_insert_eq.
  - intros (y & Hnum & Hy)%list_elem_of_fmap.
    apply elem_of_purgedFrom in Hy as (n & Hn & _).
    apply list_elem_of_lookup_2 in Hn.
    apply candidate_registered in Hn as [Hreg Hne].
    rewrite <- Hnum in Hreg. unfold c1 in Hreg.
    rewrite setBlock_blocks, lookup_insert_eq in Hreg. congruence.
Qed.

Lemma block_cap_candidate n x :
  candidates !! n = Some x ->
  blocks c2 !! getBlockNumber x
  = if (N - 1 <=? Z.of_nat n) || purgeBecauseBlockEmpty x (Z.of_nat n)
    then None else Some x.
Proof.
  intros Hn. rewrite c2_lookup.
  pose proof (candidate_purged n x Hn) as Hiff.
  destruct ((N - 1 <=? Z.of_nat n) || purgeBecauseBlockEmpty x (Z.of_nat n)).
  - rewrite decide_True; [done | by apply Hiff].
  - rewrite decide_False.
    + apply list_elem_of_lookup_2 in Hn.
      by apply candidate_registered in Hn as [? _].
    + intros H. by apply Hiff in H.
Qed.

Lemma block_cap_size : Z.of_nat (size (blocks c2)) <= N.
Proof.
  set (kept := getBlockNumber <$> take (Z.to_nat (N - 1)) candidates).
  assert (Hsub : dom (blocks c2)
                 ⊆ {[getBlockNumber newBlock]} ∪ list_to_set kept).
  { intros k Hk. apply elem_of_dom in Hk as [b Hb].
    apply elem_of_union.
    destruct (decide (k = getBlockNumber newBlock)) as [->|Hne].
    { left. by apply elem_of_singleton. }
    right. apply elem_of_list_to_set.
    rewrite c2_lookup in Hb. case_decide as Hpurged; [done|].
    assert (Hb0 : blocks c !! k = Some b).
    { unfold c1 in Hb. by rewrite setBlock_blocks, lookup_insert_ne in Hb. }
    assert (Hcand : b ∈ candidates).
    { unfold candidates. rewrite sortByLastAccessed_Permutation.
      apply elem_of_blocksForPurging. split; [by eapply Hnew|].
      by exists k. }
    apply list_elem_of_lookup_1 in Hcand as [n Hn].
    assert (Hk : getBlockNumber b = k) by by apply Hkeyed.
    apply list_elem_of_fmap. exists b. split; [done|].
    apply elem_of_take. exists n. split; [done|].
    destruct (Z.leb_spec (N - 1) (Z.of_nat n)) as [Hge|Hlt]; [|lia].
    exfalso. apply Hpurged. rewrite <- Hk.
    apply (candidate_purged n b Hn).
    destruct (Z.leb_spec (N - 1) (Z.of_nat n)); [done | lia]. }
  rewrite <- size_dom. apply subseteq_size in Hsub.
  rewrite size_union_alt, size_singleton in Hsub.
  assert (Hd : (size (list_to_set kept ∖ {[getBlockNumber newBlock]}
                      : gset Z)
                <= size (list_to_set kept : gset Z))%nat)
    by by apply subseteq_size, subseteq_difference_l.
  pose proof (size_list_to_set_le kept) as Hle.
  unfold kept in Hle at 2. rewrite length_fmap, length_take in Hle. lia.
Qed.
End block_cap.

(** C4 (amended): with [maxBlocksInCache = N > 0], a registry keyed by
    block number, a new block that is a new object and no candidate
    exempted by the open-node or viewport guard, the registry holds at
    most [N] blocks after [postCreateBlock]; the new block is kept; the
    candidates are ranked by descending last access; every candidate at
    rank [>= N - 1] is evicted, and a candidate at a rank below [N - 1] is
    kept unless it is in state [STATE_DIRTY] at rank [>= 1], in which case
    it is evicted too. *)
Theorem eviction_respects_block_cap c newBlock N :
  registryKeyed c ->
  newBlockIsNew c newBlock ->
  maxBlocksInCache (cacheParams c) = Some N ->
  0 < N ->
  let c1 := (setBlock (getBlockNumber newBlock) newBlock c).1 in
  let candidates := sortByLastAccessed (blocksForPurging newBlock c1) in
  let c2 := (postCreateBlock newBlock c).1 in
  noneExempt c1 candidates ->
  Z.of_nat (size (blocks c2)) <= N
  /\ blocks c2 !! getBlockNumber newBlock = Some newBlock
  /\ StronglySorted (fun a b => getLastAccessed b <= getLastAccessed a)
       candidates
  /\ (forall (n : nat) x,
        candidates !! n = Some x ->
        blocks c2 !! getBlockNumber x
        = if (N - 1 <=? Z.of_nat n)
             || (BlockState_eqb (getState x) STATE_DIRTY
                 && (1 <=? Z.of_nat n))
          then None else Some x).
Proof.
  intros Hkeyed Hnew Hcap Hpos c1 candidates c2 Hnone.
  split; [by apply block_cap_size|].
  split; [by apply block_cap_newBlock_kept|].
  split; [apply sortByLastAccessed_sorted|].
  intros n x Hn.
  by apply (block_cap_candidate c newBlock N).
Qed.

(** *** Range selection: the walk over rows *)

Section row_walk.
Variables firstInRange lastInRange : option RowNode.

Abbreviation isHit r := (isAnchor r firstInRange || isAnchor r lastInRange).
Abbreviation rowWalk := (foldl (visitRow firstInRange lastInRange)).

Lemma quiet_app l1 l2 :
  quiet firstInRange lastInRange (l1 ++ l2)
  <-> quiet firstInRange lastInRange l1
      /\ quiet firstInRange lastInRange l2.
Proof.
  unfold quiet. split.
  - intros H. split; intros r Hr; apply H, elem_of_app; auto.
  - intros [H1 H2] r [Hr|Hr]%elem_of_app; auto.
Qed.

Lemma rowWalk_withLastBlockId id w rows :
  rowWalk (withLastBlockId id w) rows = withLastBlockId id (rowWalk w rows).
Proof.
  revert w. induction rows as [|r rows IH]; intros w; [done|].
  simpl. rewrite <- IH. done.
Qed.

Lemma rowWalk_quiet_outside w rows :
  quiet firstInRange lastInRange rows ->
  inActiveRange w = false ->
  rowWalk w rows = w.
Proof.
  revert w. induction rows as [|r rows IH]; intros w Hq Hout; [done|].
  simpl. assert (Hr : isHit r = false) by (apply Hq; left).
  assert (Hstep : visitRow firstInRange lastInRange w r = w).
  { unfold visitRow. rewrite Hr, Hout. destruct w; simpl in *; by subst. }
  rewrite Hstep. apply IH; [|done]. intros r' Hr'. apply Hq. by right.
Qed.

Lemma rowWalk_quiet_inside w rows :
  quiet firstInRange lastInRange rows ->
  inActiveRange w = true ->
  rowWalk w rows
  = {| result := result w ++ rows; lastBlockId := lastBlockId w;
       inActiveRange := true;
       foundGapInSelection := foundGapInSelection w |}.
Proof.
  revert w. induction rows as [|r rows IH]; intros w Hq Hin.
  - simpl. rewrite app_nil_r. destruct w; simpl in *; by subst.
  - simpl. assert (Hr : isHit r = false) by (apply Hq; left).
    rewrite IH.
    + unfold visitRow. rewrite Hr, Hin. simpl.
      by rewrite <- app_assoc.
    + intros r' Hr'. apply Hq. by right.
    + unfold visitRow. by rewrite Hr, Hin.
Qed.

Lemma visitRow_hit w r :
  isHit r = true ->
  visitRow firstInRange lastInRange w r
  = {| result := result w ++ [r]; lastBlockId := lastBlockId w;
       inActiveRange := negb (inActiveRange w);
       foundGapInSelection := foundGapInSelection w |}.
Proof.
  intros Hr. unfold visitRow. rewrite Hr. by rewrite orb_true_r.
Qed.

(** One anchor among quiet rows opens the range and leaves it open. *)
Lemma rowWalk_one_anchor w p x q :
  quiet firstInRange lastInRange p -> isHit x = true ->
  quiet firstInRange lastInRange q ->
  inActiveRange w = false ->
  inActiveRange (rowWalk w (p ++ x :: q)) = true.
Proof.
  intros Hp Hx Hq Hout.
  rewrite foldl_app, (rowWalk_quiet_outside w p) by done. cbn [foldl].
  rewrite visitRow_hit by done.
  rewrite rowWalk_quiet_inside; [done | done |]. simpl. by rewrite Hout.
Qed.

(** Two anchors among quiet rows select the rows from the one to the
    other. *)
Lemma rowWalk_two_anchors w l1 x mid y l2 :
  quiet firstInRange lastInRange l1 -> isHit x = true ->
  quiet firstInRange lastInRange mid -> isHit y = true ->
  quiet firstInRange lastInRange l2 ->
  inActiveRange w = false ->
  rowWalk w (l1 ++ x :: mid ++ y :: l2)
  = {| result := result w ++ x :: mid ++ [y];
       lastBlockId := lastBlockId w; inActiveRange := false;
       foundGapInSelection := foundGapInSelection w |}.
Proof.
  intros H1 Hx Hmid Hy H2 Hout.
  rewrite foldl_app, (rowWalk_quiet_outside w l1) by done. cbn [foldl].
  rewrite visitRow_hit by done.
  rewrite foldl_app, (rowWalk_quiet_inside _ mid);
    [|done|simpl; by rewrite Hout].
  cbn [foldl]. rewrite visitRow_hit by done.
  rewrite rowWalk_quiet_outside; [|done|done]. simpl.
  f_equal. rewrite <- !app_assoc. done.
Qed.

(** Without any anchor the range stays as it was. *)
Lemma rowWalk_quiet_flag w rows :
  quiet firstInRange lastInRange rows ->
  inActiveRange (rowWalk w rows) = inActiveRange w
  /\ (inActiveRange w = false -> result (rowWalk w rows) = result w).
Proof.
  intros Hq. destruct (inActiveRange w) eqn:E.
  - by rewrite rowWalk_quiet_inside.
  - by rewrite rowWalk_quiet_outside.
Qed.
End row_walk.

(** *** Range selection: the walk over blocks *)

Lemma withLastBlockId_twice k id w :
  withLastBlockId k (withLastBlockId id w) = withLastBlockId k w.
Proof. done. Qed.

Lemma withLastBlockId_same w : withLastBlockId (lastBlockId w) w = w.
Proof. by destruct w. Qed.

Lemma default_last_cons (d x : Z) (l : list Z) :
  default d (last (x :: l)) = default x (last l).
Proof.
  revert d x. induction l as [|y l IH]; intros d x; [done|].
  change (last (x :: y :: l)) with (last (y :: l)).
  by rewrite (IH d y), (IH x y).
Qed.

Lemma lastIdOr_cons d id blk l : lastIdOr d ((id, blk) :: l) = lastIdOr id l.
Proof. unfold lastIdOr. rewrite fmap_cons. apply default_last_cons. Qed.

Lemma lastIdOr_snoc d l id blk : lastIdOr d (l ++ [(id, blk)]) = id.
Proof.
  unfold lastIdOr. rewrite fmap_app.
  change ((fst <$> [(id, blk)])) with [id]. by rewrite last_snoc.
Qed.

Lemma rowsOf_app rowCount l1 l2 :
  rowsOf rowCount (l1 ++ l2) = rowsOf rowCount l1 ++ rowsOf rowCount l2.
Proof. apply bind_app. Qed.

Lemma rowsOf_cons rowCount id blk l :
  rowsOf rowCount ((id, blk) :: l)
  = forEachNodeShallow blk rowCount ++ rowsOf rowCount l.
Proof. done. Qed.

Section block_walk.
Variables firstInRange lastInRange : option RowNode.
Variable rowCount : Z.

Abbreviation rowWalk := (foldl (visitRow firstInRange lastInRange)).
Abbreviation blockWalk := (foldl (visitBlock firstInRange lastInRange rowCount)).

Lemma visitBlock_no_gap w id blk :
  foundGapInSelection w = false ->
  (inActiveRange w = true -> lastBlockId w + 1 = id) ->
  visitBlock firstInRange lastInRange rowCount w (id, blk)
  = withLastBlockId id (rowWalk w (forEachNodeShallow blk rowCount)).
Proof.
  intros Hgap Hnext. unfold visitBlock. cbn [fst snd].
  rewrite <- rowWalk_withLastBlockId. unfold withLastBlockId.
  rewrite Hgap. destruct (inActiveRange w); [|done].
  rewrite Hnext by done. by rewrite Z.eqb_refl.
Qed.

Lemma visitBlock_gap w id blk :
  foundGapInSelection w = false ->
  inActiveRange w = true -> lastBlockId w + 1 <> id ->
  foundGapInSelection
    (visitBlock firstInRange lastInRange rowCount w (id, blk)) = true.
Proof.
  intros Hgap Hin Hne. unfold visitBlock. rewrite Hgap, Hin. cbn [fst].
  by destruct (Z.eqb_spec (lastBlockId w + 1) id).
Qed.

Lemma rowWalk_no_gap w rows :
  foundGapInSelection w = false ->
  foundGapInSelection (rowWalk w rows) = false.
Proof.
  intros H.
  by destruct (foldl_visitRow_frame firstInRange lastInRange w rows) as [_ ->].
Qed.

(** Either the walk has met a gap, or it is the walk over the rows. *)
Lemma blockWalk_gap_or_rows w l :
  foundGapInSelection w = false ->
  foundGapInSelection (blockWalk w l) = true
  \/ blockWalk w l
     = withLastBlockId (lastIdOr (lastBlockId w) l)
         (rowWalk w (rowsOf rowCount l)).
Proof.
  revert w. induction l as [|[id blk] l IH]; intros w Hgap.
  - right. cbn. by rewrite withLastBlockId_same.
  - cbn [foldl].
    destruct (inActiveRange w) eqn:Hin.
    + destruct (decide (lastBlockId w + 1 = id)) as [Hnext|Hne].
      * rewrite visitBlock_no_gap by done.
        destruct (IH (withLastBlockId id
                        (rowWalk w (forEachNodeShallow blk rowCount))))
          as [Hl|Hr]; [by apply rowWalk_no_gap | by left |].
        right. rewrite Hr. cbn [lastBlockId withLastBlockId].
        rewrite rowWalk_withLastBlockId, withLastBlockId_twice.
        by rewrite lastIdOr_cons, rowsOf_cons, foldl_app.
      * left. rewrite foldl_visitBlock_gap_stays; by apply visitBlock_gap.
    + rewrite visitBlock_no_gap; [|done|by rewrite Hin].
      destruct (IH (withLastBlockId id
                      (rowWalk w (forEachNodeShallow blk rowCount))))
        as [Hl|Hr]; [by apply rowWalk_no_gap | by left |].
      right. rewrite Hr. cbn [lastBlockId withLastBlockId].
      rewrite rowWalk_withLastBlockId, withLastBlockId_twice.
      by rewrite lastIdOr_cons, rowsOf_cons, foldl_app.
Qed.

(** Over blocks whose numbers go up by one the walk meets no gap. *)
Lemma blockWalk_consecutive w i run :
  consecutiveFrom i run.*1 ->
  foundGapInSelection w = false ->
  (inActiveRange w = true -> lastBlockId w + 1 = i) ->
  blockWalk w run
  = withLastBlockId (lastIdOr (lastBlockId w) run)
      (rowWalk w (rowsOf rowCount run)).
Proof.
  revert w i. induction run as [|[id blk] run IH]; intros w i Hcons Hgap Hnext.
  - cbn. by rewrite withLastBlockId_same.
  - destruct Hcons as [Hid Hcons]. cbn [fst] in Hid. subst id.
    cbn [foldl]. rewrite visitBlock_no_gap by done.
    rewrite (IH _ (i + 1)); [|done|by apply rowWalk_no_gap|done].
    cbn [lastBlockId withLastBlockId].
    rewrite rowWalk_withLastBlockId, withLastBlockId_twice.
    by rewrite lastIdOr_cons, rowsOf_cons, foldl_app.
Qed.

(** Outside the range, blocks without an anchor only move the counter. *)
Lemma blockWalk_quiet_outside w l :
  quiet firstInRange lastInRange (rowsOf rowCount l) ->
  foundGapInSelection w = false ->
  inActiveRange w = false ->
  blockWalk w l = withLastBlockId (lastIdOr (lastBlockId w) l) w.
Proof.
  revert w. induction l as [|[id blk] l IH]; intros w Hq Hgap Hout.
  - cbn. by rewrite withLastBlockId_same.
  - rewrite rowsOf_cons in Hq. apply quiet_app in Hq as [Hq1 Hq2].
    cbn [foldl]. rewrite visitBlock_no_gap; [|done|by rewrite Hout].
    rewrite rowWalk_quiet_outside by done.
    rewrite IH by done. cbn [lastBlockId withLastBlockId].
    by rewrite lastIdOr_cons.
Qed.

(** The run of blocks that holds both anchors decides the result. *)
Lemma blockWalk_run w pre run post i r1 x mid y r2 :
  consecutiveFrom i run.*1 ->
  rowsOf rowCount run = r1 ++ x :: mid ++ y :: r2 ->
  quiet firstInRange lastInRange (rowsOf rowCount pre) ->
  quiet firstInRange lastInRange r1 ->
  isAnchor x firstInRange || isAnchor x lastInRange = true ->
  quiet firstInRange lastInRange mid ->
  isAnchor y firstInRange || isAnchor y lastInRange = true ->
  quiet firstInRange lastInRange r2 ->
  quiet firstInRange lastInRange (rowsOf rowCount post) ->
  foundGapInSelection w = false ->
  inActiveRange w = false ->
  foundGapInSelection (blockWalk w (pre ++ run ++ post)) = false
  /\ inActiveRange (blockWalk w (pre ++ run ++ post)) = false
  /\ result (blockWalk w (pre ++ run ++ post)) = result w ++ x :: mid ++ [y].
Proof.
  intros Hcons Hrows Hpre H1 Hx Hmid Hy H2 Hpost Hgap Hout.
  rewrite !foldl_app. rewrite (blockWalk_quiet_outside w pre) by done.
  set (w1 := withLastBlockId (lastIdOr (lastBlockId w) pre) w).
  rewrite (blockWalk_consecutive w1 i run); [|done|done|].
  2: { subst w1. cbn. by rewrite Hout. }
  rewrite Hrows.
  rewrite (rowWalk_two_anchors _ _ w1 r1 x mid y r2) by done.
  rewrite blockWalk_quiet_outside by done. done.
Qed.
End block_walk.

(** *** Range selection: from the registry to the walk *)

Lemma sorted_blocks_split (l : list (Z * Block)) m :
  StronglySorted Z.le l.*1 ->
  exists P Q,
    l = P ++ Q
    /\ (forall ib, ib ∈ P -> ib.1 < m)
    /\ (forall ib, ib ∈ Q -> m <= ib.1).
Proof.
  induction l as [|[id blk] l IH]; intros Hs.
  - exists [], []. repeat split; intros ? H; by apply elem_of_nil in H.
  - rewrite fmap_cons in Hs. apply StronglySorted_inv in Hs as [Hs Hall].
    destruct (decide (id < m)) as [Hlt|Hge].
    + destruct (IH Hs) as (P & Q & -> & HP & HQ).
      exists ((id, blk) :: P), Q. repeat split; [|done].
      intros ib [->|Hin]%elem_of_cons; [done | by apply HP].
    + exists [], ((id, blk) :: l). repeat split.
      * intros ? H. by apply elem_of_nil in H.
      * intros ib [->|Hin]%elem_of_cons; [simpl; lia|].
        rewrite Forall_forall in Hall.
        assert (id <= ib.1) by (apply Hall; by apply list_elem_of_fmap_2).
        lia.
Qed.

Lemma consecutiveFrom_filled i j (ids : list Z) :
  StronglySorted Z.le ids -> NoDup ids ->
  (forall id, id ∈ ids -> i <= id <= j) ->
  (forall m, i <= m <= j -> m ∈ ids) ->
  consecutiveFrom i ids.
Proof.
  revert i. induction ids as [|h t IH]; intros i Hs Hnd Hin Hall; [done|].
  apply StronglySorted_inv in Hs as [Hs Hle].
  apply NoDup_cons in Hnd as [Hh Hnd]. rewrite Forall_forall in Hle.
  assert (Hhi : i <= h <= j) by (apply Hin; left).
  assert (h = i) as ->.
  { assert (Hi : i ∈ h :: t) by (apply Hall; lia).
    apply elem_of_cons in Hi as [|Hi]; [done|].
    specialize (Hle i Hi). lia. }
  split; [done|]. apply IH; [done | done | |].
  - intros id Hid. specialize (Hle id Hid). specialize (Hin id).
    assert (id <> i) by (intros ->; done).
    assert (i <= id <= j) by (apply Hin; by right). lia.
  - intros m Hm. assert (Hin' : m ∈ i :: t) by (apply Hall; lia).
    apply elem_of_cons in Hin' as [|]; [lia | done].
Qed.

Lemma NoDup_split_unique (p q p' q' : list RowNode) x :
  NoDup (p ++ x :: q) -> p ++ x :: q = p' ++ x :: q' -> p = p' /\ q = q'.
Proof.
  revert p'. induction p as [|z p IH]; intros [|z' p'] Hnd Heq; simpl in *.
  - by injection Heq.
  - injection Heq as <- ->. apply NoDup_cons in Hnd as [Hx _].
    exfalso. apply Hx, elem_of_app. right. left.
  - injection Heq as -> _. apply NoDup_cons in Hnd as [Hx _].
    exfalso. apply Hx, elem_of_app. right. left.
  - injection Heq as <- Heq. apply NoDup_cons in Hnd as [_ Hnd].
    destruct (IH p' Hnd Heq) as [-> ->]. done.
Qed.

Lemma NoDup_middle_split (A B C l1 mid l2 : list RowNode) x y :
  NoDup (A ++ B ++ C) ->
  A ++ B ++ C = l1 ++ x :: mid ++ y :: l2 ->
  x ∈ B -> y ∈ B ->
  exists r1 r2, B = r1 ++ x :: mid ++ y :: r2
                /\ l1 = A ++ r1 /\ l2 = r2 ++ C.
Proof.
  intros Hnd Heq Hx Hy.
  apply list_elem_of_split in Hx as (r1 & B' & ->).
  assert (Heq1 : (A ++ r1) ++ x :: (B' ++ C) = l1 ++ x :: (mid ++ y :: l2)).
  { rewrite <- Heq. by rewrite <- !app_assoc. }
  assert (Hnd1 : NoDup ((A ++ r1) ++ x :: (B' ++ C))).
  { by rewrite <- !app_assoc in *. }
  destruct (NoDup_split_unique _ _ _ _ _ Hnd1 Heq1) as [Hl1 Htail].
  apply NoDup_app in Hnd1 as (_ & Hsep & Hnd2).
  apply NoDup_cons in Hnd2 as [HxB' HndB'].
  assert (Hy' : y ∈ B').
  { apply elem_of_app in Hy as [Hy|Hy].
    - exfalso. apply (Hsep y); [apply elem_of_app; by right|].
      right. rewrite Htail. apply elem_of_app. right. left.
    - apply elem_of_cons in Hy as [->|Hy]; [|done].
      exfalso. apply HxB'. rewrite Htail. apply elem_of_app. right. left. }
  apply list_elem_of_split in Hy' as (m1 & r2 & ->).
  assert (Heq2 : m1 ++ y :: (r2 ++ C) = mid ++ y :: l2).
  { rewrite <- Htail. by rewrite <- app_assoc. }
  assert (Hnd3 : NoDup (m1 ++ y :: (r2 ++ C))).
  { by rewrite <- app_assoc in HndB'. }
  destruct (NoDup_split_unique _ _ _ _ _ Hnd3 Heq2) as [-> <-].
  exists r1, r2. done.
Qed.

Lemma elem_of_rowsOf rowCount (l : list (Z * Block)) r :
  r ∈ rowsOf rowCount l
  <-> exists ib, ib ∈ l /\ r ∈ forEachNodeShallow ib.2 rowCount.
Proof.
  unfold rowsOf. rewrite list_elem_of_bind. split.
  - intros (ib & ? & ?). by exists ib.
  - intros (ib & ? & ?). by exists ib.
Qed.

Lemma StronglySorted_blocksInOrder c :
  StronglySorted Z.le (blocksInOrder c).*1.
Proof. rewrite blocksInOrder_fst. apply StronglySorted_getBlockIdsSorted. Qed.

Lemma NoDup_blocksInOrder c : NoDup (blocksInOrder c).*1.
Proof. rewrite blocksInOrder_fst. apply NoDup_getBlockIdsSorted. Qed.

Lemma quiet_not_elem (a b : RowNode) rows :
  a ∉ rows -> b ∉ rows -> quiet (Some a) (Some b) rows.
Proof.
  intros Ha Hb r Hr. apply orb_false_iff. unfold isAnchor.
  split; apply Nat.eqb_neq; intros ->; done.
Qed.

Lemma isAnchor_refl r : isAnchor r (Some r) = true.
Proof. apply Nat.eqb_refl. Qed.

(** The ascending walk cut around the block numbers [i .. j]. *)
Lemma blocksInOrder_run c i j :
  (forall m, i <= m <= j -> is_Some (blocks c !! m)) ->
  exists pre run post,
    blocksInOrder c = pre ++ run ++ post
    /\ consecutiveFrom i run.*1
    /\ (forall id blk, blocks c !! id = Some blk -> i <= id <= j ->
          (id, blk) ∈ run).
Proof.
  intros Hall.
  pose proof (StronglySorted_blocksInOrder c) as Hs.
  pose proof (NoDup_blocksInOrder c) as Hnd.
  destruct (sorted_blocks_split (blocksInOrder c) i Hs)
    as (pre & rest & HL & Hpre & Hrest).
  rewrite HL, fmap_app in Hs, Hnd.
  apply StronglySorted_app_1_r in Hs.
  apply NoDup_app in Hnd as (_ & _ & Hnd).
  destruct (sorted_blocks_split rest (j + 1) Hs)
    as (run & post & -> & Hrun & Hpost).
  rewrite fmap_app in Hs, Hnd.
  apply StronglySorted_app_1_l in Hs.
  apply NoDup_app in Hnd as (Hnd & _ & _).
  assert (Hin : forall id blk, blocks c !! id = Some blk -> i <= id <= j ->
                               (id, blk) ∈ run).
  { intros id blk Hb Hid. apply elem_of_blocksInOrder in Hb.
    rewrite HL in Hb.
    apply elem_of_app in Hb as [Hb|Hb]; [apply Hpre in Hb; simpl in Hb; lia|].
    apply elem_of_app in Hb as [Hb|Hb]; [done|].
    apply Hpost in Hb. simpl in Hb. lia. }
  exists pre, run, post. split; [done|]. split; [|done].
  apply (consecutiveFrom_filled i j); [done | done | |].
  - intros id (ib & -> & Hib)%list_elem_of_fmap. split.
    + apply Hrest, elem_of_app. by left.
    + specialize (Hrun ib Hib). lia.
  - intros m Hm. destruct (Hall m Hm) as [blk Hblk].
    apply list_elem_of_fmap. exists (m, blk). split; [done|]. by apply Hin.
Qed.

Lemma NoDup_two_anchors (l1 mid l2 : list RowNode) x y :
  NoDup (l1 ++ x :: mid ++ y :: l2) ->
  x <> y
  /\ (forall r, r ∈ l1 \/ r ∈ mid \/ r ∈ l2 -> r <> x /\ r <> y).
Proof.
  intros Hnd. apply NoDup_app in Hnd as (_ & H1 & Hnd).
  apply NoDup_cons in Hnd as [Hx Hnd].
  apply NoDup_app in Hnd as (_ & Hm & Hnd).
  apply NoDup_cons in Hnd as [Hy _].
  split.
  - intros ->. apply Hx, elem_of_app. right. left.
  - intros r [Hr|[Hr|Hr]]; split; intros ->.
    + by apply (H1 x Hr); left.
    + apply (H1 y Hr). right. apply elem_of_app. right. left.
    + apply Hx, elem_of_app. by left.
    + apply (Hm y Hr). left.
    + apply Hx, elem_of_app. right. by right.
    + done.
Qed.

Lemma quiet_of_distinct (a b x y : RowNode) rows :
  (x = a /\ y = b) \/ (x = b /\ y = a) ->
  (forall r, r ∈ rows -> r <> x /\ r <> y) ->
  quiet (Some a) (Some b) rows.
Proof.
  intros Hxy H. apply quiet_not_elem; intros Hin;
    destruct (H _ Hin), Hxy as [[-> ->]|[-> ->]]; done.
Qed.

Lemma anchors_hit (a b x y : RowNode) :
  (x = a /\ y = b) \/ (x = b /\ y = a) ->
  isAnchor x (Some a) || isAnchor x (Some b) = true
  /\ isAnchor y (Some a) || isAnchor y (Some b) = true.
Proof.
  intros [[-> ->]|[-> ->]]; rewrite !isAnchor_refl;
    by rewrite ?orb_true_r, ?orb_true_l.
Qed.

Lemma getRowNodesInRange_between c a b x y l1 mid l2 i j bi bj :
  NoDup (rowsInOrder c) ->
  (x = a /\ y = b) \/ (x = b /\ y = a) ->
  rowsInOrder c = l1 ++ x :: mid ++ y :: l2 ->
  i <= j ->
  blocks c !! i = Some bi -> x ∈ forEachNodeShallow bi (virtualRowCount c) ->
  blocks c !! j = Some bj -> y ∈ forEachNodeShallow bj (virtualRowCount c) ->
  (forall m, i <= m <= j -> is_Some (blocks c !! m)) ->
  getRowNodesInRange c (Some a) (Some b) = x :: mid ++ [y].
Proof.
  intros Hnd Hxy Hrows Hij Hbi Hx Hbj Hy Hall.
  destruct (blocksInOrder_run c i j Hall)
    as (pre & run & post & HL & Hcons & Hin).
  assert (Hxrun : x ∈ rowsOf (virtualRowCount c) run).
  { apply elem_of_rowsOf. exists (i, bi). split; [apply Hin; [done|lia] | done]. }
  assert (Hyrun : y ∈ rowsOf (virtualRowCount c) run).
  { apply elem_of_rowsOf. exists (j, bj). split; [apply Hin; [done|lia] | done]. }
  unfold rowsInOrder in Hnd, Hrows. rewrite HL, !rowsOf_app in Hnd, Hrows.
  destruct (NoDup_middle_split _ _ _ _ _ _ _ _ Hnd Hrows Hxrun Hyrun)
    as (r1 & r2 & Hrun & -> & ->).
  rewrite Hrows in Hnd.
  destruct (NoDup_two_anchors _ _ _ _ _ Hnd) as [Hne Hothers].
  destruct (anchors_hit a b x y Hxy) as [Hhx Hhy].
  assert (Hq : forall rows, (forall r, r ∈ rows ->
                 r ∈ rowsOf (virtualRowCount c) pre ++ r1 \/ r ∈ mid
                 \/ r ∈ r2 ++ rowsOf (virtualRowCount c) post) ->
               quiet (Some a) (Some b) rows).
  { intros rows Hsub. apply (quiet_of_distinct a b x y); [done|].
    intros r Hr. by apply Hothers, Hsub. }
  destruct (blockWalk_run (Some a) (Some b) (virtualRowCount c)
              (rangeWalkStart (Some a)) pre run post i r1 x mid y r2)
    as (Hgap & Hact & Hres); try done.
  - apply Hq. intros r Hr. left. apply elem_of_app. by left.
  - apply Hq. intros r Hr. left. apply elem_of_app. by right.
  - apply Hq. intros r Hr. right. by left.
  - apply Hq. intros r Hr. right. right. apply elem_of_app. by left.
  - apply Hq. intros r Hr. right. right. apply elem_of_app. by right.
  - unfold getRowNodesInRange. rewrite HL, Hgap, Hact, Hres. done.
Qed.

Lemma rowWalk_at_most_one first last w rows :
  NoDup rows ->
  (forall r r', r ∈ rows -> r' ∈ rows ->
     isAnchor r first || isAnchor r last = true ->
     isAnchor r' first || isAnchor r' last = true -> r = r') ->
  inActiveRange w = false ->
  inActiveRange (foldl (visitRow first last) w rows) = true
  \/ foldl (visitRow first last) w rows = w.
Proof.
  revert w. induction rows as [|r rows IH]; intros w Hnd Hone Hout.
  - by right.
  - apply NoDup_cons in Hnd as [Hr Hnd]. cbn [foldl].
    destruct (isAnchor r first || isAnchor r last) eqn:Hhit.
    + left. rewrite visitRow_hit by done.
      rewrite rowWalk_quiet_inside; [done| |simpl; by rewrite Hout].
      intros r' Hr'.
      destruct (isAnchor r' first || isAnchor r' last) eqn:Hhit'; [|done].
      exfalso. apply Hr.
      rewrite (Hone r r'); [done | left | by right | done | done].
    + assert (Hstep : visitRow first last w r = w).
      { apply (rowWalk_quiet_outside first last w [r]); [|done].
        by intros r' ->%list_elem_of_singleton. }
      rewrite Hstep. apply IH; [done| |done].
      intros r1 r2 H1 H2. apply Hone; by right.
Qed.

Lemma getRowNodesInRange_rows c first last :
  foundGapInSelection
    (foldl (visitBlock first last (virtualRowCount c))
       (rangeWalkStart first) (blocksInOrder c)) = false ->
  getRowNodesInRange c first last
  = (let w := foldl (visitRow first last) (rangeWalkStart first)
                (rowsInOrder c) in
     if inActiveRange w then [] else result w).
Proof.
  intros Hgap. unfold getRowNodesInRange. rewrite Hgap.
  destruct (blockWalk_gap_or_rows first last (virtualRowCount c)
              (rangeWalkStart first) (blocksInOrder c)) as [H|H];
    [by destruct first | congruence |].
  rewrite H. done.
Qed.

Lemma getRowNodesInRange_unreached c first last :
  NoDup (rowsInOrder c) ->
  (forall b, last = Some b -> b ∉ rowsInOrder c)
  \/ (exists a, first = Some a /\ a ∉ rowsInOrder c) ->
  getRowNodesInRange c first last = [].
Proof.
  intros Hnd Hcond.
  destruct (foundGapInSelection
              (foldl (visitBlock first last (virtualRowCount c))
                 (rangeWalkStart first) (blocksInOrder c))) eqn:Hgap;
    [by apply getRowNodesInRange_gap|].
  rewrite getRowNodesInRange_rows by done. cbv zeta.
  assert (Hlast : forall r, r ∈ rowsInOrder c ->
            (forall b, last = Some b -> b ∉ rowsInOrder c) ->
            isAnchor r last = false).
  { intros r Hr Hl. destruct last as [b|]; [|done].
    apply Nat.eqb_neq. intros ->. by apply (Hl b). }
  assert (Hfirst : forall r a, r ∈ rowsInOrder c -> a ∉ rowsInOrder c ->
            isAnchor r (Some a) = false).
  { intros r a Hr Ha. apply Nat.eqb_neq. by intros ->. }
  destruct first as [a|].
  - destruct (rowWalk_at_most_one (Some a) last
                (rangeWalkStart (Some a)) (rowsInOrder c)) as [->| ->];
      [done| |done|done|done].
    intros r r' Hr Hr' Hh Hh'.
    destruct Hcond as [Hl|(a' & [= <-] & Ha)].
    + rewrite (Hlast r), orb_false_r in Hh by done.
      rewrite (Hlast r'), orb_false_r in Hh' by done.
      apply Nat.eqb_eq in Hh, Hh'. congruence.
    + rewrite (Hfirst r a), orb_false_l in Hh by done.
      rewrite (Hfirst r' a), orb_false_l in Hh' by done.
      destruct last as [b|]; [|done].
      apply Nat.eqb_eq in Hh, Hh'. congruence.
  - destruct Hcond as [Hl|(a' & [=] & _)].
    destruct (rowWalk_quiet_flag None last (rangeWalkStart None)
                (rowsInOrder c)) as [-> _]; [|done].
    intros r Hr. by rewrite (Hlast r).
Qed.

Lemma getRowNodesInRange_missing_block c a b x y i j m bi bj :
  NoDup (rowsInOrder c) ->
  (x = a /\ y = b) \/ (x = b /\ y = a) ->
  blocks c !! i = Some bi -> x ∈ forEachNodeShallow bi (virtualRowCount c) ->
  blocks c !! j = Some bj -> y ∈ forEachNodeShallow bj (virtualRowCount c) ->
  i < m < j -> blocks c !! m = None ->
  getRowNodesInRange c (Some a) (Some b) = [].
Proof.
  intros Hnd Hxy Hbi Hx Hbj Hy Hm Hnone.
  destruct (sorted_blocks_split (blocksInOrder c) m
              (StronglySorted_blocksInOrder c)) as (P & Q & HL & HP & HQ).
  assert (HiP : (i, bi) ∈ P).
  { apply elem_of_blocksInOrder in Hbi. rewrite HL in Hbi.
    apply elem_of_app in Hbi as [|Hbi]; [done|].
    apply HQ in Hbi. simpl in Hbi. lia. }
  assert (HjQ : (j, bj) ∈ Q).
  { apply elem_of_blocksInOrder in Hbj. rewrite HL in Hbj.
    apply elem_of_app in Hbj as [Hbj|]; [|done].
    apply HP in Hbj. simpl in Hbj. lia. }
  assert (HxP : x ∈ rowsOf (virtualRowCount c) P).
  { apply elem_of_rowsOf. by exists (i, bi). }
  assert (HyQ : y ∈ rowsOf (virtualRowCount c) Q).
  { apply elem_of_rowsOf. by exists (j, bj). }
  unfold rowsInOrder in Hnd. rewrite HL, rowsOf_app in Hnd.
  apply NoDup_app in Hnd as (HndP & Hsep & _).
  assert (HyP : y ∉ rowsOf (virtualRowCount c) P).
  { intros HyP. by apply (Hsep y). }
  apply list_elem_of_split in HxP as (p1 & p2 & Hrows).
  rewrite Hrows in HndP, HyP.
  apply NoDup_app in HndP as (_ & Hx1 & HndP).
  apply NoDup_cons in HndP as [Hx2 _].
  destruct (anchors_hit a b x y Hxy) as [Hhx _].
  assert (Hq1 : quiet (Some a) (Some b) p1).
  { apply (quiet_of_distinct a b x y); [done|]. intros r Hr. split.
    - intros ->. apply (Hx1 x Hr). left.
    - intros ->. apply HyP, elem_of_app. by left. }
  assert (Hq2 : quiet (Some a) (Some b) p2).
  { apply (quiet_of_distinct a b x y); [done|]. intros r Hr. split.
    - by intros ->.
    - intros ->. apply HyP, elem_of_app. right. by right. }
  apply getRowNodesInRange_gap. rewrite HL, foldl_app.
  set (w0 := rangeWalkStart (Some a)).
  destruct (blockWalk_gap_or_rows (Some a) (Some b) (virtualRowCount c) w0 P)
    as [Hgap|Hwalk]; [done | by rewrite foldl_visitBlock_gap_stays |].
  destruct Q as [|[i2 b2] Q']; [by apply elem_of_nil in HjQ|].
  destruct P as [|[i1 b1] P' _] using rev_ind; [by apply elem_of_nil in HiP|].
  rewrite lastIdOr_snoc in Hwalk.
  assert (Hi1 : i1 < m).
  { apply (HP (i1, b1)), elem_of_app. right. left. }
  assert (Hi2 : m < i2).
  { assert (m <= i2) by (apply (HQ (i2, b2)); left).
    assert (i2 <> m); [|lia]. intros ->.
    assert (Hreg : blocks c !! m = Some b2).
    { apply elem_of_blocksInOrder. rewrite HL. apply elem_of_app. right. left. }
    congruence. }
  cbn [foldl]. rewrite foldl_visitBlock_gap_stays; [|apply visitBlock_gap].
  - apply visitBlock_gap.
    + rewrite Hwalk. cbn. by apply rowWalk_no_gap.
    + rewrite Hwalk, Hrows. cbn. by apply rowWalk_one_anchor.
    + rewrite Hwalk. cbn. lia.
  - rewrite Hwalk. cbn. by apply rowWalk_no_gap.
  - rewrite Hwalk, Hrows. cbn. by apply rowWalk_one_anchor.
  - rewrite Hwalk. cbn. lia.
Qed.

(** C5 (amended): when every row is handed out once by the registered
    blocks and the two anchors are distinct rows, both among the rows,
    with all block numbers from the block of the earlier anchor to the
    block of the later one registered, [getRowNodesInRange] returns
    exactly the rows from the earlier anchor to the later one inclusive,
    in ascending block and row order; when a block number between the
    blocks of the two anchors is not registered the result is empty; and
    when [lastInRange] or a given [firstInRange] is not among the rows the
    result is empty. *)
Theorem getRowNodesInRange_distinct_anchors c :
  NoDup (rowsInOrder c) ->
  (forall a b x y l1 mid l2 i j bi bj,
     (x = a /\ y = b) \/ (x = b /\ y = a) ->
     rowsInOrder c = l1 ++ x :: mid ++ y :: l2 ->
     i <= j ->
     blocks c !! i = Some bi ->
     x ∈ forEachNodeShallow bi (virtualRowCount c) ->
     blocks c !! j = Some bj ->
     y ∈ forEachNodeShallow bj (virtualRowCount c) ->
     (forall m, i <= m <= j -> is_Some (blocks c !! m)) ->
     getRowNodesInRange c (Some a) (Some b) = x :: mid ++ [y])
  /\ (forall a b x y i j m bi bj,
        (x = a /\ y = b) \/ (x = b /\ y = a) ->
        blocks c !! i = Some bi ->
        x ∈ forEachNodeShallow bi (virtualRowCount c) ->
        blocks c !! j = Some bj ->
        y ∈ forEachNodeShallow bj (virtualRowCount c) ->
        i < m < j -> blocks c !! m = None ->
        getRowNodesInRange c (Some a) (Some b) = [])
  /\ (forall first last,
        (forall b, last = Some b -> b ∉ rowsInOrder c)
        \/ (exists a, first = Some a /\ a ∉ rowsInOrder c) ->
        getRowNodesInRange c first last = []).
Proof.
  intros Hnd. split; [|split].
  - intros a b x y l1 mid l2 i j bi bj Hxy Hrows Hij Hbi Hx Hbj Hy Hall.
    exact (getRowNodesInRange_between c a b x y l1 mid l2 i j bi bj
             Hnd Hxy Hrows Hij Hbi Hx Hbj Hy Hall).
  - intros a b x y i j m bi bj Hxy Hbi Hx Hbj Hy Hm Hnone.
    exact (getRowNodesInRange_missing_block c a b x y i j m bi bj
             Hnd Hxy Hbi Hx Hbj Hy Hm Hnone).
  - intros first last Hcond.
    exact (getRowNodesInRange_unreached c first last Hnd Hcond).
Qed.

(** *** The registry stays keyed by block number *)

Lemma registryKeyed_subseteq c c' :
  blocks c' ⊆ blocks c -> registryKeyed c -> registryKeyed c'.
Proof.
  intros Hsub Hk id b Hb. apply Hk.
  by apply (lookup_weaken (blocks c') (blocks c)).
Qed.

Lemma forEach_shrinks {A} (l : list A) (f : A -> Action) :
  (forall x c, blocks (f x c).1 ⊆ blocks c) ->
  forall c, blocks (forEach l f c).1 ⊆ blocks c.
Proof.
  intros Hf. induction l as [|x l IH]; intros c; [done|].
  cbn [forEach]. unfold andThen. cbn [fst].
  etrans; [apply IH | apply Hf].
Qed.

Lemma forEachFrom_shrinks {A} (l : list A) (f : A -> Z -> Action) :
  (forall x i c, blocks (f x i c).1 ⊆ blocks c) ->
  forall i c, blocks (forEachFrom i l f c).1 ⊆ blocks c.
Proof.
  intros Hf. induction l as [|x l IH]; intros i c; [done|].
  cbn [forEachFrom]. unfold andThen. cbn [fst].
  etrans; [apply IH | apply Hf].
Qed.

Lemma destroyBlock_shrinks b c : blocks (destroyBlock b c).1 ⊆ blocks c.
Proof. rewrite destroyBlock_blocks. apply delete_subseteq. Qed.

Lemma purgeBlocksIfNeeded_shrinks b c :
  blocks (purgeBlocksIfNeeded b c).1 ⊆ blocks c.
Proof.
  apply forEachFrom_shrinks. intros x i c0.
  destruct (purgeStep_cases x i c0) as [-> | (-> & _)];
    [done | apply destroyBlock_shrinks].
Qed.

Lemma onCacheUpdated_shrinks c : blocks (onCacheUpdated c).1 ⊆ blocks c.
Proof.
  unfold onCacheUpdated. destruct (active c); [|done].
  unfold andThen, emit. cbn [fst].
  apply forEach_shrinks. intros. apply destroyBlock_shrinks.
Qed.

Lemma purgeCache_shrinks c : blocks (purgeCache c).1 ⊆ blocks c.
Proof.
  unfold purgeCache, andThen, modify. cbn [fst].
  etrans; [apply onCacheUpdated_shrinks|].
  match goal with
  | |- blocks (if ?cond then _ else _) ⊆ _ => destruct cond
  end; cbn [blocks with_virtualRowCount with_maxRowFound];
    apply forEach_shrinks; intros id c0;
    (destruct (blocks c0 !! id); [apply destroyBlock_shrinks | done]).
Qed.

Lemma runOp_registryKeyed op c :
  registryKeyed c -> registryKeyed (runOp op c).1.
Proof.
  intros Hk. destruct op as [n m|ev|b|]; cbn [runOp].
  - destruct (setVirtualRowCount_as_onCacheUpdated n m c)
      as (c2 & Hb & _ & _ & -> & _).
    eapply registryKeyed_subseteq; [apply onCacheUpdated_shrinks|].
    intros id b. rewrite Hb. apply Hk.
  - destruct (onPageLoaded_cases ev c) as [-> | ->]; [done|].
    eapply registryKeyed_subseteq; [apply onCacheUpdated_shrinks|].
    unfold checkVirtualRowCount, modify, growVirtualRowCount. cbn [fst].
    intros id b Hb. apply Hk. by repeat case_match.
  - eapply registryKeyed_subseteq;
      [apply purgeBlocksIfNeeded_shrinks | by apply setBlock_registryKeyed].
  - eapply registryKeyed_subseteq; [apply purgeCache_shrinks | done].
Qed.

(** Every cache that the operations build from a new one keeps its
    blocks under their own numbers. *)
Lemma runOps_registryKeyed ops c :
  registryKeyed c -> registryKeyed (runOps ops c).1.
Proof.
  revert c. induction ops as [|op ops IH]; intros c Hk; [done|].
  unfold runOps. cbn [forEach]. unfold andThen. cbn [fst].
  by apply IH, runOp_registryKeyed.
Qed.

Lemma newRowNodeCache_registryKeyed p r : registryKeyed (newRowNodeCache p r).
Proof. intros id b H. cbn [newRowNodeCache blocks] in H. by rewrite lookup_empty in H. Qed.

Lemma init_registryKeyed c : registryKeyed c -> registryKeyed (init c).1.
Proof. done. Qed.

(** *** Checking the side conditions on a given cache *)

Lemma newBlockIsNew_checked c newBlock :
  map_Forall (fun id b => id <> getBlockNumber newBlock ->
                          objId b <> objId newBlock) (blocks c) ->
  newBlockIsNew c newBlock.
Proof. intros H id b Hb. by apply (H id b). Qed.

Lemma smallest_block_checked c m :
  map_Forall (fun k _ => m <= k) (blocks c) ->
  forall k, is_Some (blocks c !! k) -> m <= k.
Proof. intros H k [b Hb]. by apply (H k b). Qed.

Lemma noneExempt_checked c l :
  Forall (fun x => isAnyNodeOpen x (virtualRowCount c) = false
                   /\ isBlockCurrentlyDisplayed c x = false) l ->
  noneExempt c l.
Proof. intros H x Hx. by apply (proj1 (Forall_forall _ _) H). Qed.

Lemma emptyCache_registryKeyed : registryKeyed emptyCache.
Proof. apply init_registryKeyed, newRowNodeCache_registryKeyed. Qed.

Lemma threeBlocks_registryKeyed : registryKeyed threeBlocks.
Proof. apply runOps_registryKeyed, emptyCache_registryKeyed. Qed.

Lemma shownBlock_registryKeyed : registryKeyed shownBlock.
Proof.
  apply runOps_registryKeyed, init_registryKeyed,
    newRowNodeCache_registryKeyed.
Qed.

Lemma threeBlocks_rows_NoDup : NoDup (rowsInOrder threeBlocks).
Proof. by apply (bool_decide_unpack _); vm_compute. Qed.

(** *** Instances *)

Lemma boundary_avoided_by_setVirtualRowCount_witness :
  2 <= blockSize (cacheParams threeBlocks)
  /\ isSafeInteger 20
  /\ boundaryAvoided (setVirtualRowCount 20 None threeBlocks).1
  /\ Z.rem (overflowSize (cacheParams emptyCache))
       (blockSize (cacheParams emptyCache)) <> 0
  /\ Forall notPurge [OpPageLoaded (loadOfBlock0 None); OpSetVirtualRowCount 30 None]
  /\ Forall (countsSafe (cacheParams emptyCache))
       [OpPageLoaded (loadOfBlock0 None); OpSetVirtualRowCount 30 None]
  /\ boundaryAvoided emptyCache
  /\ boundaryAvoided
       (runOps [OpPageLoaded (loadOfBlock0 None); OpSetVirtualRowCount 30 None]
          emptyCache).1.
Proof.
  assert (H : 2 <= blockSize (cacheParams threeBlocks))
    by (vm_compute; discriminate).
  assert (Hs : isSafeInteger 20) by (vm_compute; reflexivity).
  assert (H' : 2 <= blockSize (cacheParams emptyCache))
    by (vm_compute; discriminate).
  assert (Ho : Z.rem (overflowSize (cacheParams emptyCache))
                 (blockSize (cacheParams emptyCache)) <> 0)
    by (vm_compute; discriminate).
  assert (Hn : Forall notPurge
                 [OpPageLoaded (loadOfBlock0 None); OpSetVirtualRowCount 30 None])
    by (repeat constructor).
  assert (Hc : Forall (countsSafe (cacheParams emptyCache))
                 [OpPageLoaded (loadOfBlock0 None); OpSetVirtualRowCount 30 None])
    by (repeat constructor; vm_compute; reflexivity).
  assert (Hi : boundaryAvoided emptyCache)
    by (intros _; vm_compute; reflexivity).
  split; [exact H|]. split; [exact Hs|].
  split;
    [exact (proj1 (boundary_avoided_by_setVirtualRowCount threeBlocks H)
              20 None Hs)|].
  split; [exact Ho|]. split; [exact Hn|]. split; [exact Hc|].
  split; [exact Hi|].
  exact (proj2 (boundary_avoided_by_setVirtualRowCount emptyCache H')
           Ho _ Hn Hc Hi).
Defined.

Lemma checkVirtualRowCount_heuristic_growth_witness :
  ((None : option Z) = None \/ exists l, (None : option Z) = Some l /\ l < 0)
  /\ virtualRowCount (checkVirtualRowCount block0 None emptyCache).1
     = Z.max 1 11.
Proof.
  assert (H : (None : option Z) = None
              \/ exists l, (None : option Z) = Some l /\ l < 0) by (by left).
  split; [exact H|].
  exact (proj1 (proj1 (checkVirtualRowCount_heuristic_growth
                         block0 None emptyCache H) eq_refl)).
Defined.

Lemma eviction_spares_open_and_displayed_blocks_witness :
  registryKeyed shownBlock
  /\ blocks (setBlock 1 block1 shownBlock).1 !! 0 = Some block0
  /\ overlapsViewport (setBlock 1 block1 shownBlock).1 block0
  /\ blocks (postCreateBlock block1 shownBlock).1 !! 0 = Some block0.
Proof.
  assert (Hb : blocks (setBlock (getBlockNumber block1) block1 shownBlock).1
               !! 0 = Some block0) by (vm_compute; reflexivity).
  assert (Hv : overlapsViewport
                 (setBlock (getBlockNumber block1) block1 shownBlock).1 block0).
  { exists 0, 10. repeat split; vm_compute; congruence. }
  split; [exact shownBlock_registryKeyed|].
  split; [exact Hb|]. split; [exact Hv|].
  exact (proj2 (eviction_spares_open_and_displayed_blocks shownBlock block1
                  0 block0 shownBlock_registryKeyed Hb (or_intror Hv))).
Defined.

Lemma eviction_respects_block_cap_witness :
  registryKeyed threeBlocks
  /\ newBlockIsNew threeBlocks block3
  /\ maxBlocksInCache (cacheParams threeBlocks) = Some 3
  /\ Z.of_nat (size (blocks (postCreateBlock block3 threeBlocks).1)) <= 3
  /\ blocks (postCreateBlock block3 threeBlocks).1 !! 3 = Some block3.
Proof.
  assert (Hnew : newBlockIsNew threeBlocks block3).
  { apply newBlockIsNew_checked. by apply (bool_decide_unpack _); vm_compute. }
  assert (Hcap : maxBlocksInCache (cacheParams threeBlocks) = Some 3)
    by (vm_compute; reflexivity).
  assert (Hpos : 0 < 3) by lia.
  assert (Hnone : noneExempt
                    (setBlock (getBlockNumber block3) block3 threeBlocks).1
                    (sortByLastAccessed
                       (blocksForPurging block3
                          (setBlock (getBlockNumber block3) block3
                             threeBlocks).1))).
  { apply noneExempt_checked. by apply (bool_decide_unpack _); vm_compute. }
  pose proof (eviction_respects_block_cap threeBlocks block3 3
                threeBlocks_registryKeyed Hnew Hcap Hpos Hnone)
    as (Hsize & Hkept & _).
  split; [exact threeBlocks_registryKeyed|].
  split; [exact Hnew|]. split; [exact Hcap|].
  split; [exact Hsize | exact Hkept].
Defined.

Lemma getRowNodesInRange_distinct_anchors_witness :
  NoDup (rowsInOrder threeBlocks)
  /\ getRowNodesInRange threeBlocks (Some 2%nat) (Some 7%nat)
     = [2; 3; 4; 5; 6; 7]%nat.
Proof.
  split; [exact threeBlocks_rows_NoDup|].
  refine (proj1 (getRowNodesInRange_distinct_anchors threeBlocks
                   threeBlocks_rows_NoDup)
            2%nat 7%nat 2%nat 7%nat [1%nat] [3; 4; 5; 6]%nat [8%nat]
            0 2 block0 block2 _ _ _ _ _ _ _ _).
  - by left.
  - vm_compute. reflexivity.
  - lia.
  - vm_compute. reflexivity.
  - by apply (bool_decide_unpack _); vm_compute.
  - vm_compute. reflexivity.
  - by apply (bool_decide_unpack _); vm_compute.
  - intros m Hm.
    assert (Hcases : m = 0 \/ m = 1 \/ m = 2) by lia.
    destruct Hcases as [-> | [-> | ->]]; eexists; vm_compute; reflexivity.
Defined.

Lemma inactive_cache_ignores_notifications_witness :
  active inactiveCache = false
  /\ onCacheUpdated inactiveCache = (inactiveCache, [])
  /\ (onPageLoaded (loadOfBlock0 (Some 20)) inactiveCache).1 = inactiveCache
  /\ (onPageLoaded (loadOfBlock0 (Some 20)) inactiveCache).2
     = [LoaderLoadComplete; LoaderCheckBlockToLoad].
Proof.
  assert (H : active inactiveCache = false) by reflexivity.
  pose proof (inactive_cache_ignores_notifications
                (loadOfBlock0 (Some 20)) inactiveCache H)
    as (H1 & H2 & H3 & _).
  split; [exact H|]. split; [exact H1|]. split; [exact H2 | exact H3].
Defined.

Lemma blockCount_counts_keys_of_fitting_ops_witness :
  registryOpsFit
    [OpSetBlock 0 block0; OpSetBlock 1 block1; OpDestroyBlock block0]
    (newRowNodeCache exampleParams farRenderer)
  /\ blockCount
       (forEach [OpSetBlock 0 block0; OpSetBlock 1 block1;
                 OpDestroyBlock block0]
          runRegistryOp (newRowNodeCache exampleParams farRenderer)).1
     = Z.of_nat
         (size (blocks
            (forEach [OpSetBlock 0 block0; OpSetBlock 1 block1;
                      OpDestroyBlock block0]
               runRegistryOp (newRowNodeCache exampleParams farRenderer)).1)).
Proof.
  assert (H : registryOpsFit
                [OpSetBlock 0 block0; OpSetBlock 1 block1;
                 OpDestroyBlock block0]
                (newRowNodeCache exampleParams farRenderer)).
  { split; [vm_compute; reflexivity|].
    split; [vm_compute; reflexivity|].
    split; [|exact I]. eexists. vm_compute. reflexivity. }
  split; [exact H|].
  exact (proj1 (blockCount_counts_keys_of_fitting_ops
                  exampleParams farRenderer _ H)).
Defined.

Lemma count_change_destroys_blocks_past_count_witness :
  registryKeyed threeBlocks
  /\ active threeBlocks = true
  /\ pastCountDestroyed threeBlocks (setVirtualRowCount 15 None threeBlocks).
Proof.
  assert (Ha : active threeBlocks = true) by (vm_compute; reflexivity).
  split; [exact threeBlocks_registryKeyed|]. split; [exact Ha|].
  exact (proj1 (count_change_destroys_blocks_past_count threeBlocks
                  threeBlocks_registryKeyed Ha) 15 None).
Defined.

Lemma getRowNodesInRange_from_top_needs_block_zero_witness :
  is_Some (blocks twoLaterBlocks !! 1)
  /\ (forall k, is_Some (blocks twoLaterBlocks !! k) -> 1 <= k)
  /\ 1 <> 0
  /\ getRowNodesInRange twoLaterBlocks None (Some 5%nat) = [].
Proof.
  assert (H1 : is_Some (blocks twoLaterBlocks !! 1)).
  { eexists. vm_compute. reflexivity. }
  assert (Hmin : forall k, is_Some (blocks twoLaterBlocks !! k) -> 1 <= k).
  { apply smallest_block_checked.
    by apply (bool_decide_unpack _); vm_compute. }
  assert (Hne : 1 <> 0) by lia.
  split; [exact H1|]. split; [exact Hmin|]. split; [exact Hne|].
  exact (getRowNodesInRange_from_top_needs_block_zero twoLaterBlocks
           (Some 5%nat) 1 H1 Hmin Hne).
Defined.

(** *** Where the specification asks for more than the code does *)

(** C1, against the specification: a load completion without a last row raises
    the count of a cache with [blockSize = 10] and [overflowSize = 10] to
    [20]; and after an authoritative last row of [20], [purgeCache] sets
    [maxRowFound] back to false and leaves the count at [20].  Both times
    [maxRowFound] is false and the count is an exact multiple of
    [blockSize]. *)
Lemma boundary_not_avoided_by_growth_and_purge :
  (let c := (runOps [OpPostCreateBlock block0;
                     OpPageLoaded (loadOfBlock0 None)]
               (init (newRowNodeCache wideOverflowParams farRenderer)).1).1 in
   maxRowFound c = false /\ virtualRowCount c = 20
   /\ blockSize (cacheParams c) = 10 /\ ~ boundaryAvoided c)
  /\ (let c := (runOps [OpPageLoaded (loadOfBlock0 (Some 20)); OpPurgeCache]
                  threeBlocks).1 in
      maxRowFound c = false /\ virtualRowCount c = 20
      /\ blockSize (cacheParams c) = 10 /\ ~ boundaryAvoided c).
Proof.
  split; cbv zeta.
  - repeat split; try (vm_compute; reflexivity).
    intros H. assert (Hm : maxRowFound
      (runOps [OpPostCreateBlock block0; OpPageLoaded (loadOfBlock0 None)]
         (init (newRowNodeCache wideOverflowParams farRenderer)).1).1 = false)
      by (vm_compute; reflexivity).
    specialize (H Hm). vm_compute in H. discriminate.
  - repeat split; try (vm_compute; reflexivity).
    intros H. assert (Hm : maxRowFound
      (runOps [OpPageLoaded (loadOfBlock0 (Some 20)); OpPurgeCache]
         threeBlocks).1 = false) by (vm_compute; reflexivity).
    specialize (H Hm). vm_compute in H. discriminate.
Qed.

(** C4, against the specification: with [maxBlocksInCache = 3] and no exempt
    block, the two candidates rank as block 0, block 1; block 1 is among
    the [3 - 1] most recently accessed candidates and is evicted all the
    same, because it is in state [STATE_DIRTY] at rank 1. *)
Lemma eviction_drops_dirty_block_within_cap :
  maxBlocksInCache (cacheParams oneDirtyBlock) = Some 3
  /\ getBlockNumber
       <$> sortByLastAccessed
             (blocksForPurging block2 (setBlock 2 block2 oneDirtyBlock).1)
     = [0; 1]
  /\ Forall (fun x =>
       isAnyNodeOpen x (virtualRowCount oneDirtyBlock) = false
       /\ isBlockCurrentlyDisplayed oneDirtyBlock x = false)
       (sortByLastAccessed
          (blocksForPurging block2 (setBlock 2 block2 oneDirtyBlock).1))
  /\ blocks oneDirtyBlock !! 1 = Some dirtyBlock1
  /\ blocks (postCreateBlock block2 oneDirtyBlock).1 !! 1 = None.
Proof.
  split; [vm_compute; reflexivity|].
  split; [vm_compute; reflexivity|].
  split; [by apply (bool_decide_unpack _); vm_compute|].
  split; vm_compute; reflexivity.
Qed.

(** C5, against the specification: with the same row as both anchors, present in
    a registered block, the result is empty and not that row. *)
Lemma getRowNodesInRange_same_anchor_empty :
  2%nat ∈ forEachNodeShallow block0 (virtualRowCount threeBlocks)
  /\ blocks threeBlocks !! 0 = Some block0
  /\ getRowNodesInRange threeBlocks (Some 2%nat) (Some 2%nat) = []
  /\ getRowNodesInRange threeBlocks (Some 2%nat) (Some 2%nat) <> [2%nat].
Proof.
  split; [by apply (bool_decide_unpack _); vm_compute|].
  split; [vm_compute; reflexivity|].
  split; [vm_compute; reflexivity|].
  vm_compute. discriminate.
Qed.

(** C7, against the specification: a second [setBlock] under block number 0
    leaves one key and a [blockCount] of 2. *)
Lemma blockCount_exceeds_keys_after_replacement :
  let c := (forEach [OpSetBlock 0 block0; OpSetBlock 0 otherBlock0]
              runRegistryOp (newRowNodeCache exampleParams farRenderer)).1 in
  blockCount c = 2 /\ size (blocks c) = 1%nat
  /\ blockCount c <> Z.of_nat (size (blocks c)).
Proof.
  cbv zeta. split; [vm_compute; reflexivity|].
  split; [vm_compute; reflexivity|]. vm_compute. discriminate.
Qed.

(** ** Further properties of the code *)

(** *** Ordered traversal *)

Lemma length_getBlockIdsSorted c :
  length (getBlockIdsSorted c) = size (blocks c).
Proof.
  rewrite <- blocksInOrder_fst, length_fmap. apply length_blocksInOrder.
Qed.

Lemma getBlockIdsSorted_strict c : StronglySorted Z.lt (getBlockIdsSorted c).
Proof.
  pose proof (StronglySorted_getBlockIdsSorted c) as Hs.
  pose proof (NoDup_getBlockIdsSorted c) as Hnd.
  induction Hs as [|x l Hs IH Hall]; [constructor|].
  apply NoDup_cons in Hnd as [Hx Hnd].
  constructor; [by apply IH|].
  rewrite Forall_forall in *. intros y Hy. specialize (Hall y Hy).
  assert (x <> y) by (intros ->; done). lia.
Qed.

(** The digits that [ToString] prints are read back by [parseInt]. *)
Lemma digitValue_pretty_N_char d :
  (d < 10)%N -> digitValue (pretty_N_char d) = Some (Z.of_N d).
Proof.
  intros Hd.
  assert (d = 0 \/ d = 1 \/ d = 2 \/ d = 3 \/ d = 4 \/ d = 5 \/ d = 6
          \/ d = 7 \/ d = 8 \/ d = 9)%N as H by lia.
  destruct H as [-> | [-> | [-> | [-> | [-> | [-> | [-> | [-> | [-> | ->]]]]]]]]];
    reflexivity.
Qed.

Lemma digitsPrefix_pretty_N_go x :
  (0 < x)%N ->
  exists k, 0 <= k /\ forall s acc,
    digitsPrefix (pretty_N_go x s) acc
    = digitsPrefix s (Some (default 0 acc * 10 ^ k + Z.of_N x)).
Proof.
  induction (N.lt_wf_0 x) as [x _ IH]. intros Hx.
  assert (Hmod : (x `mod` 10 < 10)%N) by (apply N.mod_lt; lia).
  assert (Hdm : Z.of_N x = 10 * Z.of_N (x `div` 10) + Z.of_N (x `mod` 10)).
  { rewrite (N.div_mod x 10) at 1 by lia. lia. }
  destruct (decide (x `div` 10 = 0)%N) as [Hz|Hnz].
  - exists 1. split; [lia|]. intros s acc.
    rewrite pretty_N_go_step, Hz, pretty_N_go_0 by done.
    cbn [digitsPrefix]. rewrite digitValue_pretty_N_char by done.
    do 2 f_equal. rewrite Hdm, Hz. lia.
  - destruct (IH (x `div` 10)%N) as (k & Hk & Hgo);
      [apply N.div_lt; lia | by apply N.neq_0_lt_0 |].
    exists (k + 1). split; [lia|]. intros s acc.
    rewrite pretty_N_go_step, Hgo by done.
    cbn [digitsPrefix]. rewrite digitValue_pretty_N_char by done.
    do 2 f_equal. cbn [default].
    rewrite Hdm, Z.pow_add_r, Z.pow_1_r by lia. unfold id. ring.
Qed.

Lemma pretty_N_go_head x s :
  (0 < x)%N ->
  exists d rest, (d < 10)%N /\ pretty_N_go x s = String (pretty_N_char d) rest.
Proof.
  revert s. induction (N.lt_wf_0 x) as [x _ IH]. intros s Hx.
  rewrite pretty_N_go_step by done.
  destruct (decide (x `div` 10 = 0)%N) as [Hz|Hnz].
  - rewrite Hz, pretty_N_go_0. eexists _, _. split; [|done].
    apply N.mod_lt. lia.
  - apply IH; [apply N.div_lt; lia | by apply N.neq_0_lt_0].
Qed.

Lemma parseInt10_digit d rest :
  (d < 10)%N ->
  parseInt10 (String (pretty_N_char d) rest)
  = digitsPrefix (String (pretty_N_char d) rest) None.
Proof.
  intros Hd.
  assert (d = 0 \/ d = 1 \/ d = 2 \/ d = 3 \/ d = 4 \/ d = 5 \/ d = 6
          \/ d = 7 \/ d = 8 \/ d = 9)%N as H by lia.
  destruct H as [-> | [-> | [-> | [-> | [-> | [-> | [-> | [-> | [-> | ->]]]]]]]]];
    reflexivity.
Qed.

Lemma digitsPrefix_pretty_positive p :
  digitsPrefix (pretty (N.pos p)) None = Some (Z.pos p).
Proof.
  unfold pretty, pretty_N. rewrite decide_False by done.
  destruct (digitsPrefix_pretty_N_go (N.pos p)) as (k & _ & ->); [done|].
  cbn. done.
Qed.

Lemma parseInt10_pretty z : parseInt10 (pretty z) = Some z.
Proof.
  destruct z as [|p|p]; [reflexivity| |].
  - change (pretty (Z.pos p)) with (pretty (N.pos p)).
    pose proof (digitsPrefix_pretty_positive p) as Hp.
    unfold pretty, pretty_N in *. rewrite decide_False in * by done.
    destruct (pretty_N_go_head (N.pos p) "") as (d & rest & Hd & E); [done|].
    rewrite E in *. by rewrite parseInt10_digit.
  - change (pretty (Z.neg p)) with (String "-" (pretty (N.pos p))).
    unfold parseInt10. cbn [trimStart].
    change (isStrWhiteSpaceChar "-") with false. cbv iota.
    by rewrite digitsPrefix_pretty_positive.
Qed.

(** What [parseInt] does with the names of the registry and with other
    strings, and where [ToString] leaves the decimal digits. *)
Example parseInt10_examples :
  objectKeys [2; 0; 1] = Some ["2"; "0"; "1"]%string
  /\ blockIdsOfKeys ["2"; "0"; "1"]%string = Some [0; 1; 2]
  /\ parseInt10 " -12px" = Some (-12)
  /\ parseInt10 "+7" = Some 7
  /\ parseInt10 "- 7" = None
  /\ parseInt10 "px" = None
  /\ parseInt10 "" = None
  /\ js_number_to_string (2 ^ 53 - 1) = Some "9007199254740991"%string
  /\ js_number_to_string (2 ^ 53) = None.
Proof. repeat split; vm_compute; reflexivity. Qed.

Lemma js_number_to_string_safe z :
  isSafeInteger z -> js_number_to_string z = Some (pretty z).
Proof.
  intros H. unfold js_number_to_string.
  by destruct (Z.ltb_spec (Z.abs z) (2 ^ 53)); [|unfold isSafeInteger in H; lia].
Qed.

Lemma objectKeys_safe order :
  Forall isSafeInteger order -> objectKeys order = Some (pretty <$> order).
Proof.
  intros H. apply mapM_Some_2, Forall2_fmap_r, Forall_Forall2_diag.
  eapply Forall_impl; [exact H|]. apply js_number_to_string_safe.
Qed.

Lemma blockIdsOfKeys_pretty ids :
  blockIdsOfKeys (pretty <$> ids) = Some (merge_sort Z.le ids).
Proof.
  unfold blockIdsOfKeys.
  rewrite (mapM_fmap_Some parseInt10 pretty ids parseInt10_pretty). done.
Qed.

Lemma merge_sort_enumeration c order :
  NoDup order -> dom (blocks c) = list_to_set order ->
  merge_sort Z.le order = getBlockIdsSorted c.
Proof.
  intros Hnd Hdom.
  apply (StronglySorted_unique Z.le);
    [apply StronglySorted_merge_sort; apply _
    |apply StronglySorted_getBlockIdsSorted|].
  rewrite merge_sort_Permutation.
  apply NoDup_Permutation; [done | apply NoDup_getBlockIdsSorted|].
  intros id. rewrite elem_of_getBlockIdsSorted, <- elem_of_dom, Hdom.
  by rewrite elem_of_list_to_set.
Qed.

(** X1: when the registered block numbers are safe integers, the id list
    that [getBlockIdsSorted] computes from the property names of the
    registry, in whatever order [Object.keys] lists them ([order] names
    every registered block number once), is defined: every name parses,
    and the parsed and sorted numbers are exactly the registered block
    numbers, in strictly ascending order; it is the list
    [getBlockIdsSorted] of the model. *)
Theorem getBlockIdsSorted_from_property_names c order :
  safeBlockNumbers c ->
  NoDup order ->
  dom (blocks c) = list_to_set order ->
  exists names ids,
    objectKeys order = Some names
    /\ blockIdsOfKeys names = Some ids
    /\ getBlockIdsSorted c = ids
    /\ StronglySorted Z.lt ids
    /\ (forall id, id ∈ ids <-> is_Some (blocks c !! id)).
Proof.
  intros Hsafe Hnd Hdom.
  exists (pretty <$> order), (getBlockIdsSorted c).
  split; [|split; [|split; [done|split]]].
  - apply objectKeys_safe. apply Forall_forall. intros id Hid.
    assert (Hin : id ∈ dom (blocks c))
      by (rewrite Hdom; by apply elem_of_list_to_set).
    apply elem_of_dom in Hin as [b Hb]. exact (Hsafe id b Hb).
  - rewrite blockIdsOfKeys_pretty. f_equal.
    by apply merge_sort_enumeration.
  - apply getBlockIdsSorted_strict.
  - apply elem_of_getBlockIdsSorted.
Qed.

Lemma forEach_readOnly (ids : list Z) (m : gmap Z Block)
    (callback : option Block -> Z -> Action) c :
  readOnly callback ->
  blocks c = m ->
  (forEachBlockId ids callback c).1 = c
  /\ (forEachBlockId ids callback c).2
     = concat ((fun id => (callback (m !! id) id c).2) <$> ids).
Proof.
  intros Hro <-. unfold forEachBlockId.
  induction ids as [|id ids [IH1 IH2]]; [done|].
  cbn [forEach]. unfold andThen. cbn [fst snd].
  rewrite !Hro. by rewrite IH1, IH2.
Qed.

Lemma blocksInOrder_lookups c :
  (fun id => (blocks c !! id, id)) <$> getBlockIdsSorted c
  = (fun ib => (Some ib.2, ib.1)) <$> blocksInOrder c.
Proof.
  unfold blocksInOrder.
  assert (H : forall id, id ∈ getBlockIdsSorted c -> is_Some (blocks c !! id))
    by (intros id; apply elem_of_getBlockIdsSorted).
  induction (getBlockIdsSorted c) as [|id ids IH]; [done|].
  destruct (H id) as [b Hb]; [left|].
  cbn. rewrite Hb. cbn. f_equal. apply IH. intros id' Hid'. apply H. by right.
Qed.

(** X2: with registered block numbers that are safe integers, a
    traversal whose callback leaves the cache alone returns the cache as
    it is and hands the callback every registered block exactly once,
    each with the number it is registered under: [forEachBlockInOrder] in
    strictly ascending order of the numbers, and
    [forEachBlockInReverseOrder] in the reverse of that order. *)
Theorem forEachBlock_visits_blocks_in_order callback c :
  readOnly callback ->
  safeBlockNumbers c ->
  StronglySorted Z.lt (blocksInOrder c).*1
  /\ (forall id b, (id, b) ∈ blocksInOrder c <-> blocks c !! id = Some b)
  /\ forEachBlockInOrder callback c
     = (c, concat ((fun ib => (callback (Some ib.2) ib.1 c).2)
                   <$> blocksInOrder c))
  /\ forEachBlockInReverseOrder callback c
     = (c, concat ((fun ib => (callback (Some ib.2) ib.1 c).2)
                   <$> reverse (blocksInOrder c))).
Proof.
  intros Hro _.
  assert (Hmap : forall ids : list Z,
            (fun id => (callback (blocks c !! id) id c).2) <$> ids
            = (fun p : option Block * Z => (callback p.1 p.2 c).2)
              <$> ((fun id => (blocks c !! id, id)) <$> ids)).
  { intros ids. by rewrite <- list_fmap_compose. }
  unfold forEachBlockInOrder, forEachBlockInReverseOrder.
  destruct (forEach_readOnly (getBlockIdsSorted c) (blocks c) callback c
              Hro eq_refl) as [H1 H2].
  destruct (forEach_readOnly (reverse (getBlockIdsSorted c)) (blocks c)
              callback c Hro eq_refl) as [H3 H4].
  split; [rewrite blocksInOrder_fst; apply getBlockIdsSorted_strict|].
  split; [intros id b; apply elem_of_blocksInOrder|].
  split; apply injective_projections; cbn [fst snd]; try done.
  - rewrite H2, Hmap, blocksInOrder_lookups, <- list_fmap_compose. done.
  - rewrite H4, Hmap, fmap_reverse, blocksInOrder_lookups,
      <- fmap_reverse, <- list_fmap_compose. done.
Qed.

(** *** Visible blocks *)

(** X3: [isBlockCurrentlyDisplayed] is false for a block without a
    display start (parent closed); with both display indexes it is true
    exactly when the block's rows [[start, end)] meet the visible rows
    [[first, last]]; a missing display end alone does not count as parent
    closed: with an [undefined] end the block is displayed exactly when
    it does not start below the viewport. *)
Theorem isBlockCurrentlyDisplayed_cases c block :
  (js_is_nullish (getDisplayIndexStart block) = true ->
     isBlockCurrentlyDisplayed c block = false)
  /\ (forall s e,
        getDisplayIndexStart block = JsNum s ->
        getDisplayIndexEnd block = JsNum e ->
        (isBlockCurrentlyDisplayed c block = true
         <-> s <= getLastVirtualRenderedRow (rowRenderer c)
             /\ getFirstVirtualRenderedRow (rowRenderer c) < e))
  /\ (forall s,
        getDisplayIndexStart block = JsNum s ->
        getDisplayIndexEnd block = JsUndefined ->
        (isBlockCurrentlyDisplayed c block = true
         <-> s <= getLastVirtualRenderedRow (rowRenderer c))).
Proof.
  unfold isBlockCurrentlyDisplayed. split; [|split].
  - by intros ->.
  - intros s e -> ->. cbn.
    rewrite andb_true_iff, !negb_true_iff, !Z.ltb_ge. lia.
  - intros s -> ->. cbn.
    rewrite andb_true_iff, !negb_true_iff, !Z.ltb_ge. tauto.
Qed.

(** *** Range selection *)

Lemma visitRow_swap a b w r :
  visitRow (Some a) (Some b) w r = visitRow (Some b) (Some a) w r.
Proof. unfold visitRow. by rewrite (orb_comm (isAnchor r (Some a))). Qed.

Lemma foldl_ext_all {A B} (f g : A -> B -> A) (l : list B) (a : A) :
  (forall x y, f x y = g x y) -> foldl f a l = foldl g a l.
Proof.
  intros H. revert a. induction l as [|y l IH]; intros a; [done|].
  simpl. by rewrite H, IH.
Qed.

(** X4: with both anchors given, [getRowNodesInRange] does not depend on
    which of the two is passed first. *)
Theorem getRowNodesInRange_anchor_order c a b :
  getRowNodesInRange c (Some a) (Some b)
  = getRowNodesInRange c (Some b) (Some a).
Proof.
  unfold getRowNodesInRange.
  assert (H : forall w ib,
            visitBlock (Some a) (Some b) (virtualRowCount c) w ib
            = visitBlock (Some b) (Some a) (virtualRowCount c) w ib).
  { intros w ib. unfold visitBlock.
    by rewrite (foldl_ext_all _ _ _ _ (visitRow_swap a b)). }
  by rewrite (foldl_ext_all _ _ _ _ H).
Qed.

Lemma rowWalk_result_sublist first last w rows :
  exists picked,
    result (foldl (visitRow first last) w rows) = result w ++ picked
    /\ picked `sublist_of` rows.
Proof.
  revert w. induction rows as [|r rows IH]; intros w.
  - exists []. by rewrite app_nil_r.
  - cbn [foldl]. destruct (IH (visitRow first last w r)) as (p & -> & Hp).
    unfold visitRow at 1. cbn [result].
    destruct (inActiveRange w || (isAnchor r first || isAnchor r last)).
    + exists (r :: p). rewrite <- app_assoc. split; [done|].
      by apply sublist_skip.
    + exists p. split; [done|]. by apply sublist_cons.
Qed.

(** X5: whatever the anchors are, the rows that [getRowNodesInRange]
    returns are rows of the registered blocks in the order of the
    ascending walk: the result is a sublist of those rows. *)
Theorem getRowNodesInRange_sublist_of_rows c first last :
  getRowNodesInRange c first last `sublist_of` rowsInOrder c.
Proof.
  destruct (foundGapInSelection
              (foldl (visitBlock first last (virtualRowCount c))
                 (rangeWalkStart first) (blocksInOrder c))) eqn:Hgap.
  - rewrite getRowNodesInRange_gap by done. apply sublist_nil_l.
  - rewrite getRowNodesInRange_rows by done. cbv zeta.
    destruct (rowWalk_result_sublist first last (rangeWalkStart first)
                (rowsInOrder c)) as (p & Hres & Hp).
    destruct (inActiveRange _); [apply sublist_nil_l|].
    rewrite Hres. by destruct first.
Qed.

(** *** Effects and the block count *)

Lemma sumEffects_app weight t1 t2 :
  sumEffects weight (t1 ++ t2) = sumEffects weight t1 + sumEffects weight t2.
Proof.
  unfold sumEffects. induction t1 as [|e t1 IH]; [done|].
  cbn. rewrite IH. lia.
Qed.

Lemma balanced_andThen a b : balanced a -> balanced b -> balanced (a ;; b).
Proof.
  intros Ha Hb c. unfold andThen. cbn [fst snd].
  rewrite sumEffects_app, Hb, Ha. lia.
Qed.

Lemma balanced_skip : balanced skip.
Proof. intros c. cbn. lia. Qed.

Lemma balanced_forEach {A} (l : list A) (f : A -> Action) :
  (forall x, balanced (f x)) -> balanced (forEach l f).
Proof.
  intros Hf. induction l as [|x l IH]; [apply balanced_skip|].
  cbn [forEach]. by apply balanced_andThen.
Qed.

Lemma balanced_forEachFrom {A} (l : list A) (f : A -> Z -> Action) i :
  (forall x j, balanced (f x j)) -> balanced (forEachFrom i l f).
Proof.
  intros Hf. revert i. induction l as [|x l IH]; intros i;
    [apply balanced_skip|].
  cbn [forEachFrom]. by apply balanced_andThen.
Qed.

Lemma balanced_setBlock id b : balanced (setBlock id b).
Proof. intros c. cbn. lia. Qed.

Lemma balanced_destroyBlock b : balanced (destroyBlock b).
Proof. intros c. cbn. lia. Qed.

Lemma balanced_purgeStep x i : balanced (purgeStep x i).
Proof.
  intros c. destruct (purgeStep_cases x i c) as [-> | (-> & _)];
    [apply balanced_skip | apply balanced_destroyBlock].
Qed.

Lemma balanced_purgeBlocksIfNeeded b : balanced (purgeBlocksIfNeeded b).
Proof.
  intros c. unfold purgeBlocksIfNeeded.
  apply balanced_forEachFrom. apply balanced_purgeStep.
Qed.

Lemma balanced_onCacheUpdated : balanced onCacheUpdated.
Proof.
  intros c. unfold onCacheUpdated. destruct (active c); [|apply balanced_skip].
  apply balanced_andThen; [|intros c0; cbn; lia].
  intros c0. unfold destroyAllBlocksPastVirtualRowCount.
  apply balanced_forEach, balanced_destroyBlock.
Qed.

Lemma balanced_quiet_modify f :
  (forall c, blockCount (f c) = blockCount c) -> balanced (modify f).
Proof. intros Hf c. cbn. rewrite Hf. lia. Qed.

Lemma balanced_emit e : loaderDelta e = 0 -> balanced (emit e).
Proof. intros He c. cbn. rewrite He. lia. Qed.

Lemma balanced_runOp op : balanced (runOp op).
Proof.
  destruct op as [n m|ev|b|]; cbn [runOp].
  - unfold setVirtualRowCount.
    repeat apply balanced_andThen; try apply balanced_onCacheUpdated;
      apply balanced_quiet_modify; intros c; by repeat case_match.
  - unfold onPageLoaded, checkBlockToLoad.
    repeat apply balanced_andThen; try by apply balanced_emit.
    intros c. destruct (active c); [|apply balanced_skip]. cbn [negb].
    apply balanced_andThen; [by apply balanced_emit|].
    destruct (success ev); [|apply balanced_skip].
    apply balanced_andThen; [|apply balanced_onCacheUpdated].
    apply balanced_quiet_modify. intros c0. unfold growVirtualRowCount.
    by repeat case_match.
  - unfold postCreateBlock, checkBlockToLoad.
    apply balanced_andThen; [by apply balanced_emit|].
    apply balanced_andThen; [apply balanced_setBlock|].
    apply balanced_andThen;
      [apply balanced_purgeBlocksIfNeeded | by apply balanced_emit].
  - unfold purgeCache.
    repeat apply balanced_andThen; try apply balanced_onCacheUpdated.
    + intros c. unfold forEachBlockInOrder, forEachBlockId.
      apply balanced_forEach. intros id c0.
      destruct (blocks c0 !! id);
        [apply balanced_destroyBlock | apply balanced_skip].
    + by apply balanced_quiet_modify.
    + apply balanced_quiet_modify. intros c. by case_match.
Qed.

(** X6: over every sequence of cache operations [blockCount] changes by
    the number of [addBlock] calls minus the number of [removeBlock] calls
    that the cache made to the block loader: the count and the loader's
    set of blocks move together. *)
Theorem blockCount_follows_loader_calls ops c :
  blockCount (runOps ops c).1
  = blockCount c + sumEffects loaderDelta (runOps ops c).2.
Proof.
  unfold runOps. apply balanced_forEach, balanced_runOp.
Qed.

Lemma events_forEach {A} (l : list A) (f : A -> Action) c :
  (forall x c0, cacheUpdatedEvents (f x c0).2 = 0) ->
  cacheUpdatedEvents (forEach l f c).2 = 0.
Proof.
  intros Hf. revert c. induction l as [|x l IH]; intros c; [done|].
  cbn [forEach]. unfold andThen. cbn [snd]. unfold cacheUpdatedEvents in *.
  by rewrite sumEffects_app, Hf, IH.
Qed.

Lemma events_forEachFrom {A} (l : list A) (f : A -> Z -> Action) i c :
  (forall x j c0, cacheUpdatedEvents (f x j c0).2 = 0) ->
  cacheUpdatedEvents (forEachFrom i l f c).2 = 0.
Proof.
  intros Hf. revert i c. induction l as [|x l IH]; intros i c; [done|].
  cbn [forEachFrom]. unfold andThen. cbn [snd]. unfold cacheUpdatedEvents in *.
  by rewrite sumEffects_app, Hf, IH.
Qed.

Lemma events_onCacheUpdated c :
  cacheUpdatedEvents (onCacheUpdated c).2 = if active c then 1 else 0.
Proof.
  unfold onCacheUpdated. destruct (active c); [|done].
  unfold andThen, emit. cbn [fst snd]. unfold cacheUpdatedEvents.
  rewrite sumEffects_app.
  pose proof (events_forEach (blocksToDestroy c) destroyBlock c) as H.
  unfold cacheUpdatedEvents, destroyAllBlocksPastVirtualRowCount in *.
  rewrite H; [done|]. done.
Qed.

Lemma active_forEach_remove ids c :
  active (forEachBlockId ids (fun block _ => removeBlockFromCache block) c).1
  = active c.
Proof.
  unfold forEachBlockId.
  destruct (forEach_sameSettings ids
              (fun id c0 => removeBlockFromCache (blocks c0 !! id) c0))
    with (c := c) as (_ & _ & Ha & _); [|done].
  intros id c0. destruct (blocks c0 !! id); simpl;
    [apply destroyBlock_sameSettings | apply sameSettings_refl].
Qed.

Lemma events_andThen a b c :
  cacheUpdatedEvents ((a ;; b) c).2
  = cacheUpdatedEvents (a c).2 + cacheUpdatedEvents (b (a c).1).2.
Proof. unfold andThen, cacheUpdatedEvents. cbn [snd]. apply sumEffects_app. Qed.

Lemma events_purgeBlocksIfNeeded b c :
  cacheUpdatedEvents (purgeBlocksIfNeeded b c).2 = 0.
Proof.
  apply events_forEachFrom. intros x j c0.
  by destruct (purgeStep_cases x j c0) as [-> | (-> & _)].
Qed.

Lemma events_forEach_remove ids c :
  cacheUpdatedEvents
    (forEachBlockId ids (fun block _ => removeBlockFromCache block) c).2 = 0.
Proof.
  apply events_forEach. intros id c0. by destruct (blocks c0 !! id).
Qed.

(** X7: an operation dispatches the [cacheUpdated] event at most once:
    [setVirtualRowCount] and [purgeCache] once on an active cache, a load
    completion once when the cache is active and the load succeeded, and
    the creation of a block never; an inactive cache dispatches none. *)
Theorem cacheUpdated_dispatched_at_most_once op c :
  cacheUpdatedEvents (runOp op c).2
  = match op with
    | OpPostCreateBlock _ => 0
    | OpPageLoaded ev => if active c && success ev then 1 else 0
    | OpSetVirtualRowCount _ _ | OpPurgeCache => if active c then 1 else 0
    end.
Proof.
  destruct op as [n m|ev|b|]; cbn [runOp].
  - destruct (setVirtualRowCount_as_onCacheUpdated n m c)
      as (c2 & _ & Ha & _ & _ & ->).
    by rewrite events_onCacheUpdated, Ha.
  - unfold onPageLoaded, checkBlockToLoad. rewrite !events_andThen.
    cbn [emit fst snd]. destruct (active c) eqn:Ha; [|done].
    cbn [negb andb]. rewrite events_andThen. cbn [emit fst snd].
    destruct (success ev); [|done].
    rewrite events_andThen, events_onCacheUpdated.
    assert (Ha' : active (checkVirtualRowCount (page ev) (lastRow ev) c).1
                  = active c).
    { unfold checkVirtualRowCount, modify, growVirtualRowCount. cbn [fst].
      by repeat case_match. }
    by rewrite Ha', Ha.
  - unfold postCreateBlock, checkBlockToLoad. rewrite !events_andThen.
    by rewrite events_purgeBlocksIfNeeded.
  - unfold purgeCache. rewrite !events_andThen.
    unfold forEachBlockInOrder at 1. rewrite events_forEach_remove.
    rewrite events_onCacheUpdated. cbn [modify fst snd].
    match goal with
    | |- context [active ?x] => assert (Hx : active x = active c)
    end.
    { pose proof (active_forEach_remove (getBlockIdsSorted c) c) as Ha.
      unfold forEachBlockInOrder. by case_match. }
    rewrite Hx. done.
Qed.

(** *** Removing every block *)

Lemma destroyBlock_registryKeyed b c :
  registryKeyed c -> registryKeyed (destroyBlock b c).1.
Proof. apply registryKeyed_subseteq, destroyBlock_shrinks. Qed.

Lemma forEach_remove_keyed ids c :
  registryKeyed c ->
  let r := forEachBlockId ids (fun block _ => removeBlockFromCache block) c in
  (forall k, blocks r.1 !! k
             = if decide (k ∈ ids) then None else blocks c !! k)
  /\ (forall id b, id ∈ ids -> blocks c !! id = Some b ->
        DestroyBean (objId b) ∈ r.2 /\ LoaderRemoveBlock (objId b) ∈ r.2)
  /\ (NoDup ids -> (forall id, id ∈ ids -> is_Some (blocks c !! id)) ->
      blockCount r.1 = blockCount c - Z.of_nat (length ids)).
Proof.
  unfold forEachBlockId. revert c.
  induction ids as [|id ids IH]; intros c Hk; cbv zeta.
  - cbn [forEach]. split; [|split].
    + intros k. rewrite decide_False; [done | apply not_elem_of_nil].
    + intros id b Hin. by apply elem_of_nil in Hin.
    + intros _ _. cbn. lia.
  - cbn [forEach]. unfold andThen. cbn [fst snd].
    destruct (blocks c !! id) as [b|] eqn:Hb; cbn [removeBlockFromCache].
    + pose proof (Hk _ _ Hb) as Hnum.
      destruct (IH (destroyBlock b c).1 (destroyBlock_registryKeyed b c Hk))
        as (IH1 & IH2 & IH3).
      split; [|split].
      * intros k. rewrite IH1, destroyBlock_blocks, Hnum.
        destruct (decide (k = id)) as [->|Hne].
        -- rewrite lookup_delete_eq, (decide_True (P := id ∈ id :: ids));
             [by case_decide | left].
        -- rewrite lookup_delete_ne by done.
           destruct (decide (k ∈ ids)) as [Hin|Hnin].
           ++ rewrite decide_True; [done | by right].
           ++ rewrite decide_False; [done|].
              intros H. apply elem_of_cons in H as [?|?]; done.
      * intros id' b' Hin Hb'. rewrite !elem_of_app.
        destruct (decide (id' = id)) as [->|Hne].
        -- assert (b' = b) as -> by congruence.
           split; left; cbn; [left | right; left].
        -- apply elem_of_cons in Hin as [?|Hin]; [done|].
           destruct (IH2 id' b' Hin) as [H1 H2].
           { by rewrite destroyBlock_blocks, Hnum, lookup_delete_ne. }
           by split; right.
      * intros Hnd Hreg. apply NoDup_cons in Hnd as [Hid Hnd].
        rewrite IH3; [rewrite destroyBlock_blockCount; cbn [length]; lia
                     | done |].
        intros id' Hin. rewrite destroyBlock_blocks, Hnum.
        rewrite lookup_delete_ne by (intros ->; done).
        apply Hreg. by right.
    + destruct (IH c Hk) as (IH1 & IH2 & IH3). unfold skip. cbn [fst snd].
      split; [|split].
      * intros k. rewrite IH1.
        destruct (decide (k = id)) as [->|Hne].
        -- rewrite (decide_True (P := id ∈ id :: ids)) by left.
           by case_decide.
        -- destruct (decide (k ∈ ids)) as [Hin|Hnin].
           ++ rewrite decide_True; [done | by right].
           ++ rewrite decide_False; [done|].
              intros H. apply elem_of_cons in H as [?|?]; done.
      * intros id' b' Hin Hb'.
        apply elem_of_cons in Hin as [->|Hin]; [congruence|].
        by apply (IH2 id' b').
      * intros _ Hreg. destruct (Hreg id) as [b Hb']; [left | congruence].
Qed.

Lemma destroyEachBlockId_keyed ids c :
  registryKeyed c -> NoDup ids ->
  (forall id, id ∈ ids -> is_Some (blocks c !! id)) ->
  destroyEachBlockId ids c
  = Some ((forEachBlockId ids
             (fun block _ => removeBlockFromCache block) c).1,
          (forEachBlockId ids
             (fun block _ => removeBlockFromCache block) c).2).
Proof.
  unfold forEachBlockId. revert c.
  induction ids as [|id ids IH]; intros c Hk Hnd Hreg; [done|].
  apply NoDup_cons in Hnd as [Hid Hnd].
  destruct (Hreg id) as [b Hb]; [left|].
  pose proof (Hk _ _ Hb) as Hnum.
  cbn [destroyEachBlockId forEach]. unfold andThen. cbn [fst snd].
  rewrite Hb. cbn [removeBlockFromCache].
  rewrite IH; [done | by apply destroyBlock_registryKeyed | done |].
  intros id' Hin. rewrite destroyBlock_blocks, Hnum.
  rewrite lookup_delete_ne by (intros ->; done). apply Hreg. by right.
Qed.

Lemma all_keys_removed (m m' : gmap Z Block) (ids : list Z) :
  (forall id, id ∈ ids <-> is_Some (m !! id)) ->
  (forall k, m' !! k = if decide (k ∈ ids) then None else m !! k) ->
  m' = ∅.
Proof.
  intros Hids Hm'. apply map_eq. intros k. rewrite Hm', lookup_empty.
  case_decide as Hin; [done|].
  destruct (m !! k) eqn:E; [|done].
  exfalso. apply Hin, Hids. by rewrite E.
Qed.

(** X8: on a registry whose blocks are stored under their own numbers
    [destroyAllBlocks] does not throw; it leaves the registry empty, has
    destroyed every block and taken it off the loader, lowers
    [blockCount] by the number of blocks and touches neither the row
    count nor the flags. *)
Theorem destroyAllBlocks_empties_registry c :
  registryKeyed c ->
  exists c' t,
    destroyAllBlocks c = Some (c', t)
    /\ blocks c' = ∅
    /\ blockCount c' = blockCount c - Z.of_nat (size (blocks c))
    /\ sameSettings c c'
    /\ (forall id b, blocks c !! id = Some b ->
          DestroyBean (objId b) ∈ t /\ LoaderRemoveBlock (objId b) ∈ t).
Proof.
  intros Hk. unfold destroyAllBlocks.
  pose proof (NoDup_getBlockIdsSorted c) as Hnd.
  assert (Hreg : forall id, id ∈ getBlockIdsSorted c
                            -> is_Some (blocks c !! id))
    by (intros id; apply elem_of_getBlockIdsSorted).
  rewrite destroyEachBlockId_keyed by done.
  destruct (forEach_remove_keyed (getBlockIdsSorted c) c Hk)
    as (H1 & H2 & H3).
  eexists _, _. split; [reflexivity|]. split; [|split; [|split]].
  - eapply all_keys_removed; [apply elem_of_getBlockIdsSorted | exact H1].
  - rewrite H3 by done.
    by rewrite length_getBlockIdsSorted.
  - apply forEach_sameSettings. intros id c0.
    destruct (blocks c0 !! id); simpl;
      [apply destroyBlock_sameSettings | apply sameSettings_refl].
  - intros id b Hb. apply (H2 id b); [|done].
    apply elem_of_getBlockIdsSorted. by rewrite Hb.
Qed.

Lemma blocksToDestroy_empty c : blocks c = ∅ -> blocksToDestroy c = [].
Proof.
  intros He. apply elem_of_nil_inv. intros b Hb.
  apply elem_of_blocksToDestroy in Hb as (id & Hb & _).
  by rewrite He, lookup_empty in Hb.
Qed.

Lemma onCacheUpdated_nothing_past c :
  blocksToDestroy c = [] ->
  onCacheUpdated c = (c, if active c then [DispatchCacheUpdated] else []).
Proof.
  intros He. unfold onCacheUpdated, destroyAllBlocksPastVirtualRowCount.
  destruct (active c); [|done]. unfold andThen, emit. by rewrite He.
Qed.

Lemma purgeCache_steps c :
  registryKeyed c ->
  let r := forEachBlockId (getBlockIdsSorted c)
             (fun block _ => removeBlockFromCache block) c in
  blocks r.1 = ∅
  /\ blockCount r.1 = blockCount c - Z.of_nat (size (blocks c))
  /\ blocks (purgeCache c).1 = blocks r.1
  /\ blockCount (purgeCache c).1 = blockCount r.1
  /\ exists rest, (purgeCache c).2 = r.2 ++ rest.
Proof.
  intros Hk r.
  destruct (forEach_remove_keyed (getBlockIdsSorted c) c Hk)
    as (H1 & _ & H3).
  cbv zeta in *. fold r in H1, H3.
  assert (Hempty : blocks r.1 = ∅).
  { eapply all_keys_removed; [apply elem_of_getBlockIdsSorted | exact H1]. }
  assert (Hcount : blockCount r.1
                   = blockCount c - Z.of_nat (size (blocks c))).
  { rewrite H3; [|apply NoDup_getBlockIdsSorted
                 |intros id; apply elem_of_getBlockIdsSorted].
    by rewrite length_getBlockIdsSorted. }
  split; [done|]. split; [done|].
  unfold purgeCache, forEachBlockInOrder. step_actions. fold r.
  set (c2 := if virtualRowCount (with_maxRowFound false r.1) =? 0
             then with_virtualRowCount
                    (initialRowCount (cacheParams (with_maxRowFound false r.1)))
                    (with_maxRowFound false r.1)
             else with_maxRowFound false r.1).
  assert (Hc2 : blocks c2 = blocks r.1 /\ blockCount c2 = blockCount r.1)
    by (subst c2; by case_match).
  destruct Hc2 as [Hb2 Hn2].
  rewrite onCacheUpdated_nothing_past
    by (apply blocksToDestroy_empty; congruence).
  cbn [fst snd]. split; [done|]. split; [done|]. by eexists.
Qed.

(** X9: on a registry whose blocks are stored under their own numbers
    [purgeCache] leaves the registry empty, whether the cache is active
    or not; every block has been destroyed and taken off the loader, and
    [blockCount] is lower by the number of blocks. *)
Theorem purgeCache_empties_registry c :
  registryKeyed c ->
  blocks (purgeCache c).1 = ∅
  /\ blockCount (purgeCache c).1 = blockCount c - Z.of_nat (size (blocks c))
  /\ (forall id b, blocks c !! id = Some b ->
        DestroyBean (objId b) ∈ (purgeCache c).2
        /\ LoaderRemoveBlock (objId b) ∈ (purgeCache c).2).
Proof.
  intros Hk.
  destruct (purgeCache_steps c Hk) as (He & Hn & -> & -> & rest & ->).
  split; [done|]. split; [done|].
  intros id b Hb.
  destruct (forEach_remove_keyed (getBlockIdsSorted c) c Hk) as (_ & H2 & _).
  destruct (H2 id b) as [Hd Hl]; [|done|].
  - apply elem_of_getBlockIdsSorted. by rewrite Hb.
  - rewrite !elem_of_app. by split; left.
Qed.

(** *** Repeating a cache-updated pass *)

Lemma onCacheUpdated_leaves_nothing_past c :
  registryKeyed c -> active c = true ->
  blocksToDestroy (onCacheUpdated c).1 = [].
Proof.
  intros Hk Ha.
  destruct (onCacheUpdated_sameSettings c) as (Hv & _ & _ & Hp & _).
  apply elem_of_nil_inv. intros b Hb.
  apply elem_of_blocksToDestroy in Hb as (id & Hb & Hpast).
  rewrite Hv, Hp in Hpast.
  assert (Hb0 : blocks c !! id = Some b).
  { by apply (lookup_weaken _ _ _ _ Hb), onCacheUpdated_shrinks. }
  destruct (onCacheUpdated_pastCountDestroyed c Hk Ha id b Hb0) as [H _].
  rewrite Hv in H. destruct (H Hpast) as [Hnone _]. congruence.
Qed.

(** X10: a second cache-updated pass right after the first changes
    nothing: on a registry whose blocks are stored under their own
    numbers it finds no block left to destroy and, when the cache is
    active, only dispatches the event again. *)
Theorem onCacheUpdated_twice c :
  registryKeyed c ->
  onCacheUpdated (onCacheUpdated c).1
  = ((onCacheUpdated c).1, if active c then [DispatchCacheUpdated] else []).
Proof.
  intros Hk. destruct (active c) eqn:Ha.
  - destruct (onCacheUpdated_sameSettings c) as (_ & _ & Ha' & _).
    rewrite onCacheUpdated_nothing_past
      by by apply onCacheUpdated_leaves_nothing_past.
    by rewrite Ha', Ha.
  - rewrite !onCacheUpdated_inactive; by rewrite ?onCacheUpdated_inactive.
Qed.

Lemma setVirtualRowCount_assign rowCount m c :
  (setVirtualRowCount rowCount m c).1
  = (onCacheUpdated (assignVirtualRowCount rowCount m c)).1.
Proof. done. Qed.

Lemma assignVirtualRowCount_fixed rowCount m c c' :
  cacheParams c' = cacheParams c ->
  virtualRowCount c' = virtualRowCount (assignVirtualRowCount rowCount m c) ->
  maxRowFound c' = maxRowFound (assignVirtualRowCount rowCount m c) ->
  assignVirtualRowCount rowCount m c' = c'.
Proof.
  destruct c as [v f r p a bs n], c' as [v' f' r' p' a' bs' n'].
  unfold assignVirtualRowCount. cbn. intros -> Hv Hf.
  destruct m as [[|]|], f, f'; cbn in *;
    repeat (case_match; cbn in *); subst; try done; try congruence.
Qed.

(** X11: [setVirtualRowCount] is idempotent: on a registry whose blocks
    are stored under their own numbers, a second call with the same
    arguments leaves the cache exactly as the first call left it. *)
Theorem setVirtualRowCount_idempotent rowCount m c :
  registryKeyed c ->
  (setVirtualRowCount rowCount m (setVirtualRowCount rowCount m c).1).1
  = (setVirtualRowCount rowCount m c).1.
Proof.
  intros Hk. rewrite !setVirtualRowCount_assign.
  set (c2 := assignVirtualRowCount rowCount m c).
  assert (Hk2 : registryKeyed c2).
  { intros id b Hb. apply Hk. subst c2. unfold assignVirtualRowCount in Hb.
    by repeat case_match. }
  assert (Hp2 : cacheParams c2 = cacheParams c).
  { subst c2. unfold assignVirtualRowCount. by repeat case_match. }
  destruct (onCacheUpdated_sameSettings c2) as (Hv & Hf & _ & Hp & _).
  rewrite (assignVirtualRowCount_fixed rowCount m c (onCacheUpdated c2).1);
    [|by rewrite Hp|exact Hv|exact Hf].
  destruct (active c2) eqn:Ha.
  - by rewrite onCacheUpdated_nothing_past
      by by apply onCacheUpdated_leaves_nothing_past.
  - by rewrite !onCacheUpdated_inactive
      by by rewrite ?onCacheUpdated_inactive.
Qed.

(** *** The block count over cache operations *)

Lemma destroyBlock_countsKeys_diff b c :
  is_Some (blocks c !! getBlockNumber b) ->
  blockCount (destroyBlock b c).1
  - Z.of_nat (size (blocks (destroyBlock b c).1))
  = blockCount c - Z.of_nat (size (blocks c)).
Proof. intros H. by apply (runRegistryOp_fits (OpDestroyBlock b) c). Qed.

Lemma forEach_destroyBlock_countsKeys_diff (l : list Block) c :
  NoDup (getBlockNumber <$> l) ->
  (forall x, x ∈ l -> is_Some (blocks c !! getBlockNumber x)) ->
  blockCount (forEach l destroyBlock c).1
  - Z.of_nat (size (blocks (forEach l destroyBlock c).1))
  = blockCount c - Z.of_nat (size (blocks c)).
Proof.
  revert c. induction l as [|x l IH]; intros c Hnd Hreg; [done|].
  rewrite fmap_cons in Hnd. apply NoDup_cons in Hnd as [Hx Hnd].
  cbn [forEach]. unfold andThen at 1 2. cbn [fst].
  rewrite IH; [apply destroyBlock_countsKeys_diff, Hreg; left | done |].
  intros y Hy. rewrite destroyBlock_blocks, lookup_delete_ne.
  - apply Hreg. by right.
  - intros Heq. apply Hx. rewrite Heq. by apply list_elem_of_fmap_2.
Qed.

Lemma forEachFrom_purgeStep_countsKeys_diff (l : list Block) i c :
  NoDup (getBlockNumber <$> l) ->
  (forall x, x ∈ l -> is_Some (blocks c !! getBlockNumber x)) ->
  blockCount (forEachFrom i l purgeStep c).1
  - Z.of_nat (size (blocks (forEachFrom i l purgeStep c).1))
  = blockCount c - Z.of_nat (size (blocks c)).
Proof.
  revert i c. induction l as [|x l IH]; intros i c Hnd Hreg; [done|].
  rewrite fmap_cons in Hnd. apply NoDup_cons in Hnd as [Hx Hnd].
  cbn [forEachFrom]. unfold andThen at 1 2. cbn [fst].
  destruct (purgeStep_cases x i c) as [-> | (-> & _)].
  - apply IH; [done|]. intros y Hy. apply Hreg. by right.
  - rewrite IH; [apply destroyBlock_countsKeys_diff, Hreg; left | done |].
    intros y Hy. rewrite destroyBlock_blocks, lookup_delete_ne.
    + apply Hreg. by right.
    + intros Heq. apply Hx. rewrite Heq. by apply list_elem_of_fmap_2.
Qed.

Lemma NoDup_blocksToDestroy_numbers c :
  registryKeyed c -> NoDup (getBlockNumber <$> blocksToDestroy c).
Proof.
  intros Hk. unfold blocksToDestroy.
  eapply sublist_NoDup;
    [|apply fmap_sublist, fmap_sublist, sublist_filter].
  rewrite blocksInOrder_numbers by done. apply NoDup_getBlockIdsSorted.
Qed.

Lemma onCacheUpdated_countsKeys c :
  registryKeyed c -> countsKeys c -> countsKeys (onCacheUpdated c).1.
Proof.
  intros Hk Hc. unfold countsKeys in *. unfold onCacheUpdated.
  destruct (active c); [|done]. unfold andThen, emit. cbn [fst].
  unfold destroyAllBlocksPastVirtualRowCount.
  pose proof (forEach_destroyBlock_countsKeys_diff (blocksToDestroy c) c
                (NoDup_blocksToDestroy_numbers c Hk)) as H.
  rewrite Hc in H. cut (forall x, x ∈ blocksToDestroy c ->
                          is_Some (blocks c !! getBlockNumber x)).
  { intros Hreg. specialize (H Hreg). lia. }
  intros x Hx. apply elem_of_blocksToDestroy in Hx as (id & Hx & _).
  rewrite (Hk _ _ Hx). by rewrite Hx.
Qed.

Lemma purgeBlocksIfNeeded_countsKeys b c :
  registryKeyed c -> countsKeys c -> countsKeys (purgeBlocksIfNeeded b c).1.
Proof.
  intros Hk Hc. unfold countsKeys in *. unfold purgeBlocksIfNeeded.
  pose proof (forEachFrom_purgeStep_countsKeys_diff
                (sortByLastAccessed (blocksForPurging b c)) 0 c) as H.
  rewrite Hc in H.
  cut (NoDup (getBlockNumber <$> sortByLastAccessed (blocksForPurging b c))
       /\ forall x, x ∈ sortByLastAccessed (blocksForPurging b c) ->
                    is_Some (blocks c !! getBlockNumber x)).
  { intros [H1 H2]. specialize (H H1 H2). lia. }
  split.
  - rewrite sortByLastAccessed_Permutation.
    by apply NoDup_blocksForPurging_numbers.
  - intros x Hx. rewrite sortByLastAccessed_Permutation in Hx.
    apply elem_of_blocksForPurging in Hx as (_ & id & Hx).
    rewrite (Hk _ _ Hx). by rewrite Hx.
Qed.

Lemma runOp_countsKeys op c :
  registryKeyed c -> countsKeys c -> cacheOpFits op c ->
  countsKeys (runOp op c).1.
Proof.
  intros Hk Hc Hfit. destruct op as [n m|ev|b|]; cbn [runOp cacheOpFits] in *.
  - rewrite setVirtualRowCount_assign.
    apply onCacheUpdated_countsKeys.
    + intros id b Hb. apply Hk. unfold assignVirtualRowCount in Hb.
      by repeat case_match.
    + unfold countsKeys, assignVirtualRowCount in *. by repeat case_match.
  - destruct (onPageLoaded_cases ev c) as [-> | ->]; [done|].
    apply onCacheUpdated_countsKeys.
    + intros id b Hb. apply Hk.
      unfold checkVirtualRowCount, modify, growVirtualRowCount in Hb.
      cbn [fst] in Hb. by repeat case_match.
    + unfold countsKeys, checkVirtualRowCount, modify,
        growVirtualRowCount in *. cbn [fst]. by repeat case_match.
  - assert (E : (postCreateBlock b c).1
                = (purgeBlocksIfNeeded b
                     (setBlock (getBlockNumber b) b c).1).1) by done.
    rewrite E. apply purgeBlocksIfNeeded_countsKeys.
    + by apply setBlock_registryKeyed.
    + unfold countsKeys in *.
      rewrite setBlock_blockCount, setBlock_blocks.
      rewrite map_size_insert_None by done. lia.
  - destruct (purgeCache_steps c Hk) as (He & Hn & Hb & Hc' & _).
    unfold countsKeys in *. rewrite Hb, Hc', He, Hn, map_size_empty. lia.
Qed.

(** X12: from a cache in which [blockCount] is the number of registered
    blocks and every block is stored under its own number, every sequence
    of cache operations that creates blocks only under free block numbers
    keeps [blockCount] equal to the number of registered blocks. *)
Theorem blockCount_counts_keys_over_cache_ops ops c :
  registryKeyed c -> countsKeys c -> cacheOpsFit ops c ->
  countsKeys (runOps ops c).1.
Proof.
  revert c. induction ops as [|op ops IH]; intros c Hk Hc Hfit; [done|].
  destruct Hfit as [Hop Hrest].
  unfold runOps. cbn [forEach]. unfold andThen. cbn [fst].
  apply IH; [by apply runOp_registryKeyed | by apply runOp_countsKeys | done].
Qed.

(** *** Eviction: what is spared *)

Lemma forEachFrom_purgeStep_spared (l : list Block) i c k :
  (forall (n : nat) x, l !! n = Some x -> getBlockNumber x = k ->
     purgeBecauseBlockEmpty x (i + Z.of_nat n)
     || purgeBecauseCacheFull (cacheParams c) (i + Z.of_nat n) = false) ->
  blocks (forEachFrom i l purgeStep c).1 !! k = blocks c !! k.
Proof.
  revert i c. induction l as [|x l IH]; intros i c Hsp; [done|].
  cbn [forEachFrom]. unfold andThen at 1. cbn [fst].
  assert (Hl : forall c', sameSettings c c' ->
             blocks (forEachFrom (i + 1) l purgeStep c').1 !! k
             = blocks c' !! k).
  { intros c' (_ & _ & _ & Hp & _). apply IH. intros n y Hy Hk.
    rewrite Hp. replace (i + 1 + Z.of_nat n) with (i + Z.of_nat (S n)) by lia.
    by apply (Hsp (S n) y). }
  rewrite Hl by apply purgeStep_sameSettings.
  destruct (purgeStep_cases x i c) as [-> | (-> & Hflags & _)]; [done|].
  rewrite destroyBlock_blocks. apply lookup_delete_ne. intros Hk.
  specialize (Hsp 0%nat x eq_refl Hk). rewrite Z.add_0_r in Hsp. congruence.
Qed.

(** X13: [postCreateBlock] always leaves the new block registered under
    its number: the eviction pass that follows the insertion never
    removes the block that was just created, whatever the cap, the
    recency order and the states of the blocks are. *)
Theorem postCreateBlock_registers_new_block c newBlock :
  registryKeyed c ->
  getBlock (postCreateBlock newBlock c).1 (getBlockNumber newBlock)
  = Some newBlock.
Proof.
  intros Hk. unfold getBlock.
  set (c1 := (setBlock (getBlockNumber newBlock) newBlock c).1).
  assert (E : (postCreateBlock newBlock c).1
              = (purgeBlocksIfNeeded newBlock c1).1) by done.
  rewrite E. unfold purgeBlocksIfNeeded.
  rewrite forEachFrom_purgeStep_keeps.
  - subst c1. rewrite setBlock_blocks. apply lookup_insert_eq.
  - intros x Hx Hnum. exfalso.
    rewrite sortByLastAccessed_Permutation in Hx.
    apply elem_of_blocksForPurging in Hx as (Hne & id & Hx).
    pose proof (setBlock_registryKeyed newBlock c Hk _ _ Hx) as Hid.
    subst c1. rewrite setBlock_blocks in Hx.
    rewrite <- Hid, Hnum, lookup_insert_eq in Hx. congruence.
Qed.

Lemma purgeBecauseCacheFull_noBlockCap p i :
  noBlockCap p -> purgeBecauseCacheFull p i = false.
Proof.
  unfold noBlockCap, purgeBecauseCacheFull.
  destruct (maxBlocksInCache p) as [n|]; [|done].
  intros Hn. by destruct (Z.ltb_spec 0 n); [lia|].
Qed.

(** X14: when no cap is in force ([maxBlocksInCache] not set or not
    positive), the eviction pass of [postCreateBlock] removes no block
    that is in another state than [STATE_DIRTY]: on a registry whose
    blocks are stored under their own numbers every loading, loaded or
    failed block is still registered afterwards. *)
Theorem eviction_without_cap_keeps_non_dirty_blocks c newBlock id b :
  registryKeyed c ->
  noBlockCap (cacheParams c) ->
  blocks (setBlock (getBlockNumber newBlock) newBlock c).1 !! id = Some b ->
  getState b <> STATE_DIRTY ->
  blocks (postCreateBlock newBlock c).1 !! id = Some b.
Proof.
  intros Hk Hcap Hb Hstate.
  set (c1 := (setBlock (getBlockNumber newBlock) newBlock c).1) in *.
  assert (E : (postCreateBlock newBlock c).1
              = (purgeBlocksIfNeeded newBlock c1).1) by done.
  rewrite E. unfold purgeBlocksIfNeeded.
  rewrite forEachFrom_purgeStep_spared; [done|].
  intros n x Hx Hnum.
  apply list_elem_of_lookup_2 in Hx.
  rewrite sortByLastAccessed_Permutation in Hx.
  apply elem_of_blocksForPurging in Hx as (_ & id' & Hx).
  pose proof (setBlock_registryKeyed newBlock c Hk _ _ Hx) as Hid.
  assert (x = b) as -> by (fold c1 in Hx; congruence).
  rewrite purgeBecauseCacheFull_noBlockCap by done.
  rewrite orb_false_r. unfold purgeBecauseBlockEmpty.
  by destruct (getState b).
Qed.

(** X15: unless [maxBlocksInCache] is [1], the most recently accessed
    of the candidates is never evicted by the pass of [postCreateBlock],
    whatever its state. *)
Theorem eviction_keeps_most_recent_candidate c newBlock x :
  registryKeyed c ->
  maxBlocksInCache (cacheParams c) <> Some 1 ->
  head (sortByLastAccessed
          (blocksForPurging newBlock
             (setBlock (getBlockNumber newBlock) newBlock c).1)) = Some x ->
  blocks (postCreateBlock newBlock c).1 !! getBlockNumber x = Some x.
Proof.
  intros Hk Hcap Hhead.
  set (c1 := (setBlock (getBlockNumber newBlock) newBlock c).1) in *.
  assert (Hk1 : registryKeyed c1) by by apply setBlock_registryKeyed.
  set (l := sortByLastAccessed (blocksForPurging newBlock c1)) in *.
  assert (Hnd : NoDup (getBlockNumber <$> l)).
  { subst l. rewrite sortByLastAccessed_Permutation.
    by apply NoDup_blocksForPurging_numbers. }
  assert (Hl0 : l !! 0%nat = Some x) by by destruct l.
  assert (Hreg : blocks c1 !! getBlockNumber x = Some x).
  { apply list_elem_of_lookup_2 in Hl0. subst l.
    rewrite sortByLastAccessed_Permutation in Hl0.
    apply elem_of_blocksForPurging in Hl0 as (_ & id' & Hx).
    by rewrite (Hk1 _ _ Hx). }
  assert (E : (postCreateBlock newBlock c).1
              = (purgeBlocksIfNeeded newBlock c1).1) by done.
  rewrite E. unfold purgeBlocksIfNeeded. fold l.
  rewrite forEachFrom_purgeStep_spared; [done|].
  intros n y Hy Hnum.
  assert (n = 0%nat) as ->.
  { eapply NoDup_lookup; [exact Hnd|..]; rewrite list_lookup_fmap;
      [rewrite Hy | rewrite Hl0]; simpl; by rewrite ?Hnum. }
  replace (0 + Z.of_nat 0) with 0 by lia.
  apply orb_false_iff. split.
  - unfold purgeBecauseBlockEmpty. apply andb_false_iff. by right.
  - unfold purgeBecauseCacheFull.
    change (cacheParams c1) with (cacheParams c).
    destruct (maxBlocksInCache (cacheParams c)) as [N|]; [|done].
    destruct (Z.ltb_spec 0 N); [|done].
    destruct (Z.leb_spec (N - 1) 0); [|done].
    exfalso. apply Hcap. f_equal. lia.
Qed.

(** X16: when no candidate is exempt, a candidate that is in state
    [STATE_DIRTY] stays registered only at rank [0]: every [STATE_DIRTY]
    candidate at rank [>= 1] is evicted, whatever [maxBlocksInCache] is,
    so next to the new block at most one not yet loaded block is kept. *)
Theorem eviction_keeps_one_dirty_candidate c newBlock (n : nat) x :
  let c1 := (setBlock (getBlockNumber newBlock) newBlock c).1 in
  let candidates := sortByLastAccessed (blocksForPurging newBlock c1) in
  noneExempt c1 candidates ->
  candidates !! n = Some x ->
  (1 <= n)%nat ->
  getState x = STATE_DIRTY ->
  blocks (postCreateBlock newBlock c).1 !! getBlockNumber x = None.
Proof.
  intros c1 candidates Hnone Hx Hn Hstate.
  assert (E : (postCreateBlock newBlock c).1
              = (forEachFrom 0 candidates purgeStep c1).1) by done.
  rewrite E, forEachFrom_purgeStep_noneExempt by exact Hnone.
  rewrite forEach_destroyBlock_blocks, decide_True; [done|].
  apply list_elem_of_fmap_2, elem_of_purgedFrom. exists n. split; [done|].
  apply orb_true_iff. left.
  unfold purgeBecauseBlockEmpty. rewrite Hstate.
  apply andb_true_iff. split; [done|].
  apply Z.leb_le. unfold MAX_EMPTY_BLOCKS_TO_KEEP. lia.
Qed.

(** *** Range selection from the top *)

Lemma rowWalk_closing first last w l1 b l2 :
  quiet first last l1 ->
  isAnchor b first || isAnchor b last = true ->
  quiet first last l2 ->
  inActiveRange w = true ->
  foldl (visitRow first last) w (l1 ++ b :: l2)
  = {| result := result w ++ l1 ++ [b]; lastBlockId := lastBlockId w;
       inActiveRange := false;
       foundGapInSelection := foundGapInSelection w |}.
Proof.
  intros H1 Hb H2 Hin.
  rewrite foldl_app, (rowWalk_quiet_inside first last w l1) by done.
  cbn [foldl]. rewrite visitRow_hit by done.
  rewrite rowWalk_quiet_outside; [|done|done]. cbn.
  by rewrite <- app_assoc.
Qed.

(** X17: with [firstInRange] absent, no negative block number
    registered, every row handed out once and all block numbers from [0]
    to the block of [lastInRange] registered, [getRowNodesInRange] returns
    the rows from the very first row to [lastInRange] inclusive. *)
Theorem getRowNodesInRange_from_top c b l1 l2 j bj :
  NoDup (rowsInOrder c) ->
  rowsInOrder c = l1 ++ b :: l2 ->
  (forall k, is_Some (blocks c !! k) -> 0 <= k) ->
  blocks c !! j = Some bj ->
  b ∈ forEachNodeShallow bj (virtualRowCount c) ->
  (forall m, 0 <= m <= j -> is_Some (blocks c !! m)) ->
  getRowNodesInRange c None (Some b) = l1 ++ [b].
Proof.
  intros Hnd Hrows Hnonneg Hbj Hb Hall.
  pose proof (StronglySorted_blocksInOrder c) as Hs.
  pose proof (NoDup_blocksInOrder c) as Hndk.
  destruct (sorted_blocks_split (blocksInOrder c) (j + 1) Hs)
    as (run & post & HL & Hrun & Hpost).
  rewrite HL, fmap_app in Hs, Hndk.
  apply StronglySorted_app_1_l in Hs.
  apply NoDup_app in Hndk as (Hndk & _ & _).
  assert (Hreg : forall ib, ib ∈ run -> blocks c !! ib.1 = Some ib.2).
  { intros [id blk] Hin. apply elem_of_blocksInOrder. rewrite HL.
    apply elem_of_app. by left. }
  assert (Hin : forall id blk, blocks c !! id = Some blk -> id <= j ->
                               (id, blk) ∈ run).
  { intros id blk Hid Hle. apply elem_of_blocksInOrder in Hid.
    rewrite HL in Hid. apply elem_of_app in Hid as [|Hid]; [done|].
    apply Hpost in Hid. simpl in Hid. lia. }
  assert (Hcons : consecutiveFrom 0 run.*1).
  { apply (consecutiveFrom_filled 0 j); [done | done | |].
    - intros id Hid. apply list_elem_of_fmap in Hid as (ib & -> & Hib).
      split; [|specialize (Hrun ib Hib); lia].
      apply Hnonneg. rewrite (Hreg ib Hib). done.
    - intros m Hm. destruct (Hall m Hm) as [blk Hblk].
      apply list_elem_of_fmap. exists (m, blk). split; [done|].
      apply Hin; [done | lia]. }
  assert (Hbrun : b ∈ rowsOf (virtualRowCount c) run).
  { apply elem_of_rowsOf. exists (j, bj). split; [apply Hin; [done|lia] | done]. }
  unfold rowsInOrder in Hnd, Hrows. rewrite HL, rowsOf_app in Hnd, Hrows.
  apply list_elem_of_split in Hbrun as (p & q & Hprun).
  rewrite Hprun, <- app_assoc in Hnd, Hrows. cbn [app] in Hnd, Hrows.
  destruct (NoDup_split_unique _ _ _ _ _ Hnd Hrows) as [-> <-].
  apply NoDup_app in Hnd as (_ & Hp & Hnd).
  apply NoDup_cons in Hnd as [Hq _].
  assert (Hquiet : forall rows, (forall r, r ∈ rows -> r <> b) ->
                                quiet None (Some b) rows).
  { intros rows Hne r Hr. cbn. apply Nat.eqb_neq. by apply Hne. }
  assert (Hqp : quiet None (Some b) l1).
  { apply Hquiet. intros r Hr ->. apply (Hp b Hr). left. }
  assert (Hqq : quiet None (Some b) q).
  { apply Hquiet. intros r Hr ->. apply Hq, elem_of_app. by left. }
  assert (Hqpost : quiet None (Some b) (rowsOf (virtualRowCount c) post)).
  { apply Hquiet. intros r Hr ->. apply Hq, elem_of_app. by right. }
  unfold getRowNodesInRange. rewrite HL, foldl_app.
  rewrite (blockWalk_consecutive None (Some b) (virtualRowCount c)
             (rangeWalkStart None) 0 run); [|done|done|done].
  rewrite Hprun.
  rewrite (rowWalk_closing None (Some b) (rangeWalkStart None) l1 b q);
    [|done|cbn; by rewrite Nat.eqb_refl|done|done].
  rewrite blockWalk_quiet_outside by done. done.
Qed.

(** *** Provisional growth of the row count *)

Lemma growVirtualRowCount_cases block c :
  growVirtualRowCount block c = c
  \/ (maxRowFound c = false
      /\ virtualRowCount c
         < (getBlockNumber block + 1) * blockSize (cacheParams c)
           + overflowSize (cacheParams c)
      /\ growVirtualRowCount block c
         = with_virtualRowCount
             ((getBlockNumber block + 1) * blockSize (cacheParams c)
              + overflowSize (cacheParams c)) c).
Proof.
  unfold growVirtualRowCount. destruct (maxRowFound c); [by left|].
  cbn [negb].
  destruct (Z.ltb_spec (virtualRowCount c)
              ((getBlockNumber block + 1) * blockSize (cacheParams c)
               + overflowSize (cacheParams c))); [by right | by left].
Qed.

Lemma runOp_heuristicOnly op c :
  heuristicOnly op ->
  virtualRowCount c <= virtualRowCount (runOp op c).1
  /\ maxRowFound (runOp op c).1 = maxRowFound c
  /\ active (runOp op c).1 = active c
  /\ cacheParams (runOp op c).1 = cacheParams c.
Proof.
  intros Hop. destruct op as [n m|ev|b|]; cbn [runOp heuristicOnly] in *;
    [done| | |done].
  - destruct (onPageLoaded_cases ev c) as [-> | ->]; [by repeat split; lia|].
    destruct (onCacheUpdated_sameSettings
                (checkVirtualRowCount (page ev) (lastRow ev) c).1)
      as (-> & -> & -> & -> & _).
    rewrite checkVirtualRowCount_no_lastRow.
    + destruct (growVirtualRowCount_cases (page ev) c)
        as [-> | (_ & Hlt & ->)]; cbn; repeat split; lia.
    + destruct (lastRow ev) as [l|]; [right; by exists l | by left].
  - destruct (postCreateBlock_sameSettings b c) as (-> & -> & -> & -> & _).
    repeat split; lia.
Qed.

(** X18: over every sequence of block creations and load completions
    that bring no authoritative last row, [virtualRowCount] never
    decreases and [maxRowFound] stays as it is. *)
Theorem heuristic_operations_never_shrink_count ops c :
  Forall heuristicOnly ops ->
  virtualRowCount c <= virtualRowCount (runOps ops c).1
  /\ maxRowFound (runOps ops c).1 = maxRowFound c.
Proof.
  revert c. induction ops as [|op ops IH]; intros c Hops; [done|].
  apply Forall_cons in Hops as [Hop Hops].
  destruct (runOp_heuristicOnly op c Hop) as (Hv & Hm & _).
  destruct (IH (runOp op c).1 Hops) as [Hv' Hm'].
  unfold runOps in *. cbn [forEach]. unfold andThen. cbn [fst].
  split; [lia | congruence].
Qed.

Lemma runOps_heuristic_count ops c :
  Forall heuristicOnly ops ->
  active c = true -> maxRowFound c = false ->
  virtualRowCount (runOps ops c).1
  = foldr Z.max (virtualRowCount c) (candidateEnds (cacheParams c) ops).
Proof.
  revert c. induction ops as [|op ops IH]; intros c Hops Ha Hm; [done|].
  apply Forall_cons in Hops as [Hop Hops].
  destruct (runOp_heuristicOnly op c Hop) as (_ & Hm1 & Ha1 & Hp1).
  unfold runOps in *. cbn [forEach]. unfold andThen. cbn [fst].
  rewrite IH by congruence. rewrite Hp1. clear IH.
  assert (Hmax : forall (l : list Z) v e,
            foldr Z.max (Z.max v e) l = Z.max e (foldr Z.max v l)).
  { induction l as [|x l IHl]; intros v e; cbn; [lia|]. rewrite IHl. lia. }
  destruct op as [n m|ev|b|]; cbn [runOp heuristicOnly] in *; [done| | |done].
  - cbn [candidateEnds omap list_omap]. fold (candidateEnds (cacheParams c) ops).
    destruct (success ev) eqn:Hs.
    + rewrite onPageLoaded_active_success by done.
      destruct (onCacheUpdated_sameSettings
                  (checkVirtualRowCount (page ev) (lastRow ev) c).1)
        as (-> & _).
      rewrite checkVirtualRowCount_no_lastRow
        by (destruct (lastRow ev) as [l|]; [right; by exists l | by left]).
      destruct (growVirtualRowCount_max (page ev) c Hm) as [-> _].
      cbn [foldr]. apply Hmax.
    + by rewrite onPageLoaded_active_failure.
  - cbn [candidateEnds omap list_omap]. fold (candidateEnds (cacheParams c) ops).
    by destruct (postCreateBlock_sameSettings b c) as (-> & _).
Qed.

(** X19: on an active cache that has not found the last row, the count
    after a sequence of block creations and load completions without an
    authoritative last row is the maximum of the old count and of
    [(blockNumber + 1) * blockSize + overflowSize] over the successful
    completions; so it does not depend on the order in which the loads
    complete. *)
Theorem heuristic_count_is_order_independent ops ops' c :
  Forall heuristicOnly ops ->
  active c = true -> maxRowFound c = false ->
  virtualRowCount (runOps ops c).1
  = foldr Z.max (virtualRowCount c) (candidateEnds (cacheParams c) ops)
  /\ (ops ≡ₚ ops' ->
      virtualRowCount (runOps ops' c).1 = virtualRowCount (runOps ops c).1).
Proof.
  intros Hops Ha Hm. split; [by apply runOps_heuristic_count|].
  intros Hperm.
  rewrite !runOps_heuristic_count; [|done..| by rewrite <- Hperm|done|done].
  assert (Hends : candidateEnds (cacheParams c) ops
                  ≡ₚ candidateEnds (cacheParams c) ops').
  { unfold candidateEnds. by rewrite Hperm. }
  apply (foldr_permutation (=) Z.max (virtualRowCount c)); [|by symmetry].
  intros j1 a1 j2 a2 z _ _ _. lia.
Qed.

(** *** What an operation can add to the registry *)

(** X20: no operation puts a block into the registry or replaces one,
    except [postCreateBlock] with the block it is given: after every
    other operation the registry is a part of what it was, and after
    [postCreateBlock] a part of the old registry with the new block
    inserted. *)
Theorem registry_grows_only_by_created_block op c :
  blocks (runOp op c).1 ⊆ registryBound op c.
Proof.
  destruct op as [n m|ev|b|]; cbn [runOp registryBound].
  - rewrite setVirtualRowCount_assign.
    etrans; [apply onCacheUpdated_shrinks|].
    unfold assignVirtualRowCount. by repeat case_match.
  - destruct (onPageLoaded_cases ev c) as [-> | ->]; [done|].
    etrans; [apply onCacheUpdated_shrinks|].
    unfold checkVirtualRowCount, modify, growVirtualRowCount. cbn [fst].
    by repeat case_match.
  - apply (purgeBlocksIfNeeded_shrinks b (setBlock (getBlockNumber b) b c).1).
  - apply purgeCache_shrinks.
Qed.

(** *** Instances of the further properties *)

Lemma uncappedCache_registryKeyed : registryKeyed uncappedCache.
Proof.
  apply runOps_registryKeyed, init_registryKeyed,
    newRowNodeCache_registryKeyed.
Qed.

Lemma getBlockIdsSorted_from_property_names_witness :
  safeBlockNumbers threeBlocks
  /\ NoDup [2; 0; 1]
  /\ dom (blocks threeBlocks) = list_to_set [2; 0; 1]
  /\ exists names ids,
       objectKeys [2; 0; 1] = Some names
       /\ blockIdsOfKeys names = Some ids
       /\ getBlockIdsSorted threeBlocks = ids
       /\ StronglySorted Z.lt ids
       /\ (forall id, id ∈ ids <-> is_Some (blocks threeBlocks !! id)).
Proof.
  assert (H1 : safeBlockNumbers threeBlocks)
    by (unfold safeBlockNumbers, isSafeInteger;
        by apply (bool_decide_unpack _); vm_compute).
  assert (H2 : NoDup [2; 0; 1])
    by (by apply (bool_decide_unpack _); vm_compute).
  assert (H3 : dom (blocks threeBlocks) = list_to_set [2; 0; 1])
    by (by apply (bool_decide_unpack _); vm_compute).
  split; [exact H1|]. split; [exact H2|]. split; [exact H3|].
  exact (getBlockIdsSorted_from_property_names threeBlocks [2; 0; 1]
           H1 H2 H3).
Defined.

Lemma forEachBlock_visits_blocks_in_order_witness :
  readOnly listenCallback
  /\ safeBlockNumbers threeBlocks
  /\ forEachBlockInOrder listenCallback threeBlocks
     = (threeBlocks,
        [AddLoadCompleteListener (objId block0);
         AddLoadCompleteListener (objId block1);
         AddLoadCompleteListener (objId block2)])
  /\ forEachBlockInReverseOrder listenCallback threeBlocks
     = (threeBlocks,
        [AddLoadCompleteListener (objId block2);
         AddLoadCompleteListener (objId block1);
         AddLoadCompleteListener (objId block0)]).
Proof.
  assert (H : readOnly listenCallback) by (intros [b|] id c; reflexivity).
  assert (Hs : safeBlockNumbers threeBlocks)
    by (unfold safeBlockNumbers, isSafeInteger;
        by apply (bool_decide_unpack _); vm_compute).
  destruct (forEachBlock_visits_blocks_in_order listenCallback threeBlocks
              H Hs) as (_ & _ & H1 & H2).
  split; [exact H|]. split; [exact Hs|].
  split; [exact (eq_trans H1 eq_refl) | exact (eq_trans H2 eq_refl)].
Defined.

Lemma destroyAllBlocks_empties_registry_witness :
  registryKeyed threeBlocks
  /\ exists c' t, destroyAllBlocks threeBlocks = Some (c', t)
                  /\ blocks c' = ∅.
Proof.
  split; [exact threeBlocks_registryKeyed|].
  destruct (destroyAllBlocks_empties_registry threeBlocks
              threeBlocks_registryKeyed) as (c' & t & H1 & H2 & _).
  exists c', t. split; [exact H1 | exact H2].
Defined.

Lemma purgeCache_empties_registry_witness :
  registryKeyed threeBlocks /\ blocks (purgeCache threeBlocks).1 = ∅.
Proof.
  split; [exact threeBlocks_registryKeyed|].
  exact (proj1 (purgeCache_empties_registry threeBlocks
                  threeBlocks_registryKeyed)).
Defined.

Lemma onCacheUpdated_twice_witness :
  registryKeyed threeBlocks
  /\ onCacheUpdated (onCacheUpdated threeBlocks).1
     = ((onCacheUpdated threeBlocks).1,
        if active threeBlocks then [DispatchCacheUpdated] else []).
Proof.
  split; [exact threeBlocks_registryKeyed|].
  exact (onCacheUpdated_twice threeBlocks threeBlocks_registryKeyed).
Defined.

Lemma setVirtualRowCount_idempotent_witness :
  registryKeyed threeBlocks
  /\ (setVirtualRowCount 15 None
        (setVirtualRowCount 15 None threeBlocks).1).1
     = (setVirtualRowCount 15 None threeBlocks).1.
Proof.
  split; [exact threeBlocks_registryKeyed|].
  exact (setVirtualRowCount_idempotent 15 None threeBlocks
           threeBlocks_registryKeyed).
Defined.

Lemma blockCount_counts_keys_over_cache_ops_witness :
  registryKeyed emptyCache
  /\ countsKeys emptyCache
  /\ cacheOpsFit [OpPostCreateBlock block0; OpPostCreateBlock block1;
                  OpSetVirtualRowCount 5 None] emptyCache
  /\ countsKeys
       (runOps [OpPostCreateBlock block0; OpPostCreateBlock block1;
                OpSetVirtualRowCount 5 None] emptyCache).1.
Proof.
  assert (Hc : countsKeys emptyCache) by (vm_compute; reflexivity).
  assert (Hfit : cacheOpsFit [OpPostCreateBlock block0;
                              OpPostCreateBlock block1;
                              OpSetVirtualRowCount 5 None] emptyCache).
  { split; [vm_compute; reflexivity|].
    split; [vm_compute; reflexivity|]. split; exact I. }
  split; [exact emptyCache_registryKeyed|]. split; [exact Hc|].
  split; [exact Hfit|].
  exact (blockCount_counts_keys_over_cache_ops _ emptyCache
           emptyCache_registryKeyed Hc Hfit).
Defined.

Lemma postCreateBlock_registers_new_block_witness :
  registryKeyed threeBlocks
  /\ getBlock (postCreateBlock block3 threeBlocks).1 (getBlockNumber block3)
     = Some block3.
Proof.
  split; [exact threeBlocks_registryKeyed|].
  exact (postCreateBlock_registers_new_block threeBlocks block3
           threeBlocks_registryKeyed).
Defined.

Lemma eviction_without_cap_keeps_non_dirty_blocks_witness :
  registryKeyed uncappedCache
  /\ noBlockCap (cacheParams uncappedCache)
  /\ blocks (setBlock (getBlockNumber block2) block2 uncappedCache).1 !! 0
     = Some block0
  /\ getState block0 <> STATE_DIRTY
  /\ blocks (postCreateBlock block2 uncappedCache).1 !! 0 = Some block0.
Proof.
  assert (Hcap : noBlockCap (cacheParams uncappedCache)) by exact I.
  assert (Hb : blocks (setBlock (getBlockNumber block2) block2
                         uncappedCache).1 !! 0 = Some block0)
    by (vm_compute; reflexivity).
  assert (Hs : getState block0 <> STATE_DIRTY) by discriminate.
  split; [exact uncappedCache_registryKeyed|]. split; [exact Hcap|].
  split; [exact Hb|]. split; [exact Hs|].
  exact (eviction_without_cap_keeps_non_dirty_blocks uncappedCache block2
           0 block0 uncappedCache_registryKeyed Hcap Hb Hs).
Defined.

Lemma eviction_keeps_most_recent_candidate_witness :
  registryKeyed threeBlocks
  /\ maxBlocksInCache (cacheParams threeBlocks) <> Some 1
  /\ head (sortByLastAccessed
             (blocksForPurging block3
                (setBlock (getBlockNumber block3) block3 threeBlocks).1))
     = Some block2
  /\ blocks (postCreateBlock block3 threeBlocks).1 !! getBlockNumber block2
     = Some block2.
Proof.
  assert (Hcap : maxBlocksInCache (cacheParams threeBlocks) <> Some 1)
    by (vm_compute; discriminate).
  assert (Hh : head (sortByLastAccessed
                       (blocksForPurging block3
                          (setBlock (getBlockNumber block3) block3
                             threeBlocks).1)) = Some block2)
    by (vm_compute; reflexivity).
  split; [exact threeBlocks_registryKeyed|]. split; [exact Hcap|].
  split; [exact Hh|].
  exact (eviction_keeps_most_recent_candidate threeBlocks block3 block2
           threeBlocks_registryKeyed Hcap Hh).
Defined.

Lemma eviction_keeps_one_dirty_candidate_witness :
  noneExempt (setBlock (getBlockNumber block2) block2 oneDirtyBlock).1
    (sortByLastAccessed
       (blocksForPurging block2
          (setBlock (getBlockNumber block2) block2 oneDirtyBlock).1))
  /\ sortByLastAccessed
       (blocksForPurging block2
          (setBlock (getBlockNumber block2) block2 oneDirtyBlock).1)
     !! 1%nat = Some dirtyBlock1
  /\ blocks (postCreateBlock block2 oneDirtyBlock).1
     !! getBlockNumber dirtyBlock1 = None.
Proof.
  assert (Hnone : noneExempt
                    (setBlock (getBlockNumber block2) block2 oneDirtyBlock).1
                    (sortByLastAccessed
                       (blocksForPurging block2
                          (setBlock (getBlockNumber block2) block2
                             oneDirtyBlock).1))).
  { apply noneExempt_checked. by apply (bool_decide_unpack _); vm_compute. }
  assert (Hx : sortByLastAccessed
                 (blocksForPurging block2
                    (setBlock (getBlockNumber block2) block2
                       oneDirtyBlock).1) !! 1%nat = Some dirtyBlock1)
    by (vm_compute; reflexivity).
  split; [exact Hnone|]. split; [exact Hx|].
  exact (eviction_keeps_one_dirty_candidate oneDirtyBlock block2 1
           dirtyBlock1 Hnone Hx (le_n 1) eq_refl).
Defined.

Lemma getRowNodesInRange_from_top_witness :
  NoDup (rowsInOrder threeBlocks)
  /\ getRowNodesInRange threeBlocks None (Some 5%nat) = [1; 2; 3; 4; 5]%nat.
Proof.
  split; [exact threeBlocks_rows_NoDup|].
  refine (getRowNodesInRange_from_top threeBlocks 5%nat [1; 2; 3; 4]%nat
            [6; 7; 8]%nat 1 block1 threeBlocks_rows_NoDup _ _ _ _ _).
  - vm_compute. reflexivity.
  - apply smallest_block_checked.
    by apply (bool_decide_unpack _); vm_compute.
  - vm_compute. reflexivity.
  - by apply (bool_decide_unpack _); vm_compute.
  - intros m Hm.
    assert (Hcases : m = 0 \/ m = 1) by lia.
    destruct Hcases as [-> | ->]; eexists; vm_compute; reflexivity.
Defined.

Lemma heuristic_operations_never_shrink_count_witness :
  Forall heuristicOnly
    [OpPostCreateBlock block0; OpPageLoaded (loadOfBlock0 None)]
  /\ virtualRowCount emptyCache
     <= virtualRowCount
          (runOps [OpPostCreateBlock block0; OpPageLoaded (loadOfBlock0 None)]
             emptyCache).1.
Proof.
  assert (H : Forall heuristicOnly
                [OpPostCreateBlock block0; OpPageLoaded (loadOfBlock0 None)])
    by (repeat constructor).
  split; [exact H|].
  exact (proj1 (heuristic_operations_never_shrink_count _ emptyCache H)).
Defined.

Lemma heuristic_count_is_order_independent_witness :
  Forall heuristicOnly
    [OpPageLoaded loadOfBlock1; OpPageLoaded (loadOfBlock0 None)]
  /\ active threeBlocks = true
  /\ maxRowFound threeBlocks = false
  /\ virtualRowCount
       (runOps [OpPageLoaded loadOfBlock1; OpPageLoaded (loadOfBlock0 None)]
          threeBlocks).1
     = foldr Z.max (virtualRowCount threeBlocks)
         (candidateEnds (cacheParams threeBlocks)
            [OpPageLoaded loadOfBlock1; OpPageLoaded (loadOfBlock0 None)]).
Proof.
  assert (H : Forall heuristicOnly
                [OpPageLoaded loadOfBlock1; OpPageLoaded (loadOfBlock0 None)])
    by (repeat constructor).
  assert (Ha : active threeBlocks = true) by (vm_compute; reflexivity).
  assert (Hm : maxRowFound threeBlocks = false) by (vm_compute; reflexivity).
  split; [exact H|]. split; [exact Ha|]. split; [exact Hm|].
  exact (proj1 (heuristic_count_is_order_independent _
                  [OpPageLoaded (loadOfBlock0 None); OpPageLoaded loadOfBlock1]
                  threeBlocks H Ha Hm)).
Defined.
